(** * ERCHA: the RCH archive container and its codecs

    A shallow embedding of [ercha/lzw.py] and [ercha/rch.py] and the
    properties of the container codec that the specification states.

    Conventions of the embedding:
    - a Python [bytes] value is a [list byte];
    - a Python [int] is a [Z];
    - a Python [dict] is a [gmap];
    - a raised exception is the [Err] case of [result], carrying the class
      of the exception, so that [except ValueError] clauses can be followed. *)

From Stdlib Require Import ZArith List Lia Bool.
From Stdlib Require Import Strings.Byte.
From stdpp Require Import base option list countable gmap.

Open Scope Z_scope.

(** ** Bytes *)

Abbreviation bytes := (list byte).

Global Instance byte_eq_dec : EqDecision byte.
Proof. exact Byte.byte_eq_dec. Defined.

Global Program Instance byte_countable : Countable byte :=
  inj_countable Byte.to_N Byte.of_N _.
Next Obligation. intros b. apply Byte.of_to_N. Qed.

(** [bytes([i])[0]] for an [int] known to be in [range(256)]. *)
Definition byte_of_Z (z : Z) : byte :=
  match Byte.of_N (Z.to_N z) with
  | Some b => b
  | None => x00
  end.

Definition Z_of_byte (b : byte) : Z := Z.of_N (Byte.to_N b).

Lemma Z_of_byte_range b : 0 <= Z_of_byte b < 256.
Proof.
  unfold Z_of_byte. pose proof (Byte.to_N_bounded b) as H.
  split; [apply N2Z.is_nonneg|]. lia.
Qed.

Lemma byte_of_Z_of_byte b : byte_of_Z (Z_of_byte b) = b.
Proof.
  unfold byte_of_Z, Z_of_byte. rewrite N2Z.id, Byte.of_to_N. done.
Qed.

Lemma Z_of_byte_of_Z z : 0 <= z < 256 -> Z_of_byte (byte_of_Z z) = z.
Proof.
  intros Hz. unfold byte_of_Z, Z_of_byte.
  destruct (Byte.of_N (Z.to_N z)) as [b|] eqn:E.
  - apply Byte.to_of_N in E. rewrite E. lia.
  - apply Byte.of_N_None_iff in E. lia.
Qed.

Lemma Z_of_byte_inj a b : Z_of_byte a = Z_of_byte b -> a = b.
Proof.
  intros H. rewrite <- (byte_of_Z_of_byte a), <- (byte_of_Z_of_byte b).
  by rewrite H.
Qed.

(** ** Exceptions *)

(** The classes of the exceptions the code raises or lets through.
    [UnicodeDecodeError] is a subclass of [ValueError] in Python;
    [KeyError], [OSError], [OverflowError] and [struct.error] are not. *)
Inductive exn : Type :=
  | ValueError
  | UnicodeDecodeError
  | UnicodeEncodeError
  | KeyError
  | OverflowError
  | OSError
  | StructError.

Global Instance exn_eq_dec : EqDecision exn.
Proof. solve_decision. Defined.

(** [isinstance(e, ValueError)]: what an [except ValueError] clause catches. *)
Definition is_ValueError (e : exn) : bool :=
  match e with
  | ValueError | UnicodeDecodeError | UnicodeEncodeError => true
  | _ => false
  end.

Inductive result (A : Type) : Type :=
  | Ok (a : A)
  | Err (e : exn).
Arguments Ok {A} a.
Arguments Err {A} e.

(** Sequencing: an exception raised by the first statement ends the block;
    written [x ← r; k] below. *)
Global Instance result_bind : MBind result := fun A B k r =>
  match r with
  | Ok a => k a
  | Err e => Err e
  end.

(** ** The dictionary codec, [ercha/lzw.py] *)

Module LZW.

(** The three attributes of [LZWBase]. *)
Record state : Type := mkState {
  dictionary : gmap bytes Z;
  reverse_dictionary : gmap Z bytes;
  next_code : Z;
}.

(** [{bytes([i]): i for i in range(256)}] and its inverse. *)
Definition range256 : list Z := map Z.of_nat (seq 0 256).

Definition initial_dictionary : gmap bytes Z :=
  list_to_map (map (fun i => ([byte_of_Z i], i)) range256).

Definition initial_reverse_dictionary : gmap Z bytes :=
  list_to_map (map (fun i => (i, [byte_of_Z i])) range256).

Definition reset_dictionary : state :=
  {| dictionary := initial_dictionary;
     reverse_dictionary := initial_reverse_dictionary;
     next_code := 256 |}.

Definition can_add_to_dictionary (st : state) : bool :=
  next_code st <? 65536.

Definition add_to_dictionary (st : state) (key value : bytes) : state :=
  if can_add_to_dictionary st then
    {| dictionary := <[key := next_code st]> (dictionary st);
       reverse_dictionary := <[next_code st := value]> (reverse_dictionary st);
       next_code := next_code st + 1 |}
  else st.

(** [self.dictionary[string]]: a missing key raises [KeyError]. *)
Definition dict_get (st : state) (key : bytes) : result Z :=
  match dictionary st !! key with
  | Some c => Ok c
  | None => Err KeyError
  end.

(** *** [LZWCompressor] *)

(** The loop state of [encode]: the dictionary, the current [string] and
    the codes appended to [encoded_data] so far. *)
Record enc_state : Type := mkEnc {
  enc_st : state;
  enc_string : bytes;
  enc_out : list Z;
}.

(** One iteration of [for symbol in data]. *)
Definition encode_step (e : enc_state) (symbol : byte) : result enc_state :=
  let string_plus_symbol := enc_string e ++ [symbol] in
  if decide (is_Some (dictionary (enc_st e) !! string_plus_symbol)) then
    Ok {| enc_st := enc_st e;
          enc_string := string_plus_symbol;
          enc_out := enc_out e |}
  else
    code ← dict_get (enc_st e) (enc_string e);
    Ok {| enc_st := add_to_dictionary (enc_st e) string_plus_symbol string_plus_symbol;
          enc_string := [symbol];
          enc_out := enc_out e ++ [code] |}.

Fixpoint encode_loop (e : enc_state) (data : bytes) : result enc_state :=
  match data with
  | [] => Ok e
  | symbol :: rest => e' ← encode_step e symbol; encode_loop e' rest
  end.

(** The codes of [encoded_data] when the loop and the final flush are done. *)
Definition encode_finish (e : enc_state) : result enc_state :=
  match enc_string e with
  | [] => Ok e
  | _ :: _ =>
      (code ← dict_get (enc_st e) (enc_string e);
       Ok {| enc_st := enc_st e;
             enc_string := enc_string e;
             enc_out := enc_out e ++ [code] |})
  end.

Definition enc_init : enc_state :=
  {| enc_st := reset_dictionary; enc_string := []; enc_out := [] |}.

Definition encode_codes (data : bytes) : result enc_state :=
  e ← encode_loop enc_init data; encode_finish e.

(** [code.to_bytes(2, byteorder='big')]: [OverflowError] when the code does
    not fit two bytes. *)
Definition to_bytes2 (code : Z) : result bytes :=
  if decide (0 <= code < 65536) then
    Ok [byte_of_Z (code / 256); byte_of_Z (code mod 256)]
  else Err OverflowError.

Fixpoint _to_bytes (encoded_data : list Z) : result bytes :=
  match encoded_data with
  | [] => Ok []
  | code :: rest =>
      (b ← to_bytes2 code;
       bs ← _to_bytes rest;
       Ok (b ++ bs))
  end.

Definition encode (data : bytes) : result bytes :=
  e ← encode_codes data; _to_bytes (enc_out e).

(** *** [LZWDecompressor] *)

(** [int.from_bytes(encoded_data[i:i + 2], byteorder='big')] for [i] in
    [range(0, len(encoded_data), 2)]: the last slice of an input of odd
    length holds one byte. *)
Fixpoint _from_bytes (encoded_data : bytes) : list Z :=
  match encoded_data with
  | [] => []
  | [b] => [Z_of_byte b]
  | hi :: lo :: rest => (Z_of_byte hi * 256 + Z_of_byte lo) :: _from_bytes rest
  end.

(** [b[0:1]] *)
Definition first1 (b : bytes) : bytes := take 1 b.

Definition _get_entry (st : state) (code : Z) (string : bytes) : result bytes :=
  match reverse_dictionary st !! code with
  | Some entry => Ok entry
  | None =>
      if decide (code = next_code st) then Ok (string ++ first1 string)
      else Err ValueError
  end.

Record dec_state : Type := mkDec {
  dec_st : state;
  dec_string : bytes;
  dec_out : bytes;
}.

(** One iteration of [for code in codes]. *)
Definition decode_step (d : dec_state) (code : Z) : result dec_state :=
  entry ← _get_entry (dec_st d) code (dec_string d);
  let key := dec_string d ++ first1 entry in
  Ok {| dec_st := add_to_dictionary (dec_st d) key key;
        dec_string := entry;
        dec_out := dec_out d ++ entry |}.

Fixpoint decode_loop (d : dec_state) (codes : list Z) : result dec_state :=
  match codes with
  | [] => Ok d
  | code :: rest => (d1 ← decode_step d code; decode_loop d1 rest)
  end.

(** The state after [string = self.reverse_dictionary[codes.pop(0)]] and
    the first [extend]. *)
Definition decode_first (code : Z) : result dec_state :=
  match reverse_dictionary reset_dictionary !! code with
  | Some string =>
      Ok {| dec_st := reset_dictionary; dec_string := string; dec_out := string |}
  | None => Err KeyError
  end.

Definition decode_codes (codes : list Z) : result dec_state :=
  match codes with
  | [] => Err ValueError
  | code :: rest => d ← decode_first code; decode_loop d rest
  end.

Definition decode (encoded_data : bytes) : result bytes :=
  d ← decode_codes (_from_bytes encoded_data); Ok (dec_out d).

End LZW.

(** ** Strings, paths and the byte-level helpers of the standard library *)

(** A Python [str] is the list of its code points. *)
Abbreviation str := (list Z).

Module Py.

(** [bytes.decode('utf-8')], strict: shortest forms only, no surrogates,
    nothing above U+10FFFF. *)
Definition is_cont (b : byte) : bool :=
  (0x80 <=? Z_of_byte b) && (Z_of_byte b <=? 0xBF).

Definition in_range (lo hi : Z) (b : byte) : bool :=
  (lo <=? Z_of_byte b) && (Z_of_byte b <=? hi).

Definition low6 (b : byte) : Z := Z_of_byte b - 0x80.

Fixpoint utf8_decode (bs : bytes) : result str :=
  match bs with
  | [] => Ok []
  | b0 :: r0 =>
      let z0 := Z_of_byte b0 in
      if z0 <? 0x80 then
        s ← utf8_decode r0; Ok (z0 :: s)
      else if (0xC2 <=? z0) && (z0 <=? 0xDF) then
        match r0 with
        | b1 :: r1 =>
            if is_cont b1 then
              s ← utf8_decode r1; Ok (((z0 - 0xC0) * 64 + low6 b1) :: s)
            else Err UnicodeDecodeError
        | _ => Err UnicodeDecodeError
        end
      else if (0xE0 <=? z0) && (z0 <=? 0xEF) then
        match r0 with
        | b1 :: b2 :: r2 =>
            let lo := if z0 =? 0xE0 then 0xA0 else 0x80 in
            let hi := if z0 =? 0xED then 0x9F else 0xBF in
            if in_range lo hi b1 && is_cont b2 then
              s ← utf8_decode r2;
              Ok (((z0 - 0xE0) * 4096 + low6 b1 * 64 + low6 b2) :: s)
            else Err UnicodeDecodeError
        | _ => Err UnicodeDecodeError
        end
      else if (0xF0 <=? z0) && (z0 <=? 0xF4) then
        match r0 with
        | b1 :: b2 :: b3 :: r3 =>
            let lo := if z0 =? 0xF0 then 0x90 else 0x80 in
            let hi := if z0 =? 0xF4 then 0x8F else 0xBF in
            if in_range lo hi b1 && is_cont b2 && is_cont b3 then
              s ← utf8_decode r3;
              Ok (((z0 - 0xF0) * 262144 + low6 b1 * 4096 + low6 b2 * 64 + low6 b3) :: s)
            else Err UnicodeDecodeError
        | _ => Err UnicodeDecodeError
        end
      else Err UnicodeDecodeError
  end.

(** [str.encode('utf-8')]: a lone surrogate cannot be encoded. *)
Definition utf8_encode_char (c : Z) : result bytes :=
  if (0 <=? c) && (c <? 0x80) then Ok [byte_of_Z c]
  else if (0x80 <=? c) && (c <? 0x800) then
    Ok [byte_of_Z (0xC0 + c / 64); byte_of_Z (0x80 + c mod 64)]
  else if (0xD800 <=? c) && (c <=? 0xDFFF) then Err UnicodeEncodeError
  else if (0x800 <=? c) && (c <? 0x10000) then
    Ok [byte_of_Z (0xE0 + c / 4096); byte_of_Z (0x80 + (c / 64) mod 64);
        byte_of_Z (0x80 + c mod 64)]
  else if (0x10000 <=? c) && (c <=? 0x10FFFF) then
    Ok [byte_of_Z (0xF0 + c / 262144); byte_of_Z (0x80 + (c / 4096) mod 64);
        byte_of_Z (0x80 + (c / 64) mod 64); byte_of_Z (0x80 + c mod 64)]
  else Err UnicodeEncodeError.

Fixpoint utf8_encode (s : str) : result bytes :=
  match s with
  | [] => Ok []
  | c :: rest =>
      (b ← utf8_encode_char c; bs ← utf8_encode rest; Ok (b ++ bs))
  end.

(** [s.rfind(c)]: the index of the last occurrence, or [-1]. *)
Fixpoint rfind_from (c : Z) (s : str) (i : Z) (last : Z) : Z :=
  match s with
  | [] => last
  | x :: rest => rfind_from c rest (i + 1) (if decide (x = c) then i else last)
  end.

Definition rfind (c : Z) (s : str) : Z := rfind_from c s 0 (-1).

(** The slices [s[:k]] and [s[k:]] for a [k] that may be negative. *)
Definition slice_index {A} (k : Z) (s : list A) : nat :=
  if 0 <=? k then Z.to_nat k else Z.to_nat (Z.of_nat (length s) + k).

Definition slice_to {A} (k : Z) (s : list A) : list A := take (slice_index k s) s.
Definition slice_from {A} (k : Z) (s : list A) : list A := drop (slice_index k s) s.

Definition sep : Z := 47.     (* '/' *)
Definition extsep : Z := 46.  (* '.' *)

(** [os.path] is taken to be [posixpath], with ['/'] as the only separator.
    [posixpath.basename]: [i = p.rfind('/') + 1; return p[i:]]. *)
Definition basename (p : str) : str := slice_from (rfind sep p + 1) p.

(** [posixpath.splitext], that is [genericpath._splitext(p, '/', None, '.')]:
    the extension starts at the last dot of the last component, unless only
    dots precede it there. *)
Fixpoint all_dots_between (p : str) (i : nat) (n : nat) : bool :=
  match n with
  | O => true
  | S n' =>
      match p !! i with
      | Some x => if decide (x = extsep) then all_dots_between p (S i) n' else false
      | None => false
      end
  end.

Definition splitext (p : str) : str * str :=
  let sepIndex := rfind sep p in
  let dotIndex := rfind extsep p in
  if (sepIndex <? dotIndex)
     && negb (all_dots_between p (Z.to_nat (sepIndex + 1))
                (Z.to_nat (dotIndex - (sepIndex + 1))))
  then (slice_to dotIndex p, slice_from dotIndex p)
  else (p, []).

(** [posixpath.join(a, b)] *)
Definition join (a b : str) : str :=
  if decide (head b = Some sep) then b
  else if decide (a = [] ∨ last a = Some sep) then a ++ b
  else a ++ [sep] ++ b.

(** [str.isspace] on one character, and [str.strip()]. *)
Definition isspace (c : Z) : bool :=
  bool_decide (c ∈ [9; 10; 11; 12; 13; 28; 29; 30; 31; 32; 133; 160; 5760;
                    8232; 8233; 8239; 8287; 12288])
  || ((8192 <=? c) && (c <=? 8202)).

Fixpoint lstrip (s : str) : str :=
  match s with
  | c :: rest => if isspace c then lstrip rest else s
  | [] => []
  end.

Definition strip (s : str) : str := rev (lstrip (rev (lstrip s))).

(** [bytes.split(b'\x00', 1)[0]]: what precedes the first NUL. *)
Fixpoint before_nul (bs : bytes) : bytes :=
  match bs with
  | [] => []
  | b :: rest => if decide (b = x00) then [] else b :: before_nul rest
  end.

(** [bytes.ljust(width, b'\x00')]: padding only, a longer value is kept whole. *)
Definition ljust (width : nat) (bs : bytes) : bytes :=
  bs ++ replicate (width - length bs) x00.

(** [struct.pack('<I', z)] and [struct.unpack('<I', b)]. *)
Definition pack_u32 (z : Z) : result bytes :=
  if decide (0 <= z < 4294967296) then
    Ok [byte_of_Z (z mod 256); byte_of_Z ((z / 256) mod 256);
        byte_of_Z ((z / 65536) mod 256); byte_of_Z (z / 16777216)]
  else Err StructError.

Definition unpack_u32 (b0 b1 b2 b3 : byte) : Z :=
  Z_of_byte b0 + 256 * Z_of_byte b1 + 65536 * Z_of_byte b2
  + 16777216 * Z_of_byte b3.

(** [struct.pack('<I I I I I', a, b, c, d, e)] *)
Definition pack_5u32 (a b c d e : Z) : result bytes :=
  ba ← pack_u32 a; bb ← pack_u32 b; bc ← pack_u32 c;
  bd ← pack_u32 d; be ← pack_u32 e;
  Ok (ba ++ bb ++ bc ++ bd ++ be).

(** [struct.unpack('<I I I I I', data)]: exactly twenty bytes, else
    [struct.error]. *)
Definition unpack_5u32 (data : bytes) : result (Z * Z * Z * Z * Z) :=
  match data with
  | [a0; a1; a2; a3; b0; b1; b2; b3; c0; c1; c2; c3;
     d0; d1; d2; d3; e0; e1; e2; e3] =>
      Ok (unpack_u32 a0 a1 a2 a3, unpack_u32 b0 b1 b2 b3,
          unpack_u32 c0 c1 c2 c3, unpack_u32 d0 d1 d2 d3,
          unpack_u32 e0 e1 e2 e3)
  | _ => Err StructError
  end.

(** [zlib.crc32]: the reflected CRC-32 of polynomial [0xEDB88320]. *)
Definition crc32_bit (c : Z) : Z :=
  if Z.testbit c 0 then Z.lxor (Z.shiftr c 1) 0xEDB88320 else Z.shiftr c 1.

Definition crc32_byte (crc : Z) (b : byte) : Z :=
  Nat.iter 8 crc32_bit (Z.lxor crc (Z_of_byte b)).

Definition crc32 (data : bytes) : Z :=
  Z.lxor (fold_left crc32_byte data 0xFFFFFFFF) 0xFFFFFFFF.

(** A file handle opened for reading is what is left to read;
    [read(n)] takes up to [n] bytes of it and never fails. *)
Definition read (n : Z) (stream : bytes) : bytes * bytes :=
  (take (Z.to_nat n) stream, drop (Z.to_nat n) stream).

End Py.

(** ** The archive handler, [ercha/rch.py] *)

Module RCH.

(** [ercha/config.py] *)
Definition RCH_MAGIC : bytes := [x46; x52; x30; x31].   (* b'FR01' *)
Definition BLOCK_MAGIC : bytes := [x46; x5a].           (* b'FZ' *)
Definition ENCODING_XOR255_LZW : Z := 0.
Definition ENCODING_XOR255 : Z := 1.
Definition ENCODING_BZIP2 : Z := 2.

(** The attributes of an [RCH] object. *)
Record handler : Type := mkRCH {
  encoding_algorithm : Z;
  compression_level : Z;
  force : bool;
}.

Inductive encoding_name : Type := BZIP2 | XOR255_LZW | XOR255 | Unknown.
Inductive status_name : Type := Packed | Unpacked | Failed | Checked.

(** The result record of one processed file. *)
Record entry : Type := mkEntry {
  filename : str;
  size : Z;
  crc32 : Z;
  encoding : encoding_name;
  crc_passed : bool;
  timestamp : Z;
  status : status_name;
}.

(** What the operations read and write: the files by path, and the two
    standard streams. Directories are not modelled and a write to a file
    succeeds. *)
Record world : Type := mkWorld {
  files : gmap str bytes;
  stdin : bytes;
  stdout : bytes;
}.

Definition dash : str := [45].                  (* '-' *)
Definition dot_tmp : str := [46; 116; 109; 112].  (* '.tmp' *)

Section WithBzip2.

(** The [bz2] module is not part of the repository: [bz2_compress level data]
    stands for [BZ2Compressor(level).compress(data) + flush()] at a level in
    1..9, and [bz2_decompress] for [bz2.decompress], [None] when it raises. *)
Variable bz2_compress : Z → bytes → bytes.
Variable bz2_decompress : bytes → option bytes.

Definition xor255 (data : bytes) : bytes :=
  map (fun b => byte_of_Z (Z.lxor (Z_of_byte b) 255)) data.

Definition read_rch_header (rch_file : bytes) : result bytes :=
  let '(header, rest) := Py.read 4 rch_file in
  if decide (header = RCH_MAGIC) then
    Ok (snd (Py.read (4 + 4 + 16) rest))
  else Err ValueError.

(** Returns [(filename, header[2], header[3], header[4], header[1])] and
    the handle after the header. *)
Definition read_file_block_header (rch_file : bytes)
  : result (str * Z * Z * Z * Z * bytes) :=
  let '(block_magic, rest) := Py.read 2 rch_file in
  if decide (block_magic = BLOCK_MAGIC) then
    let '(field, rest) := Py.read 40 rest in
    filename ← Py.utf8_decode (Py.before_nul field);
    let '(raw, rest) := Py.read (4 * 5) rest in
    '(h0, h1, h2, h3, h4) ← Py.unpack_5u32 raw;
    Ok (filename, h2, h3, h4, h1, rest)
  else Err ValueError.

(** Every exception of a decoder leaves [decode_data] as a [ValueError]. *)
Definition decode_data (file_data : bytes) (encoding_algo : Z) : result bytes :=
  if decide (encoding_algo = ENCODING_BZIP2) then
    match bz2_decompress file_data with
    | Some result => Ok result
    | None => Err ValueError
    end
  else if decide (encoding_algo = ENCODING_XOR255_LZW) then
    match LZW.decode file_data with
    | Ok lzw_data => Ok (xor255 lzw_data)
    | Err _ => Err ValueError
    end
  else if decide (encoding_algo = ENCODING_XOR255) then
    Ok (xor255 file_data)
  else Err ValueError.

(** [check_crc] returns [True] or raises: it never returns [False]. *)
Definition check_crc (data : bytes) (crc32_stored : Z) : result bool :=
  let crc32_computed := Z.land (Py.crc32 data) 0xFFFFFFFF in
  let result := bool_decide (crc32_computed = crc32_stored) in
  if negb result then Err ValueError else Ok result.

(** The bytes one call of [write_block_to_file] writes, and whether it
    raised: the magic and the name are written before the fields are packed. *)
Definition write_block_to_file (self : handler) (filename encoded_data : bytes)
    (crc32 : Z) : bytes * result unit :=
  let written := BLOCK_MAGIC ++ Py.ljust 40 filename in
  match Py.pack_5u32 1 0 (Z.of_nat (length encoded_data)) crc32
          (encoding_algorithm self) with
  | Ok fields => (written ++ fields ++ encoded_data, Ok tt)
  | Err e => (written, Err e)
  end.

Definition rch_header : bytes :=
  RCH_MAGIC ++ [x01; x00; x00; x00] ++ [x00; x00; x00; x00] ++ replicate 16 x00.

Definition get_encoding_name (encoding_algo : Z) : encoding_name :=
  if decide (encoding_algo = ENCODING_BZIP2) then BZIP2
  else if decide (encoding_algo = ENCODING_XOR255_LZW) then XOR255_LZW
  else if decide (encoding_algo = ENCODING_XOR255) then XOR255
  else Unknown.

Definition encode_file_data (self : handler) (file_data : bytes) : result bytes :=
  if decide (encoding_algorithm self = ENCODING_BZIP2) then
    if decide (1 <= compression_level self <= 9) then
      Ok (bz2_compress (compression_level self) file_data)
    else Err ValueError
  else if decide (encoding_algorithm self = ENCODING_XOR255_LZW) then
    LZW.encode (xor255 file_data)
  else if decide (encoding_algorithm self = ENCODING_XOR255) then
    Ok (xor255 file_data)
  else Err ValueError.

Definition _calculate_crc32 (self : handler) (file_data encoded_data : bytes) : Z :=
  if decide (encoding_algorithm self = ENCODING_BZIP2)
  then Z.land (Py.crc32 file_data) 0xFFFFFFFF
  else Z.land (Py.crc32 encoded_data) 0xFFFFFFFF.

(** The bytes written for one entry, and its result record. The name is
    decoded for the log line before anything else is done. *)
Definition _write_file_block (self : handler) (filename file_data : bytes)
  : bytes * result entry :=
  match Py.utf8_decode filename with
  | Err e => ([], Err e)
  | Ok name =>
      match encode_file_data self file_data with
      | Err e => ([], Err e)
      | Ok encoded_data =>
          let crc32 := _calculate_crc32 self file_data encoded_data in
          let '(written, r) := write_block_to_file self filename encoded_data crc32 in
          (written,
           _ ← r;
           Ok {| filename := Py.strip name;
                 size := Z.of_nat (length encoded_data);
                 crc32 := crc32;
                 encoding := get_encoding_name (encoding_algorithm self);
                 crc_passed := true;
                 timestamp := 0;
                 status := Packed |})
      end
  end.

(** [read_input_file]: all of the standard input, or the content of a file. *)
Definition read_input_file (w : world) (input_file : str) : world * result bytes :=
  if decide (input_file = dash) then
    ({| files := files w; stdin := []; stdout := stdout w |}, Ok (stdin w))
  else
    match files w !! input_file with
    | Some data => (w, Ok data)
    | None => (w, Err OSError)
    end.

(** A write to the handle [pack_rch] opened. *)
Definition write_to (output_filename : str) (data : bytes) (w : world) : world :=
  if decide (output_filename = dash) then
    {| files := files w; stdin := stdin w; stdout := stdout w ++ data |}
  else
    {| files := <[output_filename := default [] (files w !! output_filename) ++ data]>
                  (files w);
       stdin := stdin w; stdout := stdout w |}.

(** [open(output_filename, 'wb')] empties the file, ['ab'] keeps it. *)
Definition open_for_write (output_filename : str) (append : bool) (w : world) : world :=
  if decide (output_filename = dash) then w
  else
    {| files := <[output_filename :=
                    if append then default [] (files w !! output_filename) else []]>
                  (files w);
       stdin := stdin w; stdout := stdout w |}.

Fixpoint pack_loop (self : handler) (output_filename stdin_filename : str)
    (input_files : list str) (w : world) (results : list entry)
  : world * result (list entry) :=
  match input_files with
  | [] => (w, Ok results)
  | input_file :: rest =>
      let '(w, data) := read_input_file w input_file in
      match data with
      | Err e => (w, Err e)
      | Ok file_data =>
          let name := if decide (input_file = dash) then stdin_filename
                      else Py.basename input_file in
          match Py.utf8_encode name with
          | Err e => (w, Err e)
          | Ok filename =>
              let '(written, r) := _write_file_block self filename file_data in
              let w := write_to output_filename written w in
              match r with
              | Err e => (w, Err e)
              | Ok result =>
                  pack_loop self output_filename stdin_filename rest w
                    (results ++ [result])
              end
          end
      end
  end.

Definition pack_rch (self : handler) (w : world) (output_filename : str)
    (input_files : list str) (append : bool) (stdin_filename : str)
  : world * result (list entry) :=
  let w := open_for_write output_filename append w in
  let w := if append then w else write_to output_filename rch_header w in
  pack_loop self output_filename stdin_filename input_files w [].

Definition inject_files (self : handler) (w : world) (rch_filename : str)
    (input_files : list str) (stdin_filename : str) : world * result (list entry) :=
  pack_rch self w rch_filename input_files true stdin_filename.

Definition _process_file_data (file_data : bytes) (encoding_algo crc32_stored : Z)
  : result (bytes * bool) :=
  output_data ← decode_data file_data encoding_algo;
  crc_valid ← check_crc (if decide (encoding_algo = ENCODING_BZIP2)
                          then output_data else file_data) crc32_stored;
  Ok (output_data, crc_valid).

Definition _sanitize_filename (filename : str) : str :=
  let sanitized := Py.basename filename in
  if Z.of_nat (length sanitized) >? 255 then
    let '(root, ext) := Py.splitext sanitized in
    Py.slice_to (255 - Z.of_nat (length ext)) root ++ ext
  else sanitized.

Definition _write_output (output_directory filename : str) (output_data : bytes)
    (w : world) : world :=
  if decide (output_directory = dash) then
    {| files := files w; stdin := stdin w; stdout := stdout w ++ output_data |}
  else
    {| files := <[Py.join output_directory filename := output_data]> (files w);
       stdin := stdin w; stdout := stdout w |}.

Definition _create_result_entry (filename : str) (filesize crc32_stored encoding_algo : Z)
    (crc_valid : bool) (timestamp : Z) (status : status_name) : entry :=
  {| filename := filename; size := filesize; crc32 := crc32_stored;
     encoding := get_encoding_name encoding_algo; crc_passed := crc_valid;
     timestamp := timestamp; status := status |}.

(** [not filenames or filename in filenames] *)
Definition selected (filenames : option (list str)) (filename : str) : bool :=
  match filenames with
  | None | Some [] => true
  | Some names => bool_decide (filename ∈ names)
  end.

(** The [while True] loop of [unpack_rch]. [None] stands for a loop that
    has not ended within [fuel] iterations. *)
Fixpoint unpack_loop (fuel : nat) (self : handler) (output_directory : str)
    (filenames : option (list str)) (rch_file : bytes) (w : world)
    (results : list entry) : option (world * result (list entry)) :=
  match fuel with
  | O => None
  | S fuel =>
      match read_file_block_header rch_file with
      | Err e =>
          if is_ValueError e then Some (w, Ok results) else Some (w, Err e)
      | Ok (filename, filesize, crc32_stored, encoding_algo, timestamp, rch_file) =>
          let safe_filename := _sanitize_filename filename in
          let '(file_data, rch_file) := Py.read filesize rch_file in
          if selected filenames filename then
            let failed :=
              _create_result_entry safe_filename filesize crc32_stored
                encoding_algo false timestamp Failed in
            match _process_file_data file_data encoding_algo crc32_stored with
            | Ok (output_data, crc_valid) =>
                if negb crc_valid && negb (force self) then
                  unpack_loop fuel self output_directory filenames rch_file w
                    (results ++ [failed])
                else
                  let w := _write_output output_directory safe_filename output_data w in
                  let result_status :=
                    if crc_valid || force self then Unpacked else Failed in
                  unpack_loop fuel self output_directory filenames rch_file w
                    (results ++ [_create_result_entry safe_filename filesize
                                   crc32_stored encoding_algo crc_valid timestamp
                                   result_status])
            | Err e =>
                if is_ValueError e then
                  unpack_loop fuel self output_directory filenames rch_file w
                    (results ++ [failed])
                else Some (w, Err e)
            end
          else
            unpack_loop fuel self output_directory filenames rch_file w results
      end
  end.

(** [open(rch_filename, 'rb')], or the standard input for ['-']. *)
Definition open_archive (w : world) (rch_filename : str) : result bytes :=
  if decide (rch_filename = dash) then Ok (stdin w)
  else match files w !! rch_filename with
       | Some content => Ok content
       | None => Err OSError
       end.

Definition unpack_rch (self : handler) (w : world) (rch_filename output_directory : str)
    (filenames : option (list str)) : option (world * result (list entry)) :=
  match (rch_file ← open_archive w rch_filename; read_rch_header rch_file) with
  | Err e => Some (w, Err e)
  | Ok rch_file =>
      unpack_loop (S (length rch_file)) self output_directory filenames rch_file w []
  end.

Definition _verify_crc (file_data : bytes) (encoding_algo crc32_stored : Z)
  : result bool :=
  if decide (encoding_algo = ENCODING_BZIP2) then
    deencoded_data ← decode_data file_data encoding_algo;
    check_crc deencoded_data crc32_stored
  else check_crc file_data crc32_stored.

Fixpoint check_loop (fuel : nat) (rch_file : bytes) (results : list entry)
  : option (result (list entry)) :=
  match fuel with
  | O => None
  | S fuel =>
      match read_file_block_header rch_file with
      | Err e => if is_ValueError e then Some (Ok results) else Some (Err e)
      | Ok (filename, filesize, crc32_stored, encoding_algo, timestamp, rch_file) =>
          let '(file_data, rch_file) := Py.read filesize rch_file in
          match _verify_crc file_data encoding_algo crc32_stored with
          | Ok crc_valid =>
              check_loop fuel rch_file
                (results ++ [_create_result_entry (_sanitize_filename filename)
                               filesize crc32_stored encoding_algo crc_valid
                               timestamp Checked])
          | Err e =>
              if is_ValueError e then
                check_loop fuel rch_file
                  (results ++ [_create_result_entry (_sanitize_filename filename)
                                 filesize crc32_stored encoding_algo false
                                 timestamp Checked])
              else Some (Err e)
          end
      end
  end.

Definition check_rch (w : world) (rch_filename : str) : option (result (list entry)) :=
  match (rch_file ← open_archive w rch_filename; read_rch_header rch_file) with
  | Err e => Some (Err e)
  | Ok rch_file => check_loop (S (length rch_file)) rch_file []
  end.

(** The loop of [detract_file]: what is written to the temporary file, and
    whether a block was left out. [rch_file.tell()] and [rch_file.seek] are
    the handle kept in [current_pos] and restored. *)
Fixpoint detract_loop (fuel : nat) (file_to_remove : str) (rch_file : bytes)
    (temp_file : bytes) (file_removed : bool) : option (bytes * result bool) :=
  match fuel with
  | O => None
  | S fuel =>
      let current_pos := rch_file in
      match read_file_block_header rch_file with
      | Err e =>
          if is_ValueError e then Some (temp_file, Ok file_removed)
          else Some (temp_file, Err e)
      | Ok (filename, filesize, crc32_stored, encoding_algo, timestamp, rch_file) =>
          let '(file_data, rch_file) := Py.read filesize rch_file in
          if decide (filename ≠ file_to_remove) then
            let '(block, rch_file) := Py.read (2 + 40 + 4 * 5 + filesize) current_pos in
            detract_loop fuel file_to_remove rch_file (temp_file ++ block) file_removed
          else
            detract_loop fuel file_to_remove rch_file temp_file true
      end
  end.

Definition set_file (path : str) (content : bytes) (w : world) : world :=
  {| files := <[path := content]> (files w); stdin := stdin w; stdout := stdout w |}.

Definition remove_file (path : str) (w : world) : world :=
  {| files := delete path (files w); stdin := stdin w; stdout := stdout w |}.

(** [output_filename or rch_filename]: [None] and the empty string are both
    false. *)
Definition or_else (output_filename : option str) (rch_filename : str) : str :=
  match output_filename with
  | Some (c :: o) => c :: o
  | _ => rch_filename
  end.

Definition detract_file (w : world) (rch_filename file_to_remove : str)
    (output_filename : option str) : option (world * result bool) :=
  let output_filename := or_else output_filename rch_filename in
  let temp_filename := output_filename ++ dot_tmp in
  match files w !! rch_filename with
  | None => Some (w, Err OSError)
  | Some _ =>
      (* opening the temporary file for writing empties it *)
      let w := set_file temp_filename [] w in
      let rch_file := default [] (files w !! rch_filename) in
      let '(header, rch_file) := Py.read (4 + 4 + 4 + 16) rch_file in
      match detract_loop (S (length rch_file)) file_to_remove rch_file header false with
      | None => None
      | Some (temp_file, Err e) => Some (set_file temp_filename temp_file w, Err e)
      | Some (temp_file, Ok file_removed) =>
          if file_removed then
            (* os.rename(temp_filename, output_filename) *)
            Some (set_file output_filename temp_file (remove_file temp_filename w),
                  Ok true)
          else
            (* os.remove(temp_filename) *)
            Some (remove_file temp_filename w, Ok false)
      end
  end.

Fixpoint detract_files_loop (w : world) (rch_filename : str)
    (files_to_remove : list str) (removed_files not_removed_files : list str)
  : option (world * result (list str * list str)) :=
  match files_to_remove with
  | [] => Some (w, Ok (removed_files, not_removed_files))
  | file_to_remove :: rest =>
      match detract_file w rch_filename file_to_remove None with
      | None => None
      | Some (w, Err e) => Some (w, Err e)
      | Some (w, Ok file_removed) =>
          if file_removed then
            detract_files_loop w rch_filename rest
              (removed_files ++ [file_to_remove]) not_removed_files
          else
            detract_files_loop w rch_filename rest
              removed_files (not_removed_files ++ [file_to_remove])
      end
  end.

Definition detract_files (w : world) (rch_filename : str)
    (files_to_remove : list str) (output_filename : option str)
  : option (world * result (list str * list str)) :=
  match output_filename with
  | Some (c :: o) =>
      let output_filename := c :: o in
      match files w !! rch_filename with
      | None => Some (w, Err OSError)
      | Some _ =>
          (* the copy is opened for writing, and emptied, before the read *)
          let w := set_file output_filename [] w in
          let content := default [] (files w !! rch_filename) in
          let w := set_file output_filename content w in
          detract_files_loop w output_filename files_to_remove [] []
      end
  | _ => detract_files_loop w rch_filename files_to_remove [] []
  end.

End WithBzip2.

End RCH.

(** ** Concrete archives and handlers for the runs below *)

Module Sample.
Import RCH.

(** A compressor that stores its input unchanged, for the runs that need
    the external compressor to be given; none of them selects algorithm 2. *)
Definition store : Z → bytes → bytes := fun _ data => data.
Definition unstore : bytes → option bytes := Some.

Definition name_a : str := [97].                       (* 'a' *)
Definition name_b : str := [98].                       (* 'b' *)
Definition archive_path : str := [120; 46; 114; 99; 104].  (* 'x.rch' *)
Definition out_dir : str := [111; 117; 116].           (* 'out' *)

Definition xor_handler (force : bool) : handler :=
  {| encoding_algorithm := ENCODING_XOR255; compression_level := 9; force := force |}.

Definition lzw_handler : handler :=
  {| encoding_algorithm := ENCODING_XOR255_LZW; compression_level := 9; force := false |}.

(** A block header with the given name, declared length, checksum and
    algorithm, as twenty-plus-forty-two bytes. *)
Definition block_header (name : bytes) (declared crc algo : Z) : bytes :=
  BLOCK_MAGIC ++ Py.ljust 40 name
  ++ match Py.pack_5u32 1 0 declared crc algo with
     | Ok fields => fields
     | Err _ => []
     end.

Definition payload3 : bytes := [x01; x02; x03].

(** One block of three payload bytes whose header declares ten. *)
Definition truncated_archive : bytes :=
  rch_header ++ block_header [x61] 10 (Py.crc32 payload3) ENCODING_XOR255 ++ payload3.

(** One block whose stored checksum, zero, is not that of its payload. *)
Definition bad_crc_archive : bytes :=
  rch_header ++ block_header [x61] 3 0 ENCODING_XOR255 ++ payload3.

Definition world_of (archive : bytes) : world :=
  {| files := {[ archive_path := archive ]}; stdin := []; stdout := [] |}.

(** The block header of the name [../x.txt]. *)
Definition traversal_header : bytes :=
  block_header [x2e; x2e; x2f; x78; x2e; x74; x78; x74] 0 0 ENCODING_XOR255.

(** The blocks [write_block_to_file] writes for [a] and [b], and the
    archive made of them. *)
Definition block_a : bytes :=
  (write_block_to_file (xor_handler false) [x61] [xfe; xfd] 0).1.
Definition block_b : bytes :=
  (write_block_to_file lzw_handler [x62] [x00; x9e] 0).1.

Definition two_blocks : list (str * bytes) := [(name_a, block_a); (name_b, block_b)].

Definition two_blocks_world : world :=
  world_of (rch_header ++ block_a ++ block_b).

End Sample.

(** ** Properties of the dictionary codec *)

Module LZWFacts.
Import LZW.

(** *** The seeded tables *)

Lemma initial_dictionary_single b :
  initial_dictionary !! [b] = Some (Z_of_byte b).
Proof. destruct b; vm_compute; reflexivity. Qed.

Lemma initial_reverse_single b :
  initial_reverse_dictionary !! Z_of_byte b = Some [b].
Proof. destruct b; vm_compute; reflexivity. Qed.

Lemma elem_of_range256 i : i ∈ range256 ↔ 0 <= i < 256.
Proof.
  unfold range256. rewrite list_elem_of_fmap. split.
  - intros (n & -> & Hn). apply elem_of_seq in Hn. lia.
  - intros Hi. exists (Z.to_nat i). split; [lia|]. apply elem_of_seq. lia.
Qed.

Lemma initial_dictionary_lookup k c :
  initial_dictionary !! k = Some c ↔ ∃ b, k = [b] ∧ c = Z_of_byte b.
Proof.
  split.
  - intros H. apply elem_of_list_to_map_2 in H.
    apply list_elem_of_fmap in H as (i & Heq & Hi). simplify_eq.
    apply elem_of_range256 in Hi. exists (byte_of_Z i).
    by rewrite Z_of_byte_of_Z.
  - intros (b & -> & ->). apply initial_dictionary_single.
Qed.

Lemma initial_reverse_lookup c k :
  initial_reverse_dictionary !! c = Some k ↔ 0 <= c < 256 ∧ k = [byte_of_Z c].
Proof.
  split.
  - intros H. apply elem_of_list_to_map_2 in H.
    apply list_elem_of_fmap in H as (i & Heq & Hi). simplify_eq.
    by apply elem_of_range256 in Hi.
  - intros (Hc & ->). rewrite <- (Z_of_byte_of_Z c) at 1 by done.
    apply initial_reverse_single.
Qed.

Lemma initial_reverse_None c :
  ¬ (0 <= c < 256) → initial_reverse_dictionary !! c = None.
Proof.
  intros Hc. destruct (initial_reverse_dictionary !! c) as [k|] eqn:E; [|done].
  apply initial_reverse_lookup in E. tauto.
Qed.

(** The seeded tables are only ever read through the lemmas above. *)
Global Opaque initial_dictionary initial_reverse_dictionary.

(** *** Bounds of the code space *)

Definition code_bounds (st : state) : Prop := 256 <= next_code st <= 65536.

Definition code_ok (c : Z) : Prop := 0 <= c < 65536.

Lemma add_to_dictionary_below st key value :
  next_code st < 65536 →
  add_to_dictionary st key value =
    {| dictionary := <[key := next_code st]> (dictionary st);
       reverse_dictionary := <[next_code st := value]> (reverse_dictionary st);
       next_code := next_code st + 1 |}.
Proof.
  intros H. unfold add_to_dictionary, can_add_to_dictionary.
  by destruct (Z.ltb_spec (next_code st) 65536); [|lia].
Qed.

Lemma add_to_dictionary_full st key value :
  65536 <= next_code st → add_to_dictionary st key value = st.
Proof.
  intros H. unfold add_to_dictionary, can_add_to_dictionary.
  by destruct (Z.ltb_spec (next_code st) 65536); [lia|].
Qed.

Lemma add_to_dictionary_bounds st key value :
  code_bounds st → code_bounds (add_to_dictionary st key value).
Proof.
  unfold code_bounds. intros H.
  destruct (decide (next_code st < 65536)).
  - rewrite add_to_dictionary_below by done. simpl. lia.
  - rewrite add_to_dictionary_full by lia. done.
Qed.

Lemma reset_dictionary_bounds : code_bounds reset_dictionary.
Proof. unfold code_bounds. simpl. lia. Qed.

(** What holds of the compressor between two iterations of its loop. *)
Record enc_inv (e : enc_state) : Prop := {
  enc_bounds : code_bounds (enc_st e);
  enc_codes_lt : ∀ k c,
    dictionary (enc_st e) !! k = Some c → 0 <= c < next_code (enc_st e);
  enc_singles : ∀ b, is_Some (dictionary (enc_st e) !! [b]);
  enc_string_known :
    enc_string e = [] ∨ is_Some (dictionary (enc_st e) !! enc_string e);
  enc_out_ok : Forall code_ok (enc_out e);
}.

Lemma enc_init_inv : enc_inv enc_init.
Proof.
  split; simpl.
  - apply reset_dictionary_bounds.
  - intros k c (b & -> & ->)%initial_dictionary_lookup.
    pose proof (Z_of_byte_range b). lia.
  - intros b. rewrite initial_dictionary_single. eauto.
  - by left.
  - constructor.
Qed.

Lemma enc_inv_get e :
  enc_inv e → enc_string e ≠ [] →
  ∃ c, dict_get (enc_st e) (enc_string e) = Ok c ∧
       dictionary (enc_st e) !! enc_string e = Some c ∧ code_ok c.
Proof.
  intros He Hne. destruct (enc_string_known _ He) as [|[c Hc]]; [done|].
  exists c. unfold dict_get. rewrite Hc. split_and!; [done..|].
  pose proof (enc_codes_lt _ He _ _ Hc). pose proof (enc_bounds _ He).
  unfold code_ok, code_bounds in *. lia.
Qed.

Lemma add_to_dictionary_lookup st key value k c :
  dictionary (add_to_dictionary st key value) !! k = Some c →
  dictionary st !! k = Some c ∨ (k = key ∧ c = next_code st ∧ next_code st < 65536).
Proof.
  destruct (decide (next_code st < 65536)).
  - rewrite add_to_dictionary_below by done. simpl.
    destruct (decide (key = k)) as [->|].
    + rewrite lookup_insert_eq. intros [= <-]. by right.
    + rewrite lookup_insert_ne by done. by left.
  - rewrite add_to_dictionary_full by lia. by left.
Qed.

Lemma add_to_dictionary_keeps st key value k :
  dictionary st !! key = None →
  is_Some (dictionary st !! k) →
  is_Some (dictionary (add_to_dictionary st key value) !! k).
Proof.
  intros Hkey [c Hc]. destruct (decide (next_code st < 65536)).
  - rewrite add_to_dictionary_below by done. simpl.
    rewrite lookup_insert_ne by congruence. eauto.
  - rewrite add_to_dictionary_full by lia. eauto.
Qed.

Lemma add_to_dictionary_next st key value :
  next_code st <= next_code (add_to_dictionary st key value).
Proof.
  destruct (decide (next_code st < 65536)).
  - rewrite add_to_dictionary_below by done. simpl. lia.
  - rewrite add_to_dictionary_full by lia. lia.
Qed.

Lemma encode_step_inv e symbol :
  enc_inv e → ∃ e', encode_step e symbol = Ok e' ∧ enc_inv e'.
Proof.
  intros He. unfold encode_step.
  destruct (decide (is_Some (dictionary (enc_st e) !! (enc_string e ++ [symbol]))))
    as [Hin|Hnot].
  - eexists. split; [done|]. destruct He. split; simpl; auto.
  - assert (enc_string e ≠ []) as Hne.
    { intros Heq. rewrite Heq in Hnot. simpl in Hnot.
      by destruct Hnot, (enc_singles _ He symbol). }
    destruct (enc_inv_get _ He Hne) as (c & -> & Hc & Hok). simpl.
    eexists. split; [done|].
    apply eq_None_not_Some in Hnot.
    split; simpl.
    + apply add_to_dictionary_bounds, He.
    + intros k c' [Hold|(-> & -> & Hlt)]%add_to_dictionary_lookup.
      * pose proof (enc_codes_lt _ He _ _ Hold).
        pose proof (add_to_dictionary_next (enc_st e)
                      (enc_string e ++ [symbol]) (enc_string e ++ [symbol])).
        lia.
      * rewrite add_to_dictionary_below by done. simpl.
        pose proof (enc_bounds _ He). unfold code_bounds in *. lia.
    + intros b. apply add_to_dictionary_keeps; [done|apply He].
    + right. apply add_to_dictionary_keeps; [done|apply He].
    + apply Forall_app. split; [apply He|]. by apply Forall_singleton.
Qed.

Lemma encode_loop_inv data : ∀ e,
  enc_inv e → ∃ e', encode_loop e data = Ok e' ∧ enc_inv e'.
Proof.
  induction data as [|symbol rest IH]; intros e He; simpl.
  - eauto.
  - destruct (encode_step_inv e symbol He) as (e1 & -> & He1). simpl.
    by apply IH.
Qed.

Lemma encode_finish_inv e :
  enc_inv e → ∃ e', encode_finish e = Ok e' ∧ enc_inv e'.
Proof.
  intros He. unfold encode_finish.
  destruct (enc_string e) as [|b w] eqn:Hw; [eauto|].
  rewrite <- Hw.
  destruct (enc_inv_get _ He) as (c & -> & Hc & Hok); [by rewrite Hw|]. simpl.
  eexists. split; [done|]. destruct He. split; simpl; auto.
  apply Forall_app. split; [done|]. by apply Forall_singleton.
Qed.

Lemma encode_loop_app p q : ∀ e,
  encode_loop e (p ++ q) = (e' ← encode_loop e p; encode_loop e' q).
Proof.
  induction p as [|b p IH]; intros e; simpl; [done|].
  destruct (encode_step e b); simpl; [apply IH|done].
Qed.

(** *** Serialization of the codes *)

Lemma to_bytes2_ok c :
  code_ok c →
  to_bytes2 c = Ok [byte_of_Z (c / 256); byte_of_Z (c mod 256)].
Proof. intros H. unfold to_bytes2. by rewrite decide_True. Qed.

Lemma _from_bytes_pair c bs :
  code_ok c →
  _from_bytes (byte_of_Z (c / 256) :: byte_of_Z (c mod 256) :: bs)
  = c :: _from_bytes bs.
Proof.
  intros Hc. unfold code_ok in Hc. simpl. f_equal.
  rewrite !Z_of_byte_of_Z.
  - symmetry. rewrite Z.mul_comm. apply Z.div_mod. lia.
  - apply Z.mod_pos_bound. lia.
  - split; [apply Z.div_pos; lia|]. apply Z.div_lt_upper_bound; lia.
Qed.

Lemma _to_bytes_ok codes :
  Forall code_ok codes →
  ∃ bs, _to_bytes codes = Ok bs ∧
        Z.of_nat (length bs) = 2 * Z.of_nat (length codes) ∧
        _from_bytes bs = codes.
Proof.
  induction 1 as [|c codes Hc _ (bs & Hbs & Hlen & Hfrom)]; simpl.
  - by exists [].
  - rewrite to_bytes2_ok by done. simpl. rewrite Hbs. simpl.
    eexists. split; [done|]. split.
    + simpl. lia.
    + rewrite _from_bytes_pair by done. by rewrite Hfrom.
Qed.

(** *** The decompressor stays within the same bounds *)

Lemma decode_first_bounds c d : decode_first c = Ok d → code_bounds (dec_st d).
Proof.
  unfold decode_first.
  destruct (reverse_dictionary reset_dictionary !! c); intros [= <-].
  apply reset_dictionary_bounds.
Qed.

Lemma decode_step_bounds d c d' :
  decode_step d c = Ok d' → code_bounds (dec_st d) → code_bounds (dec_st d').
Proof.
  unfold decode_step.
  destruct (_get_entry (dec_st d) c (dec_string d)); simpl; intros [= <-] H.
  by apply add_to_dictionary_bounds.
Qed.

Lemma decode_loop_app p q : ∀ d,
  decode_loop d (p ++ q) = (d' ← decode_loop d p; decode_loop d' q).
Proof.
  induction p as [|c p IH]; intros d; simpl; [done|].
  destruct (decode_step d c); simpl; [apply IH|done].
Qed.

Lemma decode_loop_bounds codes : ∀ d d',
  decode_loop d codes = Ok d' → code_bounds (dec_st d) → code_bounds (dec_st d').
Proof.
  induction codes as [|c codes IH]; intros d d'; simpl.
  - by intros [= <-].
  - destruct (decode_step d c) as [d1|] eqn:E; simpl; [|done].
    intros H1 H2. eapply IH; [done|]. by eapply decode_step_bounds.
Qed.

(** *** The decompressor follows the compressor, one entry behind *)

Definition inverse_of (D : gmap bytes Z) (R : gmap Z bytes) : Prop :=
  ∀ k c, D !! k = Some c ↔ R !! c = Some k.

Lemma inverse_of_insert D R k c :
  inverse_of D R → D !! k = None → R !! c = None →
  inverse_of (<[k := c]> D) (<[c := k]> R).
Proof.
  intros HDR Hk Hc k' c'. rewrite !lookup_insert.
  repeat case_decide; subst.
  - naive_solver.
  - split; [intros [= <-]|intros HR].
    + done.
    + apply HDR in HR. congruence.
  - split; [intros HD|intros [= <-]].
    + apply HDR in HD. congruence.
    + done.
  - apply HDR.
Qed.

Lemma initial_inverse : inverse_of initial_dictionary initial_reverse_dictionary.
Proof.
  intros k c. rewrite initial_dictionary_lookup, initial_reverse_lookup. split.
  - intros (b & -> & ->). split; [apply Z_of_byte_range|].
    by rewrite byte_of_Z_of_byte.
  - intros (Hc & ->). exists (byte_of_Z c). by rewrite Z_of_byte_of_Z.
Qed.

(** The relation between the compressor, which has just emitted a code for
    the string before [enc_string] and recorded a new entry, and the
    decompressor, which has just resolved that code: the decompressor's
    table is the compressor's without its latest entry, until both are
    full. *)
Record sync (e : enc_state) (d : dec_state) : Prop := {
  sync_range : ∀ c k,
    reverse_dictionary (dec_st d) !! c = Some k → c < next_code (dec_st d);
  sync_string_ne : enc_string e ≠ [];
  sync_prev_ne : dec_string d ≠ [];
  sync_tables :
    (∃ D c0,
        next_code (dec_st d) < 65536 ∧
        next_code (enc_st e) = next_code (dec_st d) + 1 ∧
        dictionary (enc_st e) = <[dec_string d ++ [c0] := next_code (dec_st d)]> D ∧
        D !! (dec_string d ++ [c0]) = None ∧
        inverse_of D (reverse_dictionary (dec_st d)) ∧
        head (enc_string e) = Some c0)
    ∨ (65536 <= next_code (dec_st d) ∧
       65536 <= next_code (enc_st e) ∧
       inverse_of (dictionary (enc_st e)) (reverse_dictionary (dec_st d)));
}.

Lemma sync_resolve e d c :
  sync e d →
  dictionary (enc_st e) !! enc_string e = Some c →
  _get_entry (dec_st d) c (dec_string d) = Ok (enc_string e).
Proof.
  intros [Hrange Hw Hp Htab] Hc. unfold _get_entry.
  destruct Htab as [(D & c0 & Hlt & Hnext & HD & Hfresh & Hinv & Hhd)|(_ & _ & Hinv)].
  - rewrite HD in Hc. rewrite lookup_insert in Hc. case_decide as Heq.
    + injection Hc as <-.
      destruct (reverse_dictionary (dec_st d) !! next_code (dec_st d)) as [k|] eqn:E.
      { apply Hrange in E. lia. }
      rewrite decide_True by done. f_equal. rewrite <- Heq. f_equal.
      destruct (dec_string d) as [|x p]; [done|].
      rewrite <- Heq in Hhd. simpl in Hhd. by injection Hhd as ->.
    + apply Hinv in Hc. by rewrite Hc.
  - apply Hinv in Hc. by rewrite Hc.
Qed.

Lemma first1_head (w : bytes) c0 : head w = Some c0 → first1 w = [c0].
Proof. destruct w; [done|]. simpl. by intros [= ->]. Qed.

Lemma head_snoc (w : bytes) b : w ≠ [] → head (w ++ [b]) = head w.
Proof. by destruct w. Qed.

(** The compressor keeps extending its match: the relation is kept. *)
Lemma sync_extend e d b :
  sync e d →
  sync {| enc_st := enc_st e; enc_string := enc_string e ++ [b];
          enc_out := enc_out e |} d.
Proof.
  intros [Hrange Hw Hp Htab]. split; simpl; [done| |done|].
  - by destruct (enc_string e).
  - destruct Htab as [(D & c0 & ? & ? & ? & ? & ? & Hhd)|?]; [left|by right].
    exists D, c0. split_and!; try done. by rewrite head_snoc.
Qed.

(** The compressor emits the code of its match and restarts at [b]; the
    decompressor resolves the code to the same string. *)
Lemma sync_emit e d b c :
  sync e d →
  dictionary (enc_st e) !! (enc_string e ++ [b]) = None →
  dictionary (enc_st e) !! enc_string e = Some c →
  ∃ d', decode_step d c = Ok d' ∧
        dec_out d' = dec_out d ++ enc_string e ∧
        sync {| enc_st := add_to_dictionary (enc_st e)
                            (enc_string e ++ [b]) (enc_string e ++ [b]);
                enc_string := [b];
                enc_out := enc_out e ++ [c] |} d'.
Proof.
  intros Hs Hnot Hc. unfold decode_step.
  rewrite (sync_resolve _ _ _ Hs Hc). simpl.
  eexists. split; [done|]. split; [done|].
  destruct Hs as [Hrange Hw Hp Htab].
  destruct Htab as [(D & c0 & Hlt & Hnext & HD & Hfresh & Hinv & Hhd)|(Hd & He & Hinv)].
  - rewrite (first1_head _ _ Hhd).
    rewrite (add_to_dictionary_below (dec_st d)) by done.
    assert (reverse_dictionary (dec_st d) !! next_code (dec_st d) = None) as HRn.
    { destruct (reverse_dictionary (dec_st d) !! next_code (dec_st d)) eqn:E; [|done].
      apply Hrange in E. lia. }
    assert (inverse_of (dictionary (enc_st e))
              (<[next_code (dec_st d) := dec_string d ++ [c0]]>
                 (reverse_dictionary (dec_st d)))) as Hinv'.
    { rewrite HD. by apply inverse_of_insert. }
    split; simpl; [|done|done|].
    + intros c' k. rewrite lookup_insert. case_decide; [lia|].
      intros Hk%Hrange. lia.
    + destruct (decide (next_code (enc_st e) < 65536)).
      * left. exists (dictionary (enc_st e)), b.
        rewrite add_to_dictionary_below by done. simpl.
        rewrite Hnext. split_and!; try done; try lia.
      * right. rewrite add_to_dictionary_full by lia. split_and!; [lia..|done].
  - rewrite (add_to_dictionary_full (dec_st d)) by done.
    rewrite add_to_dictionary_full by done.
    split; simpl; [done..|]. right. done.
Qed.

Lemma sync_run data : ∀ e d,
  enc_inv e → sync e d →
  ∃ e' cs d',
    (e1 ← encode_loop e data; encode_finish e1) = Ok e' ∧
    enc_inv e' ∧
    enc_out e' = enc_out e ++ cs ∧
    decode_loop d cs = Ok d' ∧
    dec_out d' = dec_out d ++ enc_string e ++ data.
Proof.
  induction data as [|b rest IH]; intros e d He Hs.
  - pose proof (sync_string_ne _ _ Hs) as Hne.
    destruct (enc_inv_get _ He Hne) as (c & Hget & Hc & Hok).
    destruct (encode_finish_inv _ He) as (e' & Hfin & He').
    simpl. exists e', [c].
    assert (e' = {| enc_st := enc_st e; enc_string := enc_string e;
                    enc_out := enc_out e ++ [c] |}) as ->.
    { unfold encode_finish in Hfin. rewrite Hget in Hfin.
      destruct (enc_string e); [done|]. by injection Hfin. }
    assert (∃ d', decode_step d c = Ok d' ∧
                  dec_out d' = dec_out d ++ enc_string e) as (d' & Hd' & Hout).
    { unfold decode_step. rewrite (sync_resolve _ _ _ Hs Hc). simpl. eauto. }
    exists d'. split_and!; try done.
    + simpl. by rewrite Hd'.
    + by rewrite app_nil_r.
  - destruct (encode_step_inv e b He) as (e1 & Hstep & He1).
    simpl. rewrite Hstep. simpl.
    unfold encode_step in Hstep.
    destruct (decide (is_Some (dictionary (enc_st e) !! (enc_string e ++ [b]))))
      as [Hin|Hnot].
    + injection Hstep as <-.
      destruct (IH _ d He1 (sync_extend _ _ b Hs)) as (e' & cs & d' & ? & ? & ? & ? & Hout).
      exists e', cs, d'. split_and!; try done.
      rewrite Hout. simpl. by rewrite <- app_assoc.
    + apply eq_None_not_Some in Hnot.
      pose proof (sync_string_ne _ _ Hs) as Hne.
      destruct (enc_inv_get _ He Hne) as (c & Hget & Hc & Hok).
      rewrite Hget in Hstep. simpl in Hstep. injection Hstep as <-.
      destruct (sync_emit _ _ b c Hs Hnot Hc) as (d1 & Hd1 & Hout1 & Hs1).
      destruct (IH _ d1 He1 Hs1) as (e' & cs & d' & ? & ? & Hcs & Hdec & Hout).
      exists e', (c :: cs), d'. split_and!; try done.
      * rewrite Hcs. simpl. by rewrite <- app_assoc.
      * simpl. rewrite Hd1. done.
      * rewrite Hout, Hout1. simpl. by rewrite <- app_assoc.
Qed.

(** The state of the two sides after the first code. *)
Lemma decode_first_single b :
  decode_first (Z_of_byte b)
  = Ok {| dec_st := reset_dictionary; dec_string := [b]; dec_out := [b] |}.
Proof.
  unfold decode_first. simpl. by rewrite initial_reverse_single.
Qed.

Lemma encode_codes_nonempty b rest :
  ∃ e cs d,
    encode_codes (b :: rest) = Ok e ∧
    enc_inv e ∧
    enc_out e = Z_of_byte b :: cs ∧
    decode_codes (enc_out e) = Ok d ∧
    dec_out d = b :: rest.
Proof.
  unfold encode_codes. simpl.
  unfold encode_step at 1. simpl.
  rewrite decide_True by (rewrite initial_dictionary_single; eauto). simpl.
  set (e0 := {| enc_st := reset_dictionary; enc_string := [b]; enc_out := [] |}).
  assert (enc_inv e0) as He0.
  { destruct enc_init_inv. split; simpl; try done.
    right. rewrite initial_dictionary_single. eauto. }
  destruct rest as [|c rest].
  - simpl. unfold encode_finish, dict_get. simpl.
    rewrite initial_dictionary_single. simpl.
    eexists _, [], _. split; [done|]. split_and!.
    + destruct He0. split; simpl; try done.
      apply Forall_singleton. pose proof (Z_of_byte_range b).
      unfold code_ok. lia.
    + done.
    + simpl. rewrite decode_first_single. done.
    + done.
  - destruct (encode_step_inv e0 c He0) as (e1 & Hstep & He1).
    simpl. rewrite Hstep. simpl.
    unfold encode_step in Hstep. simpl in Hstep.
    assert (initial_dictionary !! [b; c] = None) as Hnot.
    { destruct (initial_dictionary !! [b; c]) as [x|] eqn:E; [|done].
      apply initial_dictionary_lookup in E as (? & ? & _). done. }
    rewrite decide_False in Hstep by (rewrite Hnot; by intros [? ?]).
    unfold dict_get in Hstep. simpl in Hstep.
    rewrite initial_dictionary_single in Hstep. simpl in Hstep.
    injection Hstep as <-.
    set (d0 := {| dec_st := reset_dictionary; dec_string := [b]; dec_out := [b] |}).
    match goal with
    | |- context [encode_loop ?e1 rest] =>
        assert (sync e1 d0) as Hs
    end.
    { split; simpl; [|done|done|].
      - intros c' k (Hc' & _)%initial_reverse_lookup. lia.
      - left. exists initial_dictionary, c.
        split_and!; try done. apply initial_inverse. }
    destruct (sync_run rest _ d0 He1 Hs) as (e' & cs & d' & Hrun & He' & Hcs & Hdec & Hout).
    rewrite Hrun. exists e', cs, d'. split_and!; try done.
    rewrite Hcs. simpl. rewrite decode_first_single. simpl. done.
Qed.

(** The dictionary codec alone: every non-empty input is encoded, and the
    encoding decodes to the input. *)
Lemma encode_decode_nonempty data :
  data ≠ [] → ∃ bs, encode data = Ok bs ∧ decode bs = Ok data.
Proof.
  destruct data as [|b rest]; [done|]. intros _.
  destruct (encode_codes_nonempty b rest) as (e & cs & d & Henc & He & Hcs & Hdec & Hout).
  destruct (_to_bytes_ok (enc_out e)) as (bs & Hbs & _ & Hfrom); [apply He|].
  exists bs. unfold encode, decode. rewrite Henc. simpl.
  split; [done|]. rewrite Hfrom, Hdec. simpl. by rewrite Hout.
Qed.

Lemma encode_empty : encode [] = Ok [].
Proof. reflexivity. Qed.

Lemma decode_empty : decode [] = Err ValueError.
Proof. reflexivity. Qed.

(** *** Parsing the codes *)

Lemma _from_bytes_app_even n : ∀ p q,
  length p = (2 * n)%nat → _from_bytes (p ++ q) = _from_bytes p ++ _from_bytes q.
Proof.
  induction n as [|n IH]; intros p q Hlen.
  - by destruct p.
  - destruct p as [|hi [|lo p]]; simpl in Hlen; try lia.
    simpl. f_equal. apply IH. lia.
Qed.

Lemma odd_length_split (data : bytes) :
  Nat.Odd (length data) →
  ∃ body last n, data = body ++ [last] ∧ length body = (2 * n)%nat.
Proof.
  intros [n Hn].
  destruct (decide (data = [])) as [->|Hne]; [simpl in Hn; lia|].
  destruct (exists_last Hne) as (body & last & ->).
  exists body, last, n. split; [done|]. rewrite length_app in Hn. simpl in Hn. lia.
Qed.

(** *** When the decompressor raises *)

Lemma decode_first_spec c :
  (0 <= c < 256 ∧
   decode_first c = Ok {| dec_st := reset_dictionary;
                          dec_string := [byte_of_Z c];
                          dec_out := [byte_of_Z c] |})
  ∨ (¬ (0 <= c < 256) ∧ decode_first c = Err KeyError).
Proof.
  unfold decode_first. simpl.
  destruct (decide (0 <= c < 256)) as [Hc|Hc].
  - left. split; [done|].
    by rewrite (proj2 (initial_reverse_lookup c [byte_of_Z c])).
  - right. split; [done|]. by rewrite initial_reverse_None.
Qed.

Lemma _get_entry_spec st c string :
  match _get_entry st c string with
  | Ok entry =>
      reverse_dictionary st !! c = Some entry
      ∨ (reverse_dictionary st !! c = None ∧ c = next_code st ∧
         entry = string ++ first1 string)
  | Err e =>
      e = ValueError ∧ reverse_dictionary st !! c = None ∧ c ≠ next_code st
  end.
Proof.
  unfold _get_entry. destruct (reverse_dictionary st !! c); [by left|].
  case_decide; [right|]; done.
Qed.

Lemma decode_step_Err d c e :
  decode_step d c = Err e ↔
  e = ValueError ∧ reverse_dictionary (dec_st d) !! c = None ∧ c ≠ next_code (dec_st d).
Proof.
  unfold decode_step.
  pose proof (_get_entry_spec (dec_st d) c (dec_string d)) as H.
  destruct (_get_entry (dec_st d) c (dec_string d)) as [entry|e']; simpl.
  - split; [done|]. intros (_ & Hnone & Hne). destruct H as [H|H]; [congruence|tauto].
  - destruct H as (-> & ? & ?). split; [by intros [= <-]|by intros (-> & _)].
Qed.

(** A first code outside the seeded table is looked up without a check and
    raises [KeyError], whatever follows it. *)
Lemma decode_first_code_unknown hi lo rest :
  256 <= Z_of_byte hi * 256 + Z_of_byte lo →
  decode (hi :: lo :: rest) = Err KeyError.
Proof.
  intros H. unfold decode. simpl.
  destruct (decode_first_spec (Z_of_byte hi * 256 + Z_of_byte lo)) as [[? _]|[_ ->]];
    [lia|done].
Qed.

(** A later code that is neither in the table nor the next one to assign
    raises [ValueError]. *)
Lemma decode_loop_bad_code d c rest :
  reverse_dictionary (dec_st d) !! c = None → c ≠ next_code (dec_st d) →
  decode_loop d (c :: rest) = Err ValueError.
Proof.
  intros H1 H2. simpl.
  by rewrite (proj2 (decode_step_Err d c ValueError)).
Qed.

End LZWFacts.

(** ** Properties of the archive handler *)

Module PyFacts.

Lemma rfind_from_spec c (s : str) : ∀ i last,
  ((c ∉ s) ∧ Py.rfind_from c s i last = last)
  ∨ (∃ pre post, s = pre ++ c :: post ∧ (c ∉ post) ∧
       Py.rfind_from c s i last = i + Z.of_nat (length pre)).
Proof.
  induction s as [|x rest IH]; intros i last; simpl.
  - left. split; [apply not_elem_of_nil|done].
  - destruct (IH (i + 1) (if decide (x = c) then i else last))
      as [[Hnot ->]|(pre & post & -> & Hpost & ->)].
    + case_decide as Hx.
      * subst x. right. exists [], rest. simpl. split_and!; [done..|lia].
      * left. split; [|done]. rewrite not_elem_of_cons. split; [congruence|done].
    + right. exists (x :: pre), post. simpl. split_and!; [done..|lia].
Qed.

Lemma rfind_spec c (s : str) :
  ((c ∉ s) ∧ Py.rfind c s = -1)
  ∨ (∃ pre post, s = pre ++ c :: post ∧ (c ∉ post) ∧
       Py.rfind c s = Z.of_nat (length pre)).
Proof.
  unfold Py.rfind. destruct (rfind_from_spec c s 0 (-1)) as [?|(pre & post & ? & ? & ->)].
  - by left.
  - right. by exists pre, post.
Qed.

Lemma slice_cat {A} k (s : list A) : Py.slice_to k s ++ Py.slice_from k s = s.
Proof. apply take_drop. Qed.

Lemma slice_from_after {A} (pre : list A) x post :
  Py.slice_from (Z.of_nat (length pre) + 1) (pre ++ x :: post) = post.
Proof.
  unfold Py.slice_from, Py.slice_index.
  destruct (Z.leb_spec 0 (Z.of_nat (length pre) + 1)); [|lia].
  replace (Z.to_nat (Z.of_nat (length pre) + 1)) with (length pre + 1)%nat by lia.
  rewrite <- drop_drop, drop_app_length. done.
Qed.

(** The base name is what follows the last separator. *)
Lemma basename_spec (p : str) :
  ((Py.sep ∉ p) ∧ Py.basename p = p)
  ∨ (∃ dir last, p = dir ++ Py.sep :: last ∧ (Py.sep ∉ last) ∧ Py.basename p = last).
Proof.
  unfold Py.basename.
  destruct (rfind_spec Py.sep p) as [[Hnot ->]|(pre & post & -> & Hpost & ->)].
  - left. done.
  - right. exists pre, post. split_and!; [done..|]. apply slice_from_after.
Qed.

Lemma basename_no_sep (p : str) : Py.sep ∉ Py.basename p.
Proof.
  destruct (basename_spec p) as [[? ->]|(? & ? & _ & ? & ->)]; done.
Qed.

Lemma basename_after_last_sep (dir last : str) :
  Py.sep ∉ last → Py.basename (dir ++ Py.sep :: last) = last.
Proof.
  intros Hlast.
  destruct (basename_spec (dir ++ Py.sep :: last))
    as [[Hnot _]|(dir' & last' & Heq & Hlast' & ->)].
  - destruct Hnot. set_solver.
  - (* both decompositions cut at the last separator *)
    revert dir' Heq. induction dir as [|x dir IH]; intros dir' Heq.
    + destruct dir' as [|y dir']; simpl in Heq.
      * by injection Heq.
      * injection Heq as <- ->. destruct Hlast. set_solver.
    + destruct dir' as [|y dir']; simpl in Heq.
      * injection Heq as -> <-. destruct Hlast'. set_solver.
      * injection Heq as <- Heq. by apply (IH dir').
Qed.

Lemma basename_length (p : str) : (length (Py.basename p) <= length p)%nat.
Proof.
  destruct (basename_spec p) as [[_ ->]|(dir & last & -> & _ & ->)]; [done|].
  rewrite length_app. simpl. lia.
Qed.

Lemma splitext_cat (p : str) : (Py.splitext p).1 ++ (Py.splitext p).2 = p.
Proof.
  unfold Py.splitext. destruct (_ && _); simpl.
  - apply slice_cat.
  - apply app_nil_r.
Qed.

Lemma utf8_decode_length_aux n : ∀ bs s,
  (length bs <= n)%nat → Py.utf8_decode bs = Ok s → (length s <= length bs)%nat.
Proof.
  induction n as [|n IH]; intros bs s Hn.
  - destruct bs; [|simpl in Hn; lia]. by intros [= <-].
  - destruct bs as [|b0 r0]; [by intros [= <-]|].
    simpl in Hn. simpl.
    repeat case_match; try discriminate;
    match goal with
    | |- context [Py.utf8_decode ?r] =>
        destruct (Py.utf8_decode r) as [s1|] eqn:E; simpl; [|discriminate];
        apply IH in E; [|subst; simpl in *; lia];
        intros [= <-]; subst; simpl in *; lia
    end.
Qed.

Lemma utf8_decode_length bs s :
  Py.utf8_decode bs = Ok s → (length s <= length bs)%nat.
Proof. by apply (utf8_decode_length_aux (length bs)). Qed.

Lemma before_nul_length bs : (length (Py.before_nul bs) <= length bs)%nat.
Proof.
  induction bs as [|b bs IH]; simpl; [done|]. case_decide; simpl; lia.
Qed.

End PyFacts.

Module RCHFacts.
Import RCH.

Lemma xor255_byte_involutive b :
  byte_of_Z (Z.lxor (Z_of_byte (byte_of_Z (Z.lxor (Z_of_byte b) 255))) 255) = b.
Proof. destruct b; vm_compute; reflexivity. Qed.

Lemma xor255_involutive data : xor255 (xor255 data) = data.
Proof.
  unfold xor255. induction data as [|b data IH]; simpl; [done|].
  by rewrite xor255_byte_involutive, IH.
Qed.

Lemma xor255_nil_iff data : xor255 data = [] ↔ data = [].
Proof. unfold xor255. by destruct data. Qed.

Section Dispatch.

Variable bz2_compress : Z → bytes → bytes.
Variable bz2_decompress : bytes → option bytes.

(** What is asked of the external compressor: at a valid level, what it
    writes decompresses to what it was given. *)
Hypothesis bz2_roundtrip : ∀ level data,
  1 <= level <= 9 → bz2_decompress (bz2_compress level data) = Some data.

Lemma roundtrip_bzip2 self data :
  encoding_algorithm self = ENCODING_BZIP2 →
  1 <= compression_level self <= 9 →
  ∃ encoded, encode_file_data bz2_compress self data = Ok encoded ∧
             decode_data bz2_decompress encoded ENCODING_BZIP2 = Ok data.
Proof.
  intros Halg Hlevel. unfold encode_file_data, decode_data.
  rewrite !decide_True by done.
  eexists. split; [done|]. by rewrite bz2_roundtrip.
Qed.

Lemma roundtrip_xor255 self data :
  encoding_algorithm self = ENCODING_XOR255 →
  ∃ encoded, encode_file_data bz2_compress self data = Ok encoded ∧
             decode_data bz2_decompress encoded ENCODING_XOR255 = Ok data.
Proof.
  intros Halg. unfold encode_file_data, decode_data. rewrite Halg.
  eexists. split; [reflexivity|]. simpl. by rewrite xor255_involutive.
Qed.

Lemma roundtrip_xor255_lzw self data :
  encoding_algorithm self = ENCODING_XOR255_LZW →
  data ≠ [] →
  ∃ encoded, encode_file_data bz2_compress self data = Ok encoded ∧
             decode_data bz2_decompress encoded ENCODING_XOR255_LZW = Ok data.
Proof.
  intros Halg Hne. unfold encode_file_data, decode_data. rewrite Halg. simpl.
  destruct (LZWFacts.encode_decode_nonempty (xor255 data)) as (bs & -> & Hdec).
  { by rewrite xor255_nil_iff. }
  exists bs. split; [done|]. by rewrite Hdec, xor255_involutive.
Qed.

Lemma roundtrip_xor255_lzw_empty self :
  encoding_algorithm self = ENCODING_XOR255_LZW →
  encode_file_data bz2_compress self [] = Ok [] ∧
  decode_data bz2_decompress [] ENCODING_XOR255_LZW = Err ValueError.
Proof.
  intros Halg. unfold encode_file_data, decode_data. rewrite Halg. done.
Qed.

End Dispatch.

(** *** Sanitizing a stored name *)

Lemma sanitize_short filename :
  (length (Py.basename filename) <= 255)%nat →
  _sanitize_filename filename = Py.basename filename.
Proof.
  intros H. unfold _sanitize_filename. rewrite Z.gtb_ltb.
  by destruct (Z.ltb_spec 255 (Z.of_nat (length (Py.basename filename)))); [lia|].
Qed.

Lemma sanitize_long filename :
  (255 < length (Py.basename filename))%nat →
  _sanitize_filename filename
  = Py.slice_to (255 - Z.of_nat (length (Py.splitext (Py.basename filename)).2))
      (Py.splitext (Py.basename filename)).1
    ++ (Py.splitext (Py.basename filename)).2.
Proof.
  intros H. unfold _sanitize_filename. rewrite Z.gtb_ltb.
  destruct (Z.ltb_spec 255 (Z.of_nat (length (Py.basename filename)))); [|lia].
  by destruct (Py.splitext (Py.basename filename)).
Qed.

Lemma sanitize_no_sep filename : Py.sep ∉ _sanitize_filename filename.
Proof.
  pose proof (PyFacts.basename_no_sep filename) as Hbase.
  destruct (decide (length (Py.basename filename) <= 255)%nat).
  - by rewrite sanitize_short.
  - rewrite sanitize_long by lia.
    rewrite <- (PyFacts.splitext_cat (Py.basename filename)) in Hbase.
    rewrite not_elem_of_app in Hbase |- *. destruct Hbase as [Hroot Hext].
    split; [|done]. intros Hin. apply Hroot.
    unfold Py.slice_to in Hin. by apply elem_of_take in Hin as (? & ?%list_elem_of_lookup_2 & _).
Qed.

Lemma sanitize_length filename :
  (length (Py.splitext (Py.basename filename)).2 <= 255)%nat →
  (length (_sanitize_filename filename) <= 255)%nat.
Proof.
  intros Hext.
  destruct (decide (length (Py.basename filename) <= 255)%nat).
  - by rewrite sanitize_short.
  - rewrite sanitize_long by lia. rewrite length_app.
    unfold Py.slice_to, Py.slice_index.
    destruct (Z.leb_spec 0 (255 - Z.of_nat (length (Py.splitext (Py.basename filename)).2)));
      [|lia].
    rewrite length_take. lia.
Qed.

Lemma sanitize_long_length filename :
  (255 < length (Py.basename filename))%nat →
  (length (Py.splitext (Py.basename filename)).2 <= 255)%nat →
  length (_sanitize_filename filename) = 255%nat.
Proof.
  intros Hlong Hext. rewrite sanitize_long by done. rewrite length_app.
  unfold Py.slice_to, Py.slice_index.
  destruct (Z.leb_spec 0 (255 - Z.of_nat (length (Py.splitext (Py.basename filename)).2)));
    [|lia].
  rewrite length_take.
  pose proof (f_equal length (PyFacts.splitext_cat (Py.basename filename))) as Hcat.
  rewrite length_app in Hcat. lia.
Qed.

(** *** Framing *)

Lemma read_app (a rest : bytes) :
  Py.read (Z.of_nat (length a)) (a ++ rest) = (a, rest).
Proof.
  unfold Py.read. rewrite Nat2Z.id.
  by rewrite take_app_length, drop_app_length.
Qed.

Lemma read_cat n (stream : bytes) :
  fst (Py.read n stream) ++ snd (Py.read n stream) = stream.
Proof. apply take_drop. Qed.

Lemma read_length n (stream : bytes) :
  0 <= n →
  Z.of_nat (length (fst (Py.read n stream))) = Z.min n (Z.of_nat (length stream)).
Proof. intros Hn. simpl. rewrite length_take. lia. Qed.

Lemma unpack_5u32_length raw t : Py.unpack_5u32 raw = Ok t → length raw = 20%nat.
Proof.
  unfold Py.unpack_5u32.
  do 21 (destruct raw as [|? raw]; try discriminate). done.
Qed.

Lemma unpack_u32_range b0 b1 b2 b3 : 0 <= Py.unpack_u32 b0 b1 b2 b3 < 4294967296.
Proof.
  unfold Py.unpack_u32.
  pose proof (Z_of_byte_range b0). pose proof (Z_of_byte_range b1).
  pose proof (Z_of_byte_range b2). pose proof (Z_of_byte_range b3). lia.
Qed.

Lemma unpack_5u32_range raw a b c d e :
  Py.unpack_5u32 raw = Ok (a, b, c, d, e) →
  0 <= a < 4294967296 ∧ 0 <= b < 4294967296 ∧ 0 <= c < 4294967296 ∧
  0 <= d < 4294967296 ∧ 0 <= e < 4294967296.
Proof.
  unfold Py.unpack_5u32.
  do 21 (destruct raw as [|? raw]; try discriminate).
  intros [= <- <- <- <- <-]. split_and!; apply unpack_u32_range.
Qed.

(** A block header is read only from the magic, forty bytes of name and
    twenty bytes of fields, all present. *)
Lemma read_file_block_header_Ok stream name fsize crc algo ts rest :
  read_file_block_header stream = Ok (name, fsize, crc, algo, ts, rest) →
  ∃ field raw h0,
    stream = BLOCK_MAGIC ++ field ++ raw ++ rest ∧
    length field = 40%nat ∧
    Py.utf8_decode (Py.before_nul field) = Ok name ∧
    Py.unpack_5u32 raw = Ok (h0, ts, fsize, crc, algo).
Proof.
  unfold read_file_block_header, Py.read.
  case_decide as Hmagic; [|done].
  destruct (Py.utf8_decode _) as [name'|] eqn:Hname; [|done]. simpl.
  destruct (Py.unpack_5u32 _) as [[[[[h0 h1] h2] h3] h4]|] eqn:Hraw; [|done].
  simpl. intros [= <- <- <- <- <- <-].
  pose proof (unpack_5u32_length _ _ Hraw) as Hlen.
  set (s2 := drop (Z.to_nat 2) stream) in *.
  exists (take (Z.to_nat 40) s2), (take (Z.to_nat (4 * 5)) (drop (Z.to_nat 40) s2)), h0.
  split_and!; try done.
  - rewrite !take_drop. change (stream = BLOCK_MAGIC ++ s2).
    rewrite <- Hmagic. subst s2. by rewrite take_drop.
  - rewrite length_take in Hlen |- *. rewrite length_drop in Hlen. lia.
Qed.

Lemma read_file_block_header_shorter stream name fsize crc algo ts rest :
  read_file_block_header stream = Ok (name, fsize, crc, algo, ts, rest) →
  length stream = (62 + length rest)%nat ∧ 0 <= fsize.
Proof.
  intros (field & raw & h0 & -> & Hfield & _ & Hraw)%read_file_block_header_Ok.
  pose proof (unpack_5u32_range _ _ _ _ _ _ Hraw).
  apply unpack_5u32_length in Hraw. rewrite !length_app, Hfield, Hraw.
  split; [done|lia].
Qed.

(** The header of what [write_block_to_file] wrote for a name of at most
    forty bytes reads back. *)
Lemma read_app_nat (n : nat) (a rest : bytes) :
  length a = n → Py.read (Z.of_nat n) (a ++ rest) = (a, rest).
Proof. intros <-. apply read_app. Qed.

Lemma ljust_length width (bs : bytes) :
  length (Py.ljust width bs) = Nat.max width (length bs).
Proof. unfold Py.ljust. rewrite length_app, length_replicate. lia. Qed.

(** The name of a block that was read has at most forty characters. *)
Lemma stored_name_length stream name fsize crc algo ts rest :
  read_file_block_header stream = Ok (name, fsize, crc, algo, ts, rest) →
  (length name <= 40)%nat.
Proof.
  intros (field & raw & h0 & _ & Hfield & Hname & _)%read_file_block_header_Ok.
  apply PyFacts.utf8_decode_length in Hname.
  pose proof (PyFacts.before_nul_length field). lia.
Qed.

(** *** The scans end *)

Section Scans.

Variable bz2_decompress : bytes → option bytes.

Lemma decode_data_Err file_data algo e :
  decode_data bz2_decompress file_data algo = Err e → e = ValueError.
Proof.
  unfold decode_data. repeat case_decide; try by intros [= <-].
  - destruct (bz2_decompress file_data); by intros [= <-].
  - destruct (LZW.decode file_data); by intros [= <-].
Qed.

Lemma check_crc_spec data crc32_stored :
  (crc32_stored = Z.land (Py.crc32 data) 0xFFFFFFFF ∧
   check_crc data crc32_stored = Ok true)
  ∨ (crc32_stored ≠ Z.land (Py.crc32 data) 0xFFFFFFFF ∧
     check_crc data crc32_stored = Err ValueError).
Proof.
  unfold check_crc. case_bool_decide as H; simpl; [left|right]; done.
Qed.

Lemma _process_file_data_Err file_data algo crc e :
  _process_file_data bz2_decompress file_data algo crc = Err e → e = ValueError.
Proof.
  unfold _process_file_data.
  destruct (decode_data bz2_decompress file_data algo) as [out|e'] eqn:Hd; simpl.
  - match goal with |- context [check_crc ?d ?c] =>
      destruct (check_crc_spec d c) as [[_ ->]|[_ ->]] end; simpl; [done|].
    by intros [= <-].
  - apply decode_data_Err in Hd as ->. by intros [= <-].
Qed.

Lemma _verify_crc_Err file_data algo crc e :
  _verify_crc bz2_decompress file_data algo crc = Err e → e = ValueError.
Proof.
  unfold _verify_crc. case_decide.
  - destruct (decode_data bz2_decompress file_data algo) as [out|e'] eqn:Hd; simpl.
    + destruct (check_crc_spec out crc) as [[_ ->]|[_ ->]]; [done|]. by intros [= <-].
    + apply decode_data_Err in Hd as ->. by intros [= <-].
  - destruct (check_crc_spec file_data crc) as [[_ ->]|[_ ->]]; [done|]. by intros [= <-].
Qed.

Lemma unpack_loop_total fuel : ∀ self output_directory filenames rch_file w results,
  (length rch_file < fuel)%nat →
  is_Some (unpack_loop bz2_decompress fuel self output_directory filenames
             rch_file w results).
Proof.
  induction fuel as [|fuel IH]; intros self dir names s w results Hfuel; [lia|].
  simpl.
  destruct (read_file_block_header s)
    as [[[[[[name fsize] crc] algo] ts] rest]|e] eqn:Hhdr.
  - apply read_file_block_header_shorter in Hhdr as [Hhdr Hfsize].
    assert (length (drop (Z.to_nat fsize) rest) < fuel)%nat as Hlt
      by (rewrite length_drop; lia).
    unfold Py.read.
    destruct (selected names name); [|by apply IH].
    destruct (_process_file_data _ _ _ _) as [[out valid]|e] eqn:Hp.
    + destruct (negb valid && negb (force self)); by apply IH.
    + destruct (is_ValueError e); [by apply IH|eauto].
  - destruct (is_ValueError e); eauto.
Qed.

Lemma check_loop_total fuel : ∀ rch_file results,
  (length rch_file < fuel)%nat →
  is_Some (check_loop bz2_decompress fuel rch_file results).
Proof.
  induction fuel as [|fuel IH]; intros s results Hfuel; [lia|].
  simpl.
  destruct (read_file_block_header s)
    as [[[[[[name fsize] crc] algo] ts] rest]|e] eqn:Hhdr.
  - apply read_file_block_header_shorter in Hhdr as [Hhdr Hfsize].
    assert (length (drop (Z.to_nat fsize) rest) < fuel)%nat as Hlt
      by (rewrite length_drop; lia).
    unfold Py.read.
    destruct (_verify_crc _ _ _ _) as [valid|e] eqn:Hp.
    + by apply IH.
    + destruct (is_ValueError e); [by apply IH|eauto].
  - destruct (is_ValueError e); eauto.
Qed.

(** *** One block of a scan *)

Definition crc_basis (encoding_algo : Z) (output_data file_data : bytes) : bytes :=
  if decide (encoding_algo = ENCODING_BZIP2) then output_data else file_data.

Lemma _process_file_data_spec file_data algo crc :
  match decode_data bz2_decompress file_data algo with
  | Ok output_data =>
      if decide (crc = Z.land (Py.crc32 (crc_basis algo output_data file_data)) 0xFFFFFFFF)
      then _process_file_data bz2_decompress file_data algo crc = Ok (output_data, true)
      else _process_file_data bz2_decompress file_data algo crc = Err ValueError
  | Err _ => _process_file_data bz2_decompress file_data algo crc = Err ValueError
  end.
Proof.
  unfold _process_file_data, crc_basis.
  destruct (decode_data bz2_decompress file_data algo) as [out|e] eqn:Hd; simpl.
  - match goal with |- context [check_crc ?d ?c] =>
      destruct (check_crc_spec d c) as [[Heq ->]|[Hne ->]] end; simpl.
    + by rewrite decide_True.
    + by rewrite decide_False.
  - by apply decode_data_Err in Hd as ->.
Qed.

Lemma _verify_crc_spec file_data algo crc :
  _verify_crc bz2_decompress file_data algo crc =
  if decide (algo = ENCODING_BZIP2) then
    match decode_data bz2_decompress file_data algo with
    | Ok output_data =>
        if decide (crc = Z.land (Py.crc32 output_data) 0xFFFFFFFF)
        then Ok true else Err ValueError
    | Err _ => Err ValueError
    end
  else if decide (crc = Z.land (Py.crc32 file_data) 0xFFFFFFFF)
       then Ok true else Err ValueError.
Proof.
  unfold _verify_crc. case_decide.
  - destruct (decode_data bz2_decompress file_data algo) as [out|e] eqn:Hd; simpl.
    + destruct (check_crc_spec out crc) as [[Heq ->]|[Hne ->]].
      * by rewrite decide_True.
      * by rewrite decide_False.
    + by apply decode_data_Err in Hd as ->.
  - destruct (check_crc_spec file_data crc) as [[Heq ->]|[Hne ->]].
    + by rewrite decide_True.
    + by rewrite decide_False.
Qed.

(** A block whose checksum does not match is reported as failed and nothing
    is written for it, whatever [force] is: [check_crc] has raised before
    [force] is looked at. *)
Lemma unpack_loop_crc_mismatch fuel self output_directory filenames stream w results
    name fsize crc algo ts rest output_data :
  read_file_block_header stream = Ok (name, fsize, crc, algo, ts, rest) →
  selected filenames name = true →
  decode_data bz2_decompress (take (Z.to_nat fsize) rest) algo = Ok output_data →
  crc ≠ Z.land (Py.crc32 (crc_basis algo output_data (take (Z.to_nat fsize) rest)))
          0xFFFFFFFF →
  unpack_loop bz2_decompress (S fuel) self output_directory filenames stream w results
  = unpack_loop bz2_decompress fuel self output_directory filenames
      (drop (Z.to_nat fsize) rest) w
      (results ++ [_create_result_entry (_sanitize_filename name) fsize crc algo
                     false ts Failed]).
Proof.
  intros Hhdr Hsel Hdec Hcrc. cbn [unpack_loop]. rewrite Hhdr. unfold Py.read.
  rewrite Hsel.
  pose proof (_process_file_data_spec (take (Z.to_nat fsize) rest) algo crc) as Hp.
  rewrite Hdec in Hp. rewrite decide_False in Hp by done. by rewrite Hp.
Qed.

(** A block whose checksum matches is written and reported as unpacked. *)
Lemma unpack_loop_crc_match fuel self output_directory filenames stream w results
    name fsize crc algo ts rest output_data :
  read_file_block_header stream = Ok (name, fsize, crc, algo, ts, rest) →
  selected filenames name = true →
  decode_data bz2_decompress (take (Z.to_nat fsize) rest) algo = Ok output_data →
  crc = Z.land (Py.crc32 (crc_basis algo output_data (take (Z.to_nat fsize) rest)))
          0xFFFFFFFF →
  unpack_loop bz2_decompress (S fuel) self output_directory filenames stream w results
  = unpack_loop bz2_decompress fuel self output_directory filenames
      (drop (Z.to_nat fsize) rest)
      (_write_output output_directory (_sanitize_filename name) output_data w)
      (results ++ [_create_result_entry (_sanitize_filename name) fsize crc algo
                     true ts Unpacked]).
Proof.
  intros Hhdr Hsel Hdec Hcrc. cbn [unpack_loop]. rewrite Hhdr. unfold Py.read.
  rewrite Hsel.
  pose proof (_process_file_data_spec (take (Z.to_nat fsize) rest) algo crc) as Hp.
  rewrite Hdec in Hp. rewrite decide_True in Hp by done. by rewrite Hp.
Qed.

(** One selected block of [unpack_rch], whatever its payload. *)
Lemma unpack_loop_step fuel self output_directory filenames stream w results
    name fsize crc algo ts rest :
  read_file_block_header stream = Ok (name, fsize, crc, algo, ts, rest) →
  selected filenames name = true →
  unpack_loop bz2_decompress (S fuel) self output_directory filenames stream w results
  = let payload := take (Z.to_nat fsize) rest in
    let failed := _create_result_entry (_sanitize_filename name) fsize crc algo
                    false ts Failed in
    let next := unpack_loop bz2_decompress fuel self output_directory filenames
                  (drop (Z.to_nat fsize) rest) in
    match decode_data bz2_decompress payload algo with
    | Ok output_data =>
        if decide (crc = Z.land (Py.crc32 (crc_basis algo output_data payload)) 0xFFFFFFFF)
        then next (_write_output output_directory (_sanitize_filename name) output_data w)
               (results ++ [_create_result_entry (_sanitize_filename name) fsize crc
                              algo true ts Unpacked])
        else next w (results ++ [failed])
    | Err _ => next w (results ++ [failed])
    end.
Proof.
  intros Hhdr Hsel. cbn zeta.
  destruct (decode_data bz2_decompress (take (Z.to_nat fsize) rest) algo)
    as [out|err] eqn:Hdec.
  - case_decide as Hcrc.
    + by apply unpack_loop_crc_match.
    + by eapply unpack_loop_crc_mismatch.
  - cbn [unpack_loop]. rewrite Hhdr. unfold Py.read. rewrite Hsel.
    pose proof (_process_file_data_spec (take (Z.to_nat fsize) rest) algo crc) as Hp.
    rewrite Hdec in Hp. by rewrite Hp.
Qed.

(** The verdict [check_rch] records for a payload. *)
Definition crc_verdict (file_data : bytes) (algo crc : Z) : bool :=
  match _verify_crc bz2_decompress file_data algo crc with
  | Ok crc_valid => crc_valid
  | Err _ => false
  end.

Lemma check_loop_step fuel stream results name fsize crc algo ts rest :
  read_file_block_header stream = Ok (name, fsize, crc, algo, ts, rest) →
  check_loop bz2_decompress (S fuel) stream results
  = check_loop bz2_decompress fuel (drop (Z.to_nat fsize) rest)
      (results ++ [_create_result_entry (_sanitize_filename name) fsize crc algo
                     (crc_verdict (take (Z.to_nat fsize) rest) algo crc) ts Checked]).
Proof.
  intros Hhdr. cbn [check_loop]. rewrite Hhdr. unfold Py.read, crc_verdict.
  destruct (_verify_crc _ _ _ _) as [v|e] eqn:Hv; [done|].
  by apply _verify_crc_Err in Hv as ->.
Qed.

Lemma detract_loop_step fuel file_to_remove stream temp_file file_removed
    name fsize crc algo ts rest :
  read_file_block_header stream = Ok (name, fsize, crc, algo, ts, rest) →
  detract_loop (S fuel) file_to_remove stream temp_file file_removed
  = if decide (name ≠ file_to_remove) then
      detract_loop fuel file_to_remove
        (drop (Z.to_nat (2 + 40 + 4 * 5 + fsize)) stream)
        (temp_file ++ take (Z.to_nat (2 + 40 + 4 * 5 + fsize)) stream) file_removed
    else detract_loop fuel file_to_remove (drop (Z.to_nat fsize) rest) temp_file true.
Proof. intros Hhdr. cbn [detract_loop]. by rewrite Hhdr. Qed.

(** The scans end within the fuel they are given. *)
Lemma unpack_rch_total self w rch_filename output_directory filenames :
  is_Some (unpack_rch bz2_decompress self w rch_filename output_directory filenames).
Proof.
  unfold unpack_rch. destruct (_ ≫= _) as [rch_file|e]; [|eauto].
  apply unpack_loop_total. lia.
Qed.

Lemma check_rch_total w rch_filename :
  is_Some (check_rch bz2_decompress w rch_filename).
Proof.
  unfold check_rch. destruct (_ ≫= _) as [rch_file|e]; [|eauto].
  apply check_loop_total. lia.
Qed.

End Scans.

(** *** Blocks and archives as byte strings *)

Lemma pack_u32_Ok z :
  0 <= z < 4294967296 →
  ∃ b0 b1 b2 b3, Py.pack_u32 z = Ok [b0; b1; b2; b3] ∧ Py.unpack_u32 b0 b1 b2 b3 = z.
Proof.
  intros Hz. unfold Py.pack_u32. rewrite decide_True by done.
  do 4 eexists. split; [done|]. unfold Py.unpack_u32.
  rewrite !Z_of_byte_of_Z.
  - Z.to_euclidean_division_equations. lia.
  - Z.to_euclidean_division_equations. lia.
  - apply Z.mod_pos_bound. lia.
  - apply Z.mod_pos_bound. lia.
  - apply Z.mod_pos_bound. lia.
Qed.

Lemma pack_5u32_Ok a b c d e fields :
  Py.pack_5u32 a b c d e = Ok fields →
  Py.unpack_5u32 fields = Ok (a, b, c, d, e) ∧
  0 <= c < 4294967296.
Proof.
  unfold Py.pack_5u32.
  assert (∀ z bs, Py.pack_u32 z = Ok bs → 0 <= z < 4294967296) as Hrange.
  { intros z bs. unfold Py.pack_u32. by case_decide. }
  destruct (Py.pack_u32 a) as [ba|] eqn:Ha; [|done].
  destruct (Py.pack_u32 b) as [bb|] eqn:Hb; [|done].
  destruct (Py.pack_u32 c) as [bc|] eqn:Hc; [|done].
  destruct (Py.pack_u32 d) as [bd|] eqn:Hd; [|done].
  destruct (Py.pack_u32 e) as [be|] eqn:He; [|done].
  simpl. intros [= <-].
  destruct (pack_u32_Ok a (Hrange _ _ Ha)) as (? & ? & ? & ? & Ha' & <-).
  destruct (pack_u32_Ok b (Hrange _ _ Hb)) as (? & ? & ? & ? & Hb' & <-).
  destruct (pack_u32_Ok c (Hrange _ _ Hc)) as (? & ? & ? & ? & Hc' & Hceq).
  destruct (pack_u32_Ok d (Hrange _ _ Hd)) as (? & ? & ? & ? & Hd' & <-).
  destruct (pack_u32_Ok e (Hrange _ _ He)) as (? & ? & ? & ? & He' & <-).
  split; [|by apply (Hrange _ _ Hc)].
  rewrite Ha in Ha'. rewrite Hb in Hb'. rewrite Hc in Hc'.
  rewrite Hd in Hd'. rewrite He in He'. by simplify_eq.
Qed.

(** [is_block name bs]: [bs] is one block, of a name field that reads as
    [name], five packed fields of which the third is the length of the
    payload, and the payload. *)
Definition is_block (name : str) (bs : bytes) : Prop :=
  ∃ field fields payload version reserved crc algo,
    bs = BLOCK_MAGIC ++ field ++ fields ++ payload ∧
    length field = 40%nat ∧
    Py.utf8_decode (Py.before_nul field) = Ok name ∧
    Py.pack_5u32 version reserved (Z.of_nat (length payload)) crc algo = Ok fields.

Lemma is_block_read name bs rest :
  is_block name bs →
  ∃ fsize crc algo ts payload,
    read_file_block_header (bs ++ rest) = Ok (name, fsize, crc, algo, ts, payload ++ rest) ∧
    fsize = Z.of_nat (length payload) ∧
    Py.read (2 + 40 + 4 * 5 + fsize) (bs ++ rest) = (bs, rest).
Proof.
  intros (field & fields & payload & version & reserved & crc & algo
          & -> & Hfield & Hname & Hpack).
  apply pack_5u32_Ok in Hpack as [Hunpack Hlen].
  pose proof (unpack_5u32_length _ _ Hunpack) as Hfields.
  exists (Z.of_nat (length payload)), crc, algo, reserved, payload.
  split_and!; [|done|].
  - unfold read_file_block_header.
    rewrite <- !app_assoc.
    rewrite (read_app_nat 2 BLOCK_MAGIC) by done.
    rewrite decide_True by done.
    rewrite (read_app_nat 40 field) by done.
    rewrite Hname. simpl. change (Z.to_nat 20) with 20%nat.
    rewrite take_app_length', drop_app_length' by done.
    rewrite Hunpack. done.
  - replace (2 + 40 + 4 * 5 + Z.of_nat (length payload))
      with (Z.of_nat (length (BLOCK_MAGIC ++ field ++ fields ++ payload))).
    + apply read_app.
    + rewrite !length_app, Hfield, Hfields. simpl. lia.
Qed.

(** The bytes of an archive: a header and blocks, each with its name. *)
Definition archive_bytes (header : bytes) (blocks : list (str * bytes)) : bytes :=
  header ++ concat (map snd blocks).

Definition keep (file_to_remove : str) (blocks : list (str * bytes))
  : list (str * bytes) :=
  filter (fun nb => nb.1 ≠ file_to_remove) blocks.

Lemma detract_loop_blocks file_to_remove blocks : ∀ fuel temp_file file_removed,
  Forall (fun nb => is_block nb.1 nb.2) blocks →
  (length blocks < fuel)%nat →
  detract_loop fuel file_to_remove (concat (map snd blocks)) temp_file file_removed
  = Some (temp_file ++ concat (map snd (keep file_to_remove blocks)),
          Ok (file_removed || bool_decide (file_to_remove ∈ map fst blocks))).
Proof.
  induction blocks as [|[name bs] blocks IH]; intros fuel temp removed Hall Hfuel.
  - destruct fuel; [simpl in Hfuel; lia|]. simpl.
    by rewrite app_nil_r, orb_false_r.
  - destruct fuel; [simpl in Hfuel; lia|].
    apply Forall_cons in Hall as [Hblock Hall]. simpl in Hblock.
    destruct (is_block_read name bs (concat (map snd blocks)) Hblock)
      as (fsize & crc & algo & ts & payload & Hhdr & -> & Hread).
    cbn [map snd concat detract_loop]. rewrite Hhdr.
    rewrite read_app. unfold keep. rewrite filter_cons.
    change ((name, bs).1) with name.
    destruct (decide (name ≠ file_to_remove)) as [Hname|Hname].
    + rewrite Hread. cbn [map snd concat].
      rewrite IH by (done || simpl in Hfuel; lia).
      rewrite <- app_assoc. do 4 f_equal. apply bool_decide_ext.
      rewrite elem_of_cons. split; [by right|]. by intros [->|?].
    + apply dec_stable in Hname. subst name.
      rewrite IH by (done || simpl in Hfuel; lia).
      do 3 f_equal. rewrite orb_true_l.
      rewrite bool_decide_true by (apply elem_of_cons; by left).
      by rewrite orb_true_r.
Qed.

Lemma is_block_length name bs : is_block name bs → (62 <= length bs)%nat.
Proof.
  intros (field & fields & payload & ? & ? & ? & ? & -> & Hfield & _ & Hpack).
  apply pack_5u32_Ok in Hpack as [Hunpack _].
  apply unpack_5u32_length in Hunpack. rewrite !length_app, Hfield, Hunpack.
  simpl. lia.
Qed.

Lemma blocks_length blocks :
  Forall (fun nb => is_block nb.1 nb.2) blocks →
  (length blocks <= length (concat (map snd blocks)))%nat.
Proof.
  induction 1 as [|[name bs] blocks Hb _ IH]; simpl; [done|].
  apply is_block_length in Hb. simpl in Hb. rewrite length_app. lia.
Qed.

Lemma keep_absent file_to_remove blocks :
  file_to_remove ∉ map fst blocks → keep file_to_remove blocks = blocks.
Proof.
  intros Hnot. unfold keep. induction blocks as [|[name bs] blocks IH]; [done|].
  simpl in Hnot. apply not_elem_of_cons in Hnot as [Hne Hnot].
  rewrite filter_cons_True by (simpl; congruence). by rewrite IH.
Qed.

Lemma keep_Forall file_to_remove blocks :
  Forall (fun nb => is_block nb.1 nb.2) blocks →
  Forall (fun nb => is_block nb.1 nb.2) (keep file_to_remove blocks).
Proof.
  rewrite !Forall_forall. intros H nb Hin. apply H.
  unfold keep in Hin. by apply list_elem_of_filter in Hin as [_ ?].
Qed.

(** What [write_block_to_file] writes for a name of at most forty bytes that
    reads back as [name] is a block of that name. *)
Lemma written_block_is_block self filename encoded_data crc bs name :
  write_block_to_file self filename encoded_data crc = (bs, Ok tt) →
  (length filename <= 40)%nat →
  Py.utf8_decode (Py.before_nul (Py.ljust 40 filename)) = Ok name →
  is_block name bs.
Proof.
  unfold write_block_to_file. intros Hwrite Hlen Hname.
  destruct (Py.pack_5u32 _ _ _ _ _) as [fields|] eqn:Hpack; [|done].
  injection Hwrite as <-.
  exists (Py.ljust 40 filename), fields, encoded_data, 1, 0, crc,
    (encoding_algorithm self).
  split_and!; [by rewrite <- ?app_assoc| |done|done].
  rewrite ljust_length. lia.
Qed.

Lemma tmp_name_differs (path : str) : path ++ dot_tmp ≠ path.
Proof.
  intros H. apply (f_equal length) in H. rewrite length_app in H. simpl in H. lia.
Qed.

(** One call of [detract_file] on an archive of well-formed blocks: the
    blocks of the name are left out, the others are kept as they are and in
    their order; the temporary file is gone and nothing else is touched. *)
Lemma detract_file_archive w path header blocks file_to_remove :
  length header = 28%nat →
  Forall (fun nb => is_block nb.1 nb.2) blocks →
  files w !! path = Some (archive_bytes header blocks) →
  ∃ w',
    detract_file w path file_to_remove None
    = Some (w', Ok (bool_decide (file_to_remove ∈ map fst blocks))) ∧
    files w' !! path = Some (archive_bytes header (keep file_to_remove blocks)) ∧
    files w' !! (path ++ dot_tmp) = None ∧
    (∀ p, p ≠ path → p ≠ path ++ dot_tmp → files w' !! p = files w !! p) ∧
    stdin w' = stdin w ∧ stdout w' = stdout w.
Proof.
  intros Hheader Hblocks Hfile. unfold detract_file. simpl or_else.
  rewrite Hfile. cbn [set_file files].
  rewrite lookup_insert_ne by apply tmp_name_differs.
  rewrite Hfile. cbn [default from_option id]. unfold archive_bytes at 1.
  change (4 + 4 + 4 + 16) with (Z.of_nat 28). rewrite read_app_nat by done.
  rewrite detract_loop_blocks; [|done|pose proof (blocks_length _ Hblocks); lia].
  cbn [orb].
  pose proof (tmp_name_differs path) as Htmp.
  case_bool_decide as Hin.
  - eexists. split; [done|]. cbn [set_file remove_file files stdin stdout].
    split_and!; try done.
    + by rewrite lookup_insert_eq.
    + rewrite lookup_insert_ne by done. by rewrite lookup_delete_eq.
    + intros p Hp1 Hp2.
      rewrite lookup_insert_ne, lookup_delete_ne, lookup_insert_ne by done. done.
  - eexists. split; [done|]. cbn [set_file remove_file files stdin stdout].
    rewrite keep_absent by done.
    split_and!; try done.
    + rewrite lookup_delete_ne, lookup_insert_ne by done. done.
    + by rewrite lookup_delete_eq.
    + intros p Hp1 Hp2. rewrite lookup_delete_ne, lookup_insert_ne by done. done.
Qed.

Definition keep_all (files_to_remove : list str) (blocks : list (str * bytes))
  : list (str * bytes) :=
  filter (fun nb => nb.1 ∉ files_to_remove) blocks.

Lemma keep_keep_all file_to_remove rest blocks :
  keep_all rest (keep file_to_remove blocks) = keep_all (file_to_remove :: rest) blocks.
Proof.
  unfold keep_all, keep. induction blocks as [|[name bs] blocks IH]; [done|].
  rewrite !filter_cons. cbn [fst].
  destruct (decide (name ≠ file_to_remove)) as [Hne|Heq].
  - rewrite filter_cons. cbn [fst].
    destruct (decide (name ∉ rest)) as [Hr|Hr].
    + rewrite decide_True by (rewrite not_elem_of_cons; done). by rewrite IH.
    + rewrite decide_False by (rewrite not_elem_of_cons; tauto). done.
  - apply dec_stable in Heq. subst name.
    rewrite decide_False; [done|]. intros Hnot. apply Hnot. by left.
Qed.

Lemma keep_names file_to_remove blocks n :
  n ∈ map fst (keep file_to_remove blocks) ↔ n ∈ map fst blocks ∧ n ≠ file_to_remove.
Proof.
  unfold keep. rewrite !list_elem_of_fmap. split.
  - intros ([name bs] & -> & [Hne Hin]%list_elem_of_filter). split; [eauto|done].
  - intros [([name bs] & -> & Hin) Hne]. exists (name, bs). split; [done|].
    by apply list_elem_of_filter.
Qed.

(** The loop of [detract_files], one name after the other. *)
Lemma detract_files_loop_archive path header files_to_remove :
  ∀ w blocks removed_files not_removed_files,
  length header = 28%nat →
  Forall (fun nb => is_block nb.1 nb.2) blocks →
  files w !! path = Some (archive_bytes header blocks) →
  ∃ w' removed not_removed,
    detract_files_loop w path files_to_remove removed_files not_removed_files
    = Some (w', Ok (removed_files ++ removed, not_removed_files ++ not_removed)) ∧
    files w' !! path = Some (archive_bytes header (keep_all files_to_remove blocks)) ∧
    (∀ n, n ∈ removed ↔ n ∈ files_to_remove ∧ n ∈ map fst blocks) ∧
    (∀ n, n ∈ files_to_remove → n ∉ map fst blocks → n ∈ not_removed) ∧
    (∀ n, n ∈ not_removed → n ∈ files_to_remove).
Proof.
  induction files_to_remove as [|name rest IH];
    intros w blocks removed0 not_removed0 Hheader Hblocks Hfile.
  - exists w, [], []. simpl. rewrite !app_nil_r. split_and!; try done.
    + unfold keep_all. rewrite Hfile. do 2 f_equal.
      clear. induction blocks as [|nb blocks IH]; [done|].
      rewrite filter_cons_True by apply not_elem_of_nil. by f_equal.
    + intros n. rewrite elem_of_nil. tauto.
  - destruct (detract_file_archive w path header blocks name Hheader Hblocks Hfile)
      as (w1 & Hstep & Hfile1 & _).
    cbn [detract_files_loop]. rewrite Hstep.
    pose proof (keep_Forall name _ Hblocks) as Hblocks1.
    case_bool_decide as Hin.
    + destruct (IH w1 _ (removed0 ++ [name]) not_removed0 Hheader Hblocks1 Hfile1)
        as (w' & removed & not_removed & -> & Hfile' & Hrem & Hnot & Hnot').
      exists w', (name :: removed), not_removed.
      rewrite <- app_assoc. split_and!; try done.
      * by rewrite Hfile', keep_keep_all.
      * intros n. rewrite !elem_of_cons, Hrem, keep_names.
        destruct (decide (n = name)) as [->|]; tauto.
      * intros n [->|Hn]%elem_of_cons Hn'; [done|].
        apply Hnot; [done|]. rewrite keep_names. tauto.
      * intros n Hn. apply elem_of_cons. right. by apply Hnot'.
    + destruct (IH w1 _ removed0 (not_removed0 ++ [name]) Hheader Hblocks1 Hfile1)
        as (w' & removed & not_removed & -> & Hfile' & Hrem & Hnot & Hnot').
      exists w', removed, (name :: not_removed).
      rewrite <- app_assoc. split_and!; try done.
      * by rewrite Hfile', keep_keep_all.
      * intros n. rewrite !elem_of_cons, Hrem, keep_names.
        destruct (decide (n = name)) as [->|]; tauto.
      * intros n [->|Hn]%elem_of_cons Hn'; [by left|].
        apply elem_of_cons. right. apply Hnot; [done|]. rewrite keep_names. tauto.
      * intros n [->|Hn]%elem_of_cons; [by left|]. apply elem_of_cons. right.
        by apply Hnot'.
Qed.

Lemma detract_loop_total fuel : ∀ file_to_remove rch_file temp_file file_removed,
  (length rch_file < fuel)%nat →
  is_Some (detract_loop fuel file_to_remove rch_file temp_file file_removed).
Proof.
  induction fuel as [|fuel IH]; intros target s temp removed Hfuel; [lia|].
  simpl.
  destruct (read_file_block_header s)
    as [[[[[[name fsize] crc] algo] ts] rest]|e] eqn:Hhdr.
  - apply read_file_block_header_shorter in Hhdr as [Hhdr Hfsize].
    unfold Py.read. case_decide.
    + apply IH. rewrite length_drop. lia.
    + apply IH. rewrite length_drop. lia.
  - destruct (is_ValueError e); eauto.
Qed.

Lemma detract_file_total w rch_filename file_to_remove output_filename :
  is_Some (detract_file w rch_filename file_to_remove output_filename).
Proof.
  unfold detract_file. destruct (files w !! rch_filename); [|eauto].
  destruct (Py.read _ _) as [header rch_file].
  destruct (detract_loop_total (S (length rch_file)) file_to_remove rch_file
              header false) as [[temp_file [[]|e]] ->]; [lia|eauto..].
Qed.

Lemma detract_files_loop_total files_to_remove :
  ∀ w rch_filename removed_files not_removed_files,
  is_Some (detract_files_loop w rch_filename files_to_remove removed_files
             not_removed_files).
Proof.
  induction files_to_remove as [|name rest IH]; intros w path removed not_removed;
    simpl; [eauto|].
  destruct (detract_file_total w path name None) as [[w' [[]|e]] ->]; eauto.
Qed.

Lemma detract_files_total w rch_filename files_to_remove output_filename :
  is_Some (detract_files w rch_filename files_to_remove output_filename).
Proof.
  unfold detract_files. destruct output_filename as [[|c o]|];
    try apply detract_files_loop_total.
  destruct (files w !! rch_filename); [|eauto]. apply detract_files_loop_total.
Qed.

End RCHFacts.

(** * The properties the specification states *)

Import LZW LZWFacts RCH RCHFacts.

(** ** The dictionary codec *)

(** C9. In one [encode] or one [decode] the table starts with the 256
    single-byte strings and [next_code = 256]; an insertion adds one code
    while [next_code < 65536] and nothing once 65536 is reached; after every
    prefix of the input the compressor, and after every prefix of the codes
    the decompressor, has [256 <= next_code <= 65536]; every code emitted is
    below 65536, so [encode] serializes it in two bytes without overflow. *)
Theorem code_space_invariant :
  (next_code reset_dictionary = 256 ∧
   ∀ k c, dictionary reset_dictionary !! k = Some c ↔ ∃ b, k = [b] ∧ c = Z_of_byte b) ∧
  (∀ st key value,
     (next_code st < 65536 →
      next_code (add_to_dictionary st key value) = next_code st + 1 ∧
      dictionary (add_to_dictionary st key value) !! key = Some (next_code st)) ∧
     (65536 <= next_code st → add_to_dictionary st key value = st)) ∧
  (∀ prefix rest, ∃ e,
     encode_loop enc_init prefix = Ok e ∧
     encode_loop enc_init (prefix ++ rest) = encode_loop e rest ∧
     256 <= next_code (enc_st e) <= 65536 ∧
     Forall (fun c => 0 <= c < 65536) (enc_out e)) ∧
  (∀ data, ∃ e encoded,
     encode_codes data = Ok e ∧
     256 <= next_code (enc_st e) <= 65536 ∧
     Forall (fun c => 0 <= c < 65536) (enc_out e) ∧
     encode data = Ok encoded ∧
     Z.of_nat (length encoded) = 2 * Z.of_nat (length (enc_out e))) ∧
  (∀ code prefix d0 d,
     decode_first code = Ok d0 → decode_loop d0 prefix = Ok d →
     256 <= next_code (dec_st d0) <= 65536 ∧ 256 <= next_code (dec_st d) <= 65536).
Proof.
  split_and!.
  - done.
  - apply initial_dictionary_lookup.
  - intros st key value. split.
    + intros Hlt. rewrite add_to_dictionary_below by done. simpl.
      by rewrite lookup_insert_eq.
    + apply add_to_dictionary_full.
  - intros prefix rest.
    destruct (encode_loop_inv prefix enc_init enc_init_inv) as (e & He & Hinv).
    exists e. refine (conj He (conj _ (conj (enc_bounds _ Hinv) (enc_out_ok _ Hinv)))).
    rewrite encode_loop_app, He. done.
  - intros data. unfold encode, encode_codes.
    destruct (encode_loop_inv data enc_init enc_init_inv) as (e1 & -> & Hinv1).
    destruct (encode_finish_inv e1 Hinv1) as (e & He & Hinv). simpl. rewrite He.
    destruct (_to_bytes_ok (enc_out e)) as (encoded & Henc & Hlen & _); [apply Hinv|].
    exists e, encoded. simpl.
    exact (conj eq_refl (conj (enc_bounds _ Hinv) (conj (enc_out_ok _ Hinv)
             (conj Henc Hlen)))).
  - intros code prefix d0 d H0 Hd.
    pose proof (decode_first_bounds _ _ H0) as Hb0. split; [done|].
    by apply (decode_loop_bounds prefix d0 d).
Qed.

(** C10. An input of odd length is [body ++ [last]] with [body] of even
    length; its last byte is parsed as a code of its own, below 256, the
    parse is that of the input with a zero byte put before [last], and
    [decode] gives on the one what it gives on the other; a single byte
    decodes to itself. *)
Theorem odd_length_last_byte_is_a_code (data : bytes) :
  Nat.Odd (length data) →
  ∃ body last,
    data = body ++ [last] ∧
    _from_bytes data = _from_bytes body ++ [Z_of_byte last] ∧
    0 <= Z_of_byte last < 256 ∧
    _from_bytes data = _from_bytes (body ++ [x00; last]) ∧
    decode data = decode (body ++ [x00; last]) ∧
    (body = [] → decode data = Ok [last]).
Proof.
  intros (body & last & n & -> & Hbody)%odd_length_split.
  exists body, last.
  assert (_from_bytes (body ++ [last]) = _from_bytes (body ++ [x00; last])) as Heq.
  { rewrite !(_from_bytes_app_even n) by done. done. }
  refine (conj eq_refl (conj _ (conj (Z_of_byte_range last) (conj Heq (conj _ _))))).
  - by rewrite (_from_bytes_app_even n).
  - unfold decode. by rewrite Heq.
  - intros ->. unfold decode. simpl. by rewrite decode_first_single.
Qed.

Lemma odd_length_last_byte_is_a_code_witness :
  decode [x00; x61; x62] = decode [x00; x61; x00; x62].
Proof.
  destruct (odd_length_last_byte_is_a_code [x00; x61; x62])
    as (body & last & Hsplit & _ & _ & _ & Hdec & _).
  - exists 1%nat. reflexivity.
  - rewrite Hdec.
    assert (body ++ [last] = [x00; x61] ++ [x62]) as Heq by exact (eq_sym Hsplit).
    apply app_inj_tail in Heq as [-> ->]. reflexivity.
Defined.

(** C6. The first code is looked up in the seeded table without a check:
    for the two bytes [01 00], the code 256, [decode] raises [KeyError],
    not the [ValueError] it raises for no code at all or for a later code
    that is neither in the table nor the next to assign. *)
Theorem decode_unknown_first_code_raises_KeyError :
  decode [x01; x00] = Err KeyError ∧
  decode [] = Err ValueError ∧
  decode [x00; x61; xff; xff] = Err ValueError.
Proof. split_and!; vm_compute; reflexivity. Qed.

(** ** The encoding dispatcher *)

(** C1, as the code has it. Given a [bz2] whose decompressor undoes its
    compressor at the levels 1..9, decoding the encoding of [data] gives
    [data] back for algorithm 2 at such a level, for algorithm 1, and for
    algorithm 0 when [data] is not empty (a single byte, or an input that
    fills the table, included). For the empty input algorithm 0 encodes to
    the empty byte string, which its decoder refuses. *)
Theorem encode_decode_roundtrip
    (bz2_compress : Z → bytes → bytes) (bz2_decompress : bytes → option bytes)
    (self : handler) (data : bytes) :
  (∀ level d, 1 <= level <= 9 → bz2_decompress (bz2_compress level d) = Some d) →
  (encoding_algorithm self = ENCODING_BZIP2 ∧ 1 <= compression_level self <= 9)
  ∨ encoding_algorithm self = ENCODING_XOR255
  ∨ encoding_algorithm self = ENCODING_XOR255_LZW →
  (data ≠ [] ∨ encoding_algorithm self ≠ ENCODING_XOR255_LZW →
   ∃ encoded,
     encode_file_data bz2_compress self data = Ok encoded ∧
     decode_data bz2_decompress encoded (encoding_algorithm self) = Ok data)
  ∧ (data = [] ∧ encoding_algorithm self = ENCODING_XOR255_LZW →
     encode_file_data bz2_compress self data = Ok [] ∧
     decode_data bz2_decompress [] (encoding_algorithm self) = Err ValueError).
Proof.
  intros Hbz2 Halg. split.
  - intros Hdata. destruct Halg as [[Halg Hlevel]|[Halg|Halg]]; rewrite Halg.
    + by apply roundtrip_bzip2.
    + by apply roundtrip_xor255.
    + apply roundtrip_xor255_lzw; [done|]. by destruct Hdata.
  - intros [-> Hlzw]. rewrite Hlzw. by apply roundtrip_xor255_lzw_empty.
Qed.

Lemma encode_decode_roundtrip_witness :
  ∃ encoded,
    encode_file_data Sample.store Sample.lzw_handler [x61; x62; x61; x62; x61] = Ok encoded ∧
    decode_data Sample.unstore encoded ENCODING_XOR255_LZW = Ok [x61; x62; x61; x62; x61].
Proof.
  apply (encode_decode_roundtrip Sample.store Sample.unstore Sample.lzw_handler
           [x61; x62; x61; x62; x61]).
  - intros level d _. reflexivity.
  - right. right. reflexivity.
  - left. discriminate.
Defined.

(** C1, as the specification states it, fails on the empty input of
    algorithm 0: the encoding is empty and decoding it raises. *)
Lemma roundtrip_fails_on_empty_dictionary_input :
  encode_file_data Sample.store Sample.lzw_handler [] = Ok [] ∧
  decode_data Sample.unstore [] ENCODING_XOR255_LZW = Err ValueError ∧
  (encoded ← LZW.encode []; LZW.decode encoded) = Err ValueError.
Proof. split_and!; reflexivity. Qed.

(** C3. What [pack] writes for one entry carries the checksum of the raw
    data when the algorithm is 2 and of the encoded bytes otherwise, in its
    block and in its result record; [unpack] accepts a payload exactly when
    it decodes and the stored checksum is that of the decoded data for
    algorithm 2, of the stored payload otherwise; [check] does the same,
    and decodes only for algorithm 2. *)
Theorem checksum_basis_by_algorithm
    (bz2_compress : Z → bytes → bytes) (bz2_decompress : bytes → option bytes)
    (self : handler) (filename file_data written : bytes) (e : entry) :
  _write_file_block bz2_compress self filename file_data = (written, Ok e) →
  (∃ encoded_data fields,
     encode_file_data bz2_compress self file_data = Ok encoded_data ∧
     crc32 e = Z.land (Py.crc32 (if decide (encoding_algorithm self = ENCODING_BZIP2)
                                 then file_data else encoded_data)) 0xFFFFFFFF ∧
     Py.pack_5u32 1 0 (Z.of_nat (length encoded_data)) (crc32 e)
       (encoding_algorithm self) = Ok fields ∧
     written = BLOCK_MAGIC ++ Py.ljust 40 filename ++ fields ++ encoded_data)
  ∧ (∀ payload algo stored output_data crc_valid,
       _process_file_data bz2_decompress payload algo stored = Ok (output_data, crc_valid)
       ↔ decode_data bz2_decompress payload algo = Ok output_data ∧
         crc_valid = true ∧
         stored = Z.land (Py.crc32 (if decide (algo = ENCODING_BZIP2)
                                    then output_data else payload)) 0xFFFFFFFF)
  ∧ (∀ payload algo stored,
       _verify_crc bz2_decompress payload algo stored = Ok true
       ↔ if decide (algo = ENCODING_BZIP2)
         then ∃ output_data,
                decode_data bz2_decompress payload algo = Ok output_data ∧
                stored = Z.land (Py.crc32 output_data) 0xFFFFFFFF
         else stored = Z.land (Py.crc32 payload) 0xFFFFFFFF).
Proof.
  intros Hwrite. split_and!.
  - unfold _write_file_block in Hwrite.
    destruct (Py.utf8_decode filename) as [name|]; [|done].
    destruct (encode_file_data bz2_compress self file_data) as [encoded|]; [|done].
    unfold write_block_to_file in Hwrite.
    destruct (Py.pack_5u32 _ _ _ _ _) as [fields|] eqn:Hpack; [|done].
    simpl in Hwrite. injection Hwrite as <- <-.
    exists encoded, fields. simpl. unfold _calculate_crc32 in *.
    split_and!; try done. by case_decide.
  - intros payload algo stored out valid.
    pose proof (_process_file_data_spec bz2_decompress payload algo stored) as Hp.
    unfold crc_basis in Hp.
    destruct (decode_data bz2_decompress payload algo) as [out'|err].
    + case_decide as Hcrc; rewrite Hp.
      * split; [by intros [= <- <-]|]. by intros ([= ->] & -> & _).
      * split; [done|]. intros ([= ->] & _ & Heq). done.
    + rewrite Hp. split; [done|]. by intros [? _].
  - intros payload algo stored. rewrite _verify_crc_spec.
    case_decide.
    + destruct (decode_data bz2_decompress payload algo) as [out|err].
      * case_decide; split; try done; eauto.
        intros (out' & [= <-] & ?). done.
      * split; [done|]. by intros (? & ? & _).
    + by case_decide.
Qed.

Lemma checksum_basis_by_algorithm_witness :
  ∃ encoded_data,
    encode_file_data Sample.store (Sample.xor_handler false) [x68; x69] = Ok encoded_data ∧
    Z.land (Py.crc32 encoded_data) 0xFFFFFFFF = 1723152467.
Proof.
  destruct (checksum_basis_by_algorithm Sample.store Sample.unstore
              (Sample.xor_handler false) [x61] [x68; x69]
              (fst (_write_file_block Sample.store (Sample.xor_handler false)
                      [x61] [x68; x69]))
              {| filename := [97]; size := 2; crc32 := 1723152467;
                 encoding := XOR255; crc_passed := true; timestamp := 0;
                 status := Packed |})
    as [(encoded_data & fields & Henc & Hcrc & _) _].
  - vm_compute. reflexivity.
  - exists encoded_data. split; [exact Henc|]. symmetry. exact Hcrc.
Defined.

(** ** Framing *)

(** C5, as the code has it. For a name of at most forty bytes
    [write_block_to_file] writes the magic, a name field of exactly forty
    bytes (the name, then NUL bytes), the five packed fields and the
    payload: the header before the payload has 62 bytes, [2 + 40 + 5 * 4]. *)
Theorem name_field_is_forty_bytes (self : handler)
    (filename encoded_data fields : bytes) (crc32 : Z) :
  (length filename <= 40)%nat →
  Py.pack_5u32 1 0 (Z.of_nat (length encoded_data)) crc32 (encoding_algorithm self)
  = Ok fields →
  write_block_to_file self filename encoded_data crc32
  = (BLOCK_MAGIC ++ Py.ljust 40 filename ++ fields ++ encoded_data, Ok tt) ∧
  Py.ljust 40 filename = filename ++ replicate (40 - length filename) x00 ∧
  length (Py.ljust 40 filename) = 40%nat ∧
  length (BLOCK_MAGIC ++ Py.ljust 40 filename ++ fields) = 62%nat.
Proof.
  intros Hshort Hpack. unfold write_block_to_file. rewrite Hpack.
  assert (length (Py.ljust 40 filename) = 40%nat) as Hlen
    by (rewrite ljust_length; lia).
  split_and!; [by rewrite <- !app_assoc|done|done|].
  apply pack_5u32_Ok in Hpack as [Hunpack _].
  apply unpack_5u32_length in Hunpack. rewrite !length_app, Hlen, Hunpack. done.
Qed.

Lemma name_field_is_forty_bytes_witness :
  length (Py.ljust 40 [x61; x2e; x74; x78; x74]) = 40%nat.
Proof.
  refine (proj1 (proj2 (proj2
    (name_field_is_forty_bytes (Sample.xor_handler false)
       [x61; x2e; x74; x78; x74] [x68; x69]
       [x01; x00; x00; x00; x00; x00; x00; x00; x02; x00; x00; x00;
        x00; x00; x00; x00; x01; x00; x00; x00] 0 _ _)))).
  - vm_compute. lia.
  - vm_compute. reflexivity.
Defined.

(** C5, as the specification states it, fails on the size: the header
    written for the name [a] has 62 bytes, not 70. *)
Lemma block_header_is_not_70_bytes :
  let written := (write_block_to_file (Sample.xor_handler false) [x61] [x68; x69] 0).1 in
  (write_block_to_file (Sample.xor_handler false) [x61] [x68; x69] 0).2 = Ok tt ∧
  (length written - length [x68; x69] = 62)%nat ∧
  (length written - length [x68; x69])%nat ≠ 70%nat.
Proof. vm_compute. split_and!; [reflexivity|reflexivity|lia]. Qed.

(** The padding never cuts: a name of more than forty bytes is written
    whole, and the header of its block is [2 + len(name) + 20] bytes long. *)
Lemma long_name_is_written_whole (self : handler)
    (filename encoded_data : bytes) (crc32 : Z) :
  (40 < length filename)%nat →
  Py.ljust 40 filename = filename ∧
  ∀ fields,
    Py.pack_5u32 1 0 (Z.of_nat (length encoded_data)) crc32 (encoding_algorithm self)
    = Ok fields →
    write_block_to_file self filename encoded_data crc32
    = (BLOCK_MAGIC ++ filename ++ fields ++ encoded_data, Ok tt) ∧
    length (BLOCK_MAGIC ++ filename ++ fields) = (2 + length filename + 20)%nat.
Proof.
  intros Hlong.
  assert (Py.ljust 40 filename = filename) as Hljust.
  { unfold Py.ljust. replace (40 - length filename)%nat with 0%nat by lia.
    apply app_nil_r. }
  split; [done|]. intros fields Hpack. unfold write_block_to_file.
  rewrite Hpack, Hljust. split.
  - by rewrite <- !app_assoc.
  - apply pack_5u32_Ok in Hpack as [Hunpack _].
    apply unpack_5u32_length in Hunpack. rewrite !length_app, Hunpack. done.
Qed.

(** The same through [pack_rch] and back: a file whose base name has
    forty-one characters is packed, and the archive then reads as a block
    of another name, of 512 bytes and of no known algorithm. *)
Lemma packed_long_name_reads_back_wrong :
  let path := replicate 41 97 in
  let w := {| files := {[ path := [x68; x69] ]}; stdin := []; stdout := [] |} in
  let packed := pack_rch Sample.store (Sample.xor_handler false) w
                  Sample.archive_path [path] false [] in
  match packed.2 with
  | Ok [e] => status e = Packed ∧ filename e = path
  | _ => False
  end ∧
  check_rch Sample.unstore packed.1 Sample.archive_path
  = Some (Ok [{| filename := replicate 40 97; size := 512; crc32 := 3040367360;
                 encoding := Unknown; crc_passed := false; timestamp := 0;
                 status := Checked |}]).
Proof. vm_compute. split; [split|]; reflexivity. Qed.

(** ** Scanning an archive *)

(** C2. With [force] set, a selected block whose payload decodes but whose
    stored checksum does not match is still reported as failed, with
    [crc_passed] false, and nothing is written for it: the scan goes on
    with the world as it was. *)
Theorem forced_unpack_reports_failure
    (bz2_decompress : bytes → option bytes) (fuel : nat) (self : handler)
    (output_directory : str) (filenames : option (list str))
    (stream : bytes) (w : world) (results : list entry)
    (name : str) (fsize crc algo ts : Z) (rest output_data : bytes) :
  force self = true →
  read_file_block_header stream = Ok (name, fsize, crc, algo, ts, rest) →
  selected filenames name = true →
  decode_data bz2_decompress (take (Z.to_nat fsize) rest) algo = Ok output_data →
  crc ≠ Z.land (Py.crc32 (if decide (algo = ENCODING_BZIP2) then output_data
                          else take (Z.to_nat fsize) rest)) 0xFFFFFFFF →
  unpack_loop bz2_decompress (S fuel) self output_directory filenames stream w results
  = unpack_loop bz2_decompress fuel self output_directory filenames
      (drop (Z.to_nat fsize) rest) w
      (results ++ [{| filename := _sanitize_filename name; size := fsize;
                      crc32 := crc; encoding := get_encoding_name algo;
                      crc_passed := false; timestamp := ts; status := Failed |}]).
Proof.
  intros _ Hhdr Hsel Hdec Hcrc. by eapply unpack_loop_crc_mismatch.
Qed.

Lemma forced_unpack_reports_failure_witness :
  unpack_loop Sample.unstore 2 (Sample.xor_handler true) Sample.out_dir None
    (drop 28 Sample.bad_crc_archive) (Sample.world_of Sample.bad_crc_archive) []
  = Some (Sample.world_of Sample.bad_crc_archive,
          Ok [{| filename := Sample.name_a; size := 3; crc32 := 0;
                 encoding := XOR255; crc_passed := false; timestamp := 0;
                 status := Failed |}]).
Proof.
  rewrite (forced_unpack_reports_failure Sample.unstore 1 (Sample.xor_handler true)
             Sample.out_dir None (drop 28 Sample.bad_crc_archive)
             (Sample.world_of Sample.bad_crc_archive) []
             Sample.name_a 3 0 ENCODING_XOR255 0 Sample.payload3
             [xfe; xfd; xfc]).
  - vm_compute. reflexivity.
  - reflexivity.
  - vm_compute. reflexivity.
  - reflexivity.
  - vm_compute. reflexivity.
  - vm_compute. discriminate.
Defined.

(** The whole of [unpack_rch] on that archive, with and without [force]:
    the same failure, and no file under the output directory. *)
Lemma forced_unpack_of_bad_checksum :
  ∀ force,
    unpack_rch Sample.unstore (Sample.xor_handler force)
      (Sample.world_of Sample.bad_crc_archive) Sample.archive_path Sample.out_dir None
    = Some (Sample.world_of Sample.bad_crc_archive,
            Ok [{| filename := Sample.name_a; size := 3; crc32 := 0;
                   encoding := XOR255; crc_passed := false; timestamp := 0;
                   status := Failed |}]).
Proof. intros []; vm_compute; reflexivity. Qed.

(** C4, as the code has it. The payload of a block is what [read] returns
    for the declared length: that many bytes when they are there, all that
    is left otherwise, and never an error. Each of the three scans goes on
    with that payload, short or not. *)
Theorem payload_read_takes_what_is_left
    (bz2_decompress : bytes → option bytes)
    (stream : bytes) (name : str) (fsize crc algo ts : Z) (rest : bytes) :
  read_file_block_header stream = Ok (name, fsize, crc, algo, ts, rest) →
  let payload := (Py.read fsize rest).1 in
  let after := (Py.read fsize rest).2 in
  payload ++ after = rest ∧
  Z.of_nat (length payload) = Z.min fsize (Z.of_nat (length rest)) ∧
  (∀ fuel results,
     check_loop bz2_decompress (S fuel) stream results
     = check_loop bz2_decompress fuel after
         (results ++ [_create_result_entry (_sanitize_filename name) fsize crc algo
                        (crc_verdict bz2_decompress payload algo crc) ts Checked])) ∧
  (∀ fuel self output_directory filenames w results,
     selected filenames name = true →
     unpack_loop bz2_decompress (S fuel) self output_directory filenames stream w results
     = let failed := _create_result_entry (_sanitize_filename name) fsize crc algo
                       false ts Failed in
       let next := unpack_loop bz2_decompress fuel self output_directory filenames
                     after in
       match decode_data bz2_decompress payload algo with
       | Ok output_data =>
           if decide (crc = Z.land (Py.crc32 (crc_basis algo output_data payload))
                              0xFFFFFFFF)
           then next (_write_output output_directory (_sanitize_filename name)
                        output_data w)
                  (results ++ [_create_result_entry (_sanitize_filename name) fsize
                                 crc algo true ts Unpacked])
           else next w (results ++ [failed])
       | Err _ => next w (results ++ [failed])
       end) ∧
  (∀ fuel file_to_remove temp_file file_removed,
     detract_loop (S fuel) file_to_remove stream temp_file file_removed
     = if decide (name ≠ file_to_remove) then
         detract_loop fuel file_to_remove
           (Py.read (2 + 40 + 4 * 5 + fsize) stream).2
           (temp_file ++ (Py.read (2 + 40 + 4 * 5 + fsize) stream).1) file_removed
       else detract_loop fuel file_to_remove after temp_file true).
Proof.
  intros Hhdr payload after.
  pose proof (read_file_block_header_shorter _ _ _ _ _ _ _ Hhdr) as [_ Hfsize].
  refine (conj (read_cat fsize rest) (conj (read_length fsize rest Hfsize)
            (conj _ (conj _ _)))).
  - intros fuel results. by apply check_loop_step.
  - intros fuel self dir names w results Hsel.
    by rewrite (unpack_loop_step bz2_decompress fuel self dir names stream w results
                  name fsize crc algo ts rest Hhdr Hsel).
  - intros fuel target temp removed. eapply detract_loop_step. exact Hhdr.
Qed.

Lemma payload_read_takes_what_is_left_witness :
  let rest := Sample.payload3 in
  Z.of_nat (length (Py.read 10 rest).1) = Z.min 10 (Z.of_nat (length rest)).
Proof.
  refine (proj1 (proj2
    (payload_read_takes_what_is_left Sample.unstore
       (drop 28 Sample.truncated_archive) Sample.name_a 10
       (Py.crc32 Sample.payload3) ENCODING_XOR255 0 Sample.payload3 _))).
  vm_compute. reflexivity.
Defined.

(** C4, as the specification states it, fails: the block of
    [Sample.truncated_archive] declares ten payload bytes and three are
    left; [unpack_rch] raises nothing, takes the three bytes as the payload
    and, their checksum being the stored one, writes the file. *)
Lemma truncated_payload_is_unpacked :
  match unpack_rch Sample.unstore (Sample.xor_handler false)
          (Sample.world_of Sample.truncated_archive)
          Sample.archive_path Sample.out_dir None with
  | Some (w, Ok [e]) =>
      size e = 10 ∧ crc_passed e = true ∧ status e = Unpacked ∧
      files w !! Py.join Sample.out_dir Sample.name_a = Some [xfe; xfd; xfc]
  | _ => False
  end.
Proof. vm_compute. split_and!; reflexivity. Qed.

(** C8. The name of a block that was read is sanitized to its base name,
    what follows its last [/]: the result holds no [/] and, a stored name
    having at most forty characters, is never cut. For any name at all the
    function returns the base name when it has at most 255 characters, and
    otherwise the root cut to [255 - len(ext)] characters followed by the
    whole extension, 255 characters in all when the extension has no more
    than 255. *)
Theorem sanitize_stored_name
    (stream : bytes) (name : str) (fsize crc algo ts : Z) (rest : bytes) :
  read_file_block_header stream = Ok (name, fsize, crc, algo, ts, rest) →
  (Py.sep ∉ _sanitize_filename name) ∧
  (length (_sanitize_filename name) <= 255)%nat ∧
  _sanitize_filename name = Py.basename name ∧
  (∀ dir last, name = dir ++ Py.sep :: last → Py.sep ∉ last →
               _sanitize_filename name = last) ∧
  (∀ filename : str,
     let base := Py.basename filename in
     let root := (Py.splitext base).1 in
     let ext := (Py.splitext base).2 in
     (Py.sep ∉ _sanitize_filename filename) ∧
     root ++ ext = base ∧
     ((length base <= 255)%nat → _sanitize_filename filename = base) ∧
     ((255 < length base)%nat →
      _sanitize_filename filename = Py.slice_to (255 - Z.of_nat (length ext)) root ++ ext) ∧
     ((255 < length base)%nat → (length ext <= 255)%nat →
      _sanitize_filename filename = take (255 - length ext) root ++ ext ∧
      length (_sanitize_filename filename) = 255%nat)).
Proof.
  intros Hhdr. apply stored_name_length in Hhdr.
  pose proof (PyFacts.basename_length name) as Hbase.
  assert (_sanitize_filename name = Py.basename name) as Hsan
    by (apply sanitize_short; lia).
  split_and!.
  - apply sanitize_no_sep.
  - rewrite Hsan. lia.
  - done.
  - intros dir last -> Hlast. rewrite Hsan. by apply PyFacts.basename_after_last_sep.
  - intros filename base root ext. split_and!.
    + apply sanitize_no_sep.
    + apply PyFacts.splitext_cat.
    + apply sanitize_short.
    + apply sanitize_long.
    + intros Hlong Hext. split; [|by apply sanitize_long_length].
      rewrite sanitize_long by done. f_equal.
      unfold Py.slice_to, Py.slice_index. fold base. fold ext. fold root.
      destruct (Z.leb_spec 0 (255 - Z.of_nat (length ext))); [|lia].
      f_equal. lia.
Qed.

Lemma sanitize_stored_name_witness :
  _sanitize_filename [46; 46; 47; 120; 46; 116; 120; 116] = [120; 46; 116; 120; 116].
Proof.
  refine (proj1 (proj2 (proj2 (proj2
    (sanitize_stored_name Sample.traversal_header [46; 46; 47; 120; 46; 116; 120; 116]
       0 0 ENCODING_XOR255 0 [] _)))) [46; 46] [120; 46; 116; 120; 116] eq_refl _).
  - vm_compute. reflexivity.
  - intros Hin. repeat (apply elem_of_cons in Hin as [Hin|Hin]; [discriminate|]).
    by apply elem_of_nil in Hin.
Defined.

(** Outside the names an archive can store, the bound is not kept: a name
    whose extension alone has more than 255 characters comes out whole. *)
Lemma sanitize_long_extension :
  let filename := [97; 46] ++ replicate 300 98 in
  _sanitize_filename filename = 46 :: replicate 300 98.
Proof. vm_compute. reflexivity. Qed.

(** ** Removing entries *)

(** C7. On an archive that is a 28-byte header followed by well-formed
    blocks, [detract_files] returns normally; the archive afterwards is the
    header followed by the blocks whose name was not asked for, unchanged
    and in their order; a name that was asked for and names a block is in
    the removed list, one that names no block is in the not-removed list
    and not in the removed one; and when no name asked for names a block
    the archive is byte for byte what it was. *)
Theorem detract_removes_named_blocks
    (w : world) (path : str) (header : bytes) (blocks : list (str * bytes))
    (files_to_remove : list str) :
  length header = 28%nat →
  Forall (fun nb => is_block nb.1 nb.2) blocks →
  files w !! path = Some (archive_bytes header blocks) →
  ∃ w' removed not_removed,
    detract_files w path files_to_remove None = Some (w', Ok (removed, not_removed)) ∧
    files w' !! path
    = Some (archive_bytes header (filter (fun nb => nb.1 ∉ files_to_remove) blocks)) ∧
    (∀ n, n ∈ files_to_remove → n ∈ map fst blocks → n ∈ removed) ∧
    (∀ n, n ∈ files_to_remove → n ∉ map fst blocks → n ∈ not_removed ∧ n ∉ removed) ∧
    (∀ n, n ∈ removed ∨ n ∈ not_removed → n ∈ files_to_remove) ∧
    ((∀ n, n ∈ files_to_remove → n ∉ map fst blocks) →
     files w' !! path = files w !! path).
Proof.
  intros Hheader Hblocks Hfile.
  destruct (detract_files_loop_archive path header files_to_remove w blocks [] []
              Hheader Hblocks Hfile)
    as (w' & removed & not_removed & Hrun & Hfile' & Hrem & Hnot & Hnot').
  exists w', removed, not_removed. split_and!.
  - done.
  - done.
  - intros n Hn Hin. by apply Hrem.
  - intros n Hn Hin. split; [by apply Hnot|]. intros [_ ?]%Hrem. done.
  - intros n [[? _]%Hrem|?%Hnot']; done.
  - intros Habsent. rewrite Hfile', Hfile. do 2 f_equal.
    fold (keep_all files_to_remove blocks). unfold keep_all.
    clear -Habsent. induction blocks as [|[name bs] blocks IH]; [done|].
    rewrite filter_cons. cbn [fst].
    destruct (decide (name ∉ files_to_remove)) as [_|Hin].
    + f_equal. apply IH. intros n Hn Hin. apply (Habsent n Hn). by right.
    + apply dec_stable in Hin. destruct (Habsent name Hin). by left.
Qed.

Lemma detract_removes_named_blocks_witness :
  ∃ w' removed not_removed,
    detract_files Sample.two_blocks_world Sample.archive_path
      [Sample.name_a; [99]] None = Some (w', Ok (removed, not_removed)) ∧
    files w' !! Sample.archive_path = Some (rch_header ++ Sample.block_b) ∧
    Sample.name_a ∈ removed ∧
    [99] ∈ not_removed.
Proof.
  destruct (detract_removes_named_blocks Sample.two_blocks_world Sample.archive_path
              rch_header Sample.two_blocks [Sample.name_a; [99]])
    as (w' & removed & not_removed & Hrun & Hfile & Hrem & Hnot & _).
  - reflexivity.
  - repeat apply Forall_cons_2; [| |apply Forall_nil_2].
    + apply (written_block_is_block (Sample.xor_handler false) [x61] [xfe; xfd] 0).
      * reflexivity.
      * vm_compute. lia.
      * reflexivity.
    + apply (written_block_is_block Sample.lzw_handler [x62] [x00; x9e] 0).
      * reflexivity.
      * vm_compute. lia.
      * reflexivity.
  - reflexivity.
  - exists w', removed, not_removed. split; [exact Hrun|]. split; [|split].
    + rewrite Hfile. reflexivity.
    + apply Hrem; [by left|by left].
    + apply Hnot.
      * right. by left.
      * intros Hin. repeat (apply elem_of_cons in Hin as [Hin|Hin]; [discriminate|]).
        by apply elem_of_nil in Hin.
Defined.

(** * Further properties of the code *)

(** ** The dictionary codec: sizes *)

Import LZW LZWFacts.

Module LZWSize.

(** The string the compressor holds stands for one code still to come. *)
Definition pending (e : enc_state) : nat :=
  match enc_string e with [] => 0 | _ :: _ => 1 end.

Lemma encode_step_size e symbol e' :
  enc_inv e → encode_step e symbol = Ok e' →
  (length (enc_out e') + pending e' <= length (enc_out e) + pending e + 1)%nat.
Proof.
  intros He. unfold encode_step.
  destruct (decide (is_Some (dictionary (enc_st e) !! (enc_string e ++ [symbol]))))
    as [Hin|Hnot].
  - intros [= <-]. unfold pending. simpl.
    destruct (enc_string e); simpl; lia.
  - assert (enc_string e ≠ []) as Hne.
    { intros Heq. rewrite Heq in Hnot. simpl in Hnot.
      by destruct Hnot, (enc_singles _ He symbol). }
    destruct (enc_inv_get _ He Hne) as (c & -> & _). simpl.
    intros [= <-]. unfold pending. simpl. rewrite length_app. simpl.
    destruct (enc_string e); [done|]. lia.
Qed.

Lemma encode_loop_size data : ∀ e e',
  enc_inv e → encode_loop e data = Ok e' →
  (length (enc_out e') + pending e' <= length (enc_out e) + pending e + length data)%nat.
Proof.
  induction data as [|symbol rest IH]; intros e e' He; simpl.
  - intros [= <-]. lia.
  - destruct (encode_step_inv e symbol He) as (e1 & Hstep & He1). rewrite Hstep. simpl.
    intros Hloop. pose proof (encode_step_size e symbol e1 He Hstep).
    pose proof (IH e1 e' He1 Hloop). lia.
Qed.

Lemma encode_finish_size e e' :
  encode_finish e = Ok e' → length (enc_out e') = (length (enc_out e) + pending e)%nat.
Proof.
  unfold encode_finish, pending. destruct (enc_string e) as [|b w] eqn:Hw.
  - intros [= <-]. lia.
  - destruct (dict_get (enc_st e) (b :: w)); simpl; [|done].
    intros [= <-]. simpl. by rewrite length_app.
Qed.

Lemma encode_codes_size data e :
  encode_codes data = Ok e → (length (enc_out e) <= length data)%nat.
Proof.
  unfold encode_codes.
  destruct (encode_loop_inv data enc_init enc_init_inv) as (e1 & Hloop & He1).
  rewrite Hloop. simpl. intros Hfin.
  pose proof (encode_loop_size data enc_init e1 enc_init_inv Hloop) as Hsize.
  apply encode_finish_size in Hfin. cbn in Hsize. lia.
Qed.

Lemma encode_total data :
  ∃ e bs, encode_codes data = Ok e ∧ enc_inv e ∧ _to_bytes (enc_out e) = Ok bs ∧
          encode data = Ok bs ∧
          Z.of_nat (length bs) = 2 * Z.of_nat (length (enc_out e)).
Proof.
  destruct (encode_loop_inv data enc_init enc_init_inv) as (e1 & Hloop & He1).
  destruct (encode_finish_inv e1 He1) as (e & Hfin & He).
  destruct (_to_bytes_ok (enc_out e)) as (bs & Hbs & Hlen & _); [apply He|].
  exists e, bs. unfold encode, encode_codes. rewrite Hloop. simpl. rewrite Hfin. simpl.
  done.
Qed.

(** The entries of the decompressor's table are never empty. *)
Record dec_inv (d : dec_state) : Prop := {
  dec_entries : ∀ c k, reverse_dictionary (dec_st d) !! c = Some k → k ≠ [];
  dec_string_ne : dec_string d ≠ [];
}.

Lemma decode_first_inv c d :
  decode_first c = Ok d → dec_inv d ∧ length (dec_out d) = 1%nat.
Proof.
  unfold decode_first. simpl.
  destruct (initial_reverse_dictionary !! c) as [k|] eqn:Hc; [|done].
  intros [= <-]. apply initial_reverse_lookup in Hc as [_ ->]. split; [split|done]; simpl.
  - intros c' k' [_ ->]%initial_reverse_lookup. done.
  - done.
Qed.

Lemma decode_step_inv d c d' :
  dec_inv d → decode_step d c = Ok d' →
  dec_inv d' ∧ (length (dec_out d) < length (dec_out d'))%nat.
Proof.
  intros [Hent Hstr]. unfold decode_step.
  destruct (_get_entry (dec_st d) c (dec_string d)) as [entry|] eqn:Hget; [|done].
  simpl. intros [= <-]. simpl.
  assert (entry ≠ []) as Hentry.
  { unfold _get_entry in Hget.
    destruct (reverse_dictionary (dec_st d) !! c) as [k|] eqn:Hc.
    - injection Hget as <-. by eapply Hent.
    - case_decide; [|done]. injection Hget as <-.
      by destruct (dec_string d). }
  split; [split|]; simpl.
  - intros c' k'. unfold add_to_dictionary. destruct (can_add_to_dictionary _); simpl.
    + rewrite lookup_insert. case_decide.
      * intros [= <-]. by destruct (dec_string d).
      * apply Hent.
    + apply Hent.
  - done.
  - rewrite length_app. destruct entry; [done|]. simpl. lia.
Qed.

Lemma decode_loop_size codes : ∀ d d',
  dec_inv d → decode_loop d codes = Ok d' →
  (length (dec_out d) + length codes <= length (dec_out d'))%nat.
Proof.
  induction codes as [|c codes IH]; intros d d' Hd; simpl.
  - intros [= <-]. lia.
  - destruct (decode_step d c) as [d1|] eqn:Hstep; simpl; [|done].
    intros Hloop. destruct (decode_step_inv d c d1 Hd Hstep) as [Hd1 Hlt].
    pose proof (IH d1 d' Hd1 Hloop). lia.
Qed.

Lemma decode_codes_size codes d :
  decode_codes codes = Ok d → (length codes <= length (dec_out d))%nat ∧ codes ≠ [].
Proof.
  destruct codes as [|c codes]; [done|]. simpl.
  destruct (decode_first c) as [d0|] eqn:Hfirst; simpl; [|done].
  intros Hloop. apply decode_first_inv in Hfirst as [Hd0 Hlen].
  pose proof (decode_loop_size codes d0 d Hd0 Hloop). split; [lia|done].
Qed.

Lemma _from_bytes_length n : ∀ bs,
  (length bs <= n)%nat → (length bs <= 2 * length (_from_bytes bs))%nat.
Proof.
  induction n as [|n IH]; intros bs Hlen.
  - destruct bs; [done|simpl in Hlen; lia].
  - destruct bs as [|b0 [|b1 bs]]; [done|simpl; lia|].
    cbn [_from_bytes length]. pose proof (IH bs). simpl in Hlen. lia.
Qed.

Lemma encode_nil_inv data : encode data = Ok [] → data = [].
Proof.
  intros Henc. destruct data as [|b rest]; [done|].
  destruct (encode_total (b :: rest)) as (e & bs & Hcodes & He & Hbs & Henc' & Hlen).
  destruct (encode_codes_nonempty b rest) as (e' & cs & d & Hcodes' & _ & Hout & _).
  rewrite Hcodes in Hcodes'. injection Hcodes' as <-.
  rewrite Henc in Henc'. injection Henc' as <-.
  rewrite Hout in Hlen. simpl in Hlen. lia.
Qed.

End LZWSize.

Import LZWSize.

(** X1. [LZWCompressor.encode] returns on every input, with two bytes for
    each code and at most one code for each byte of the input: the output
    has an even length, at most twice that of the input, and is empty only
    for the empty input. *)
Theorem lzw_encode_size (data : bytes) :
  ∃ bs, encode data = Ok bs ∧
        (length bs <= 2 * length data)%nat ∧
        (∃ n, length bs = (2 * n)%nat) ∧
        (bs = [] ↔ data = []).
Proof.
  destruct (encode_total data) as (e & bs & Hcodes & He & Hbs & Henc & Hlen).
  exists bs. pose proof (encode_codes_size data e Hcodes) as Hsize.
  split_and!.
  - done.
  - lia.
  - exists (length (enc_out e)). lia.
  - split.
    + intros ->. by apply encode_nil_inv.
    + intros ->. rewrite encode_empty in Henc. by injection Henc as <-.
Qed.

(** X2. What [LZWDecompressor.decode] returns has at least one byte for each
    code it was given: it is never empty, and the input is at most twice
    as long. *)
Theorem lzw_decode_size (encoded_data data : bytes) :
  decode encoded_data = Ok data →
  data ≠ [] ∧ (length encoded_data <= 2 * length data)%nat.
Proof.
  unfold decode.
  destruct (decode_codes (_from_bytes encoded_data)) as [d|] eqn:Hd; simpl; [|done].
  intros [= <-]. apply decode_codes_size in Hd as [Hlen Hne].
  pose proof (_from_bytes_length (length encoded_data) encoded_data (le_n _)).
  split; [|lia]. intros Heq. rewrite Heq in Hlen. simpl in Hlen.
  destruct (_from_bytes encoded_data); [done|simpl in Hlen; lia].
Qed.

Lemma lzw_decode_size_witness :
  [x61; x62; x61; x62] ≠ [] ∧
  (length [x00; x61; x00; x62; x01; x00] <= 2 * length [x61; x62; x61; x62])%nat.
Proof.
  apply (lzw_decode_size [x00; x61; x00; x62; x01; x00] [x61; x62; x61; x62]).
  vm_compute. reflexivity.
Defined.

(** X3. Two inputs that [LZWCompressor.encode] turns into the same bytes are
    the same input. *)
Theorem lzw_encode_injective (data1 data2 encoded : bytes) :
  encode data1 = Ok encoded → encode data2 = Ok encoded → data1 = data2.
Proof.
  intros H1 H2.
  destruct (decide (data1 = [])) as [->|Hne1].
  { rewrite encode_empty in H1. injection H1 as <-.
    symmetry. by apply encode_nil_inv. }
  destruct (decide (data2 = [])) as [->|Hne2].
  { rewrite encode_empty in H2. injection H2 as <-. by apply encode_nil_inv. }
  destruct (encode_decode_nonempty data1 Hne1) as (bs1 & Henc1 & Hdec1).
  destruct (encode_decode_nonempty data2 Hne2) as (bs2 & Henc2 & Hdec2).
  congruence.
Qed.

Lemma lzw_encode_injective_witness : [x61; x61] = [x61; x61] :> bytes.
Proof.
  apply (lzw_encode_injective [x61; x61] [x61; x61] [x00; x61; x00; x61]);
    vm_compute; reflexivity.
Defined.

(** ** UTF-8: decoding what was encoded *)

Module Utf8Facts.

Lemma split2 c : ∃ q r, c / 64 = q ∧ c mod 64 = r ∧ c = 64 * q + r ∧ 0 <= r < 64.
Proof.
  exists (c / 64), (c mod 64). split_and!; try done.
  - apply Z.div_mod. lia.
  - apply Z.mod_pos_bound. lia.
  - apply Z.mod_pos_bound. lia.
Qed.

Lemma split3 c :
  ∃ a b r, c / 4096 = a ∧ (c / 64) mod 64 = b ∧ c mod 64 = r ∧
           c = 4096 * a + 64 * b + r ∧ 0 <= b < 64 ∧ 0 <= r < 64.
Proof.
  exists (c / 4096), ((c / 64) mod 64), (c mod 64).
  split_and!; try done; try (apply Z.mod_pos_bound; lia).
  Z.to_euclidean_division_equations. lia.
Qed.

Lemma split4 c :
  ∃ a b1 b2 r, c / 262144 = a ∧ (c / 4096) mod 64 = b1 ∧ (c / 64) mod 64 = b2 ∧
               c mod 64 = r ∧
               c = 262144 * a + 4096 * b1 + 64 * b2 + r ∧
               0 <= b1 < 64 ∧ 0 <= b2 < 64 ∧ 0 <= r < 64.
Proof.
  exists (c / 262144), ((c / 4096) mod 64), ((c / 64) mod 64), (c mod 64).
  split_and!; try done; try (apply Z.mod_pos_bound; lia).
  Z.to_euclidean_division_equations. lia.
Qed.

(** Decide the comparisons of the goal from the linear facts at hand. *)
Ltac decide_cmp :=
  repeat match goal with
  | |- context [?a <? ?b] =>
      first [ rewrite (proj2 (Z.ltb_lt a b)) by lia
            | rewrite (proj2 (Z.ltb_ge a b)) by lia ]
  | |- context [?a <=? ?b] =>
      first [ rewrite (proj2 (Z.leb_le a b)) by lia
            | rewrite (proj2 (Z.leb_gt a b)) by lia ]
  | |- context [?a =? ?b] =>
      first [ rewrite (proj2 (Z.eqb_eq a b)) by lia
            | rewrite (proj2 (Z.eqb_neq a b)) by lia ]
  end; cbn [andb orb negb].

Lemma utf8_decode_encode_char c b rest :
  Py.utf8_encode_char c = Ok b →
  Py.utf8_decode (b ++ rest) = (s ← Py.utf8_decode rest; Ok (c :: s)).
Proof.
  unfold Py.utf8_encode_char.
  destruct (Z.leb_spec 0 c); cbn [andb].
  2:{ decide_cmp. discriminate. }
  destruct (Z.ltb_spec c 0x80).
  { intros [= <-]. cbn [app Py.utf8_decode]. rewrite Z_of_byte_of_Z by lia.
    decide_cmp. done. }
  destruct (Z.ltb_spec c 0x800).
  { decide_cmp. intros [= <-].
    destruct (split2 c) as (q & r & -> & -> & Hc & Hr).
    cbn [app Py.utf8_decode]. unfold Py.is_cont, Py.low6.
    rewrite !Z_of_byte_of_Z by lia. decide_cmp.
    destruct (Py.utf8_decode rest); cbn; [|done]. do 2 f_equal. lia. }
  decide_cmp.
  destruct (Z.leb_spec 0xD800 c), (Z.leb_spec c 0xDFFF); cbn [andb];
    try discriminate; try (exfalso; lia).
  - (* above the surrogates *)
    destruct (Z.ltb_spec c 0x10000).
    + decide_cmp. intros [= <-].
      destruct (split3 c) as (a & b & r & -> & -> & -> & Hc & Hb & Hr).
      cbn [app Py.utf8_decode]. unfold Py.is_cont, Py.in_range, Py.low6.
      rewrite !Z_of_byte_of_Z by lia. decide_cmp.
      destruct (Py.utf8_decode rest); cbn; [|done]. do 2 f_equal. lia.
    + destruct (Z.leb_spec c 0x10FFFF).
      * decide_cmp. intros [= <-].
        destruct (split4 c) as (a & b1 & b2 & r & -> & -> & -> & -> & Hc & Hb1 & Hb2 & Hr).
        cbn [app Py.utf8_decode]. unfold Py.is_cont, Py.in_range, Py.low6.
        rewrite !Z_of_byte_of_Z by lia.
        destruct (Z.eqb_spec (240 + a) 240), (Z.eqb_spec (240 + a) 244); decide_cmp;
        (destruct (Py.utf8_decode rest); cbn; [|done]; do 2 f_equal; lia).
      * decide_cmp. discriminate.
  - (* below the surrogates *)
    decide_cmp. intros [= <-].
    destruct (split3 c) as (a & b & r & -> & -> & -> & Hc & Hb & Hr).
    cbn [app Py.utf8_decode]. unfold Py.is_cont, Py.in_range, Py.low6.
    rewrite !Z_of_byte_of_Z by lia.
    destruct (Z.eqb_spec (224 + a) 224), (Z.eqb_spec (224 + a) 237); decide_cmp;
    (destruct (Py.utf8_decode rest); cbn; [|done]; do 2 f_equal; lia).
Qed.

Lemma utf8_decode_encode s : ∀ bs,
  Py.utf8_encode s = Ok bs → Py.utf8_decode bs = Ok s.
Proof.
  induction s as [|c s IH]; intros bs; cbn.
  - by intros [= <-].
  - destruct (Py.utf8_encode_char c) as [b|] eqn:Hc; cbn; [|done].
    destruct (Py.utf8_encode s) as [bs'|] eqn:Hs; cbn; [|done].
    intros [= <-]. rewrite (utf8_decode_encode_char _ _ _ Hc).
    by rewrite (IH bs').
Qed.

End Utf8Facts.

(** ** The name field and the five fields of a block *)

Module PackFacts.
Import Utf8Facts.

Lemma byte_of_Z_nonzero z : 0 < z < 256 → byte_of_Z z ≠ x00.
Proof.
  intros Hz Heq. apply (f_equal Z_of_byte) in Heq.
  rewrite Z_of_byte_of_Z in Heq by lia. change (Z_of_byte x00) with 0 in Heq. lia.
Qed.

Lemma utf8_encode_char_no_nul c b :
  Py.utf8_encode_char c = Ok b → c ≠ 0 → x00 ∉ b.
Proof.
  unfold Py.utf8_encode_char. intros Hb Hc.
  assert (∀ l : list Z, Forall (fun z => 0 < z < 256) l → x00 ∉ map byte_of_Z l) as Hall.
  { intros l Hl Hin. apply list_elem_of_fmap in Hin as (z & Hz & Hin).
    rewrite Forall_forall in Hl. by apply (byte_of_Z_nonzero z (Hl z Hin)). }
  revert Hb.
  destruct (Z.leb_spec 0 c); cbn [andb]; [|decide_cmp; discriminate].
  destruct (Z.ltb_spec c 0x80).
  { intros [= <-]. apply (Hall [c]). repeat constructor; lia. }
  destruct (Z.ltb_spec c 0x800).
  { decide_cmp. intros [= <-].
    destruct (split2 c) as (q & r & -> & -> & Hq & Hr).
    apply (Hall [192 + q; 128 + r]). repeat constructor; lia. }
  decide_cmp.
  destruct (Z.leb_spec 0xD800 c), (Z.leb_spec c 0xDFFF); cbn [andb];
    try discriminate; try (exfalso; lia).
  - destruct (Z.ltb_spec c 0x10000).
    + decide_cmp. intros [= <-].
      destruct (split3 c) as (a & b' & r & -> & -> & -> & Hq & Hb & Hr).
      apply (Hall [224 + a; 128 + b'; 128 + r]). repeat constructor; lia.
    + destruct (Z.leb_spec c 0x10FFFF); decide_cmp; [|discriminate].
      intros [= <-].
      destruct (split4 c) as (a & b1 & b2 & r & -> & -> & -> & -> & Hq & Hb1 & Hb2 & Hr).
      apply (Hall [240 + a; 128 + b1; 128 + b2; 128 + r]). repeat constructor; lia.
  - decide_cmp. intros [= <-].
    destruct (split3 c) as (a & b' & r & -> & -> & -> & Hq & Hb & Hr).
    apply (Hall [224 + a; 128 + b'; 128 + r]). repeat constructor; lia.
Qed.

Lemma utf8_encode_no_nul s : ∀ bs,
  Py.utf8_encode s = Ok bs → 0 ∉ s → x00 ∉ bs.
Proof.
  induction s as [|c s IH]; intros bs; cbn.
  - intros [= <-] _. apply not_elem_of_nil.
  - destruct (Py.utf8_encode_char c) as [b|] eqn:Hc; cbn; [|done].
    destruct (Py.utf8_encode s) as [bs'|] eqn:Hs; cbn; [|done].
    intros [= <-] Hnot. apply not_elem_of_cons in Hnot as [Hc0 Hnot].
    rewrite not_elem_of_app. split.
    + apply (utf8_encode_char_no_nul c); [done|congruence].
    + by apply IH.
Qed.

Lemma before_nul_pad (bs : bytes) n :
  x00 ∉ bs → Py.before_nul (bs ++ replicate n x00) = bs.
Proof.
  induction bs as [|b bs IH]; intros Hnot.
  - simpl. by destruct n.
  - apply not_elem_of_cons in Hnot as [Hb Hnot]. simpl.
    rewrite decide_False by congruence. f_equal. by apply IH.
Qed.

Lemma before_nul_ljust width (bs : bytes) :
  x00 ∉ bs → Py.before_nul (Py.ljust width bs) = bs.
Proof. apply before_nul_pad. Qed.

Lemma land_mask_range z : 0 <= Z.land z 0xFFFFFFFF < 4294967296.
Proof.
  change 0xFFFFFFFF with (Z.ones 32). rewrite Z.land_ones by lia.
  apply Z.mod_pos_bound. lia.
Qed.

Lemma pack_u32_is_Ok z : 0 <= z < 4294967296 → ∃ bs, Py.pack_u32 z = Ok bs.
Proof. intros Hz. destruct (pack_u32_Ok z Hz) as (? & ? & ? & ? & -> & _). eauto. Qed.

Lemma pack_5u32_is_Ok len crc algo :
  0 <= len < 4294967296 → 0 <= crc < 4294967296 → 0 <= algo < 4294967296 →
  ∃ fields, Py.pack_5u32 1 0 len crc algo = Ok fields.
Proof.
  intros Hlen Hcrc Halgo. unfold Py.pack_5u32.
  destruct (pack_u32_is_Ok 1) as [b1 ->]; [lia|].
  destruct (pack_u32_is_Ok 0) as [b2 ->]; [lia|].
  destruct (pack_u32_is_Ok len Hlen) as [b3 ->].
  destruct (pack_u32_is_Ok crc Hcrc) as [b4 ->].
  destruct (pack_u32_is_Ok algo Halgo) as [b5 ->].
  cbn. eauto.
Qed.

End PackFacts.

(** ** What [pack_rch] writes for files *)

Module ArchiveFacts.
Import Utf8Facts PackFacts.

(** One input of [pack_rch]: the path and the content of the file, and what
    [pack_rch] computes from them on the way to the block. *)
Record item : Type := mkItem {
  it_path : str;
  it_data : bytes;
  it_fname : bytes;
  it_encoded : bytes;
  it_fields : bytes;
}.

Definition it_name (it : item) : str := Py.basename (it_path it).

Definition it_block (it : item) : bytes :=
  BLOCK_MAGIC ++ Py.ljust 40 (it_fname it) ++ it_fields it ++ it_encoded it.

Definition it_entry (self : handler) (it : item) : entry :=
  {| filename := Py.strip (it_name it);
     size := Z.of_nat (length (it_encoded it));
     crc32 := _calculate_crc32 self (it_data it) (it_encoded it);
     encoding := get_encoding_name (encoding_algorithm self);
     crc_passed := true;
     timestamp := 0;
     status := Packed |}.

Section Archive.

Variable bz2_compress : Z → bytes → bytes.
Variable bz2_decompress : bytes → option bytes.

(** The computed parts of an item are those the handler computes. *)
Record item_built (self : handler) (it : item) : Prop := {
  built_fname : Py.utf8_encode (it_name it) = Ok (it_fname it);
  built_short : (length (it_fname it) <= 40)%nat;
  built_no_nul : x00 ∉ it_fname it;
  built_encoded : encode_file_data bz2_compress self (it_data it) = Ok (it_encoded it);
  built_fields :
    Py.pack_5u32 1 0 (Z.of_nat (length (it_encoded it)))
      (_calculate_crc32 self (it_data it) (it_encoded it))
      (encoding_algorithm self) = Ok (it_fields it);
}.

(** The item is a file of the world, other than the archive being written. *)
Record item_file (w : world) (output_filename : str) (it : item) : Prop := {
  file_not_stdin : it_path it ≠ dash;
  file_not_output : it_path it ≠ output_filename;
  file_content : files w !! it_path it = Some (it_data it);
}.

Lemma item_name_decodes self it :
  item_built self it → Py.utf8_decode (it_fname it) = Ok (it_name it).
Proof. intros H. apply utf8_decode_encode, H. Qed.

Lemma item_write_file_block self it :
  item_built self it →
  _write_file_block bz2_compress self (it_fname it) (it_data it)
  = (it_block it, Ok (it_entry self it)).
Proof.
  intros H. unfold _write_file_block.
  rewrite (item_name_decodes self it H), (built_encoded _ _ H).
  unfold write_block_to_file. rewrite (built_fields _ _ H). cbn.
  unfold it_block. by rewrite <- ?app_assoc.
Qed.

Lemma item_is_block self it : item_built self it → is_block (it_name it) (it_block it).
Proof.
  intros H.
  exists (Py.ljust 40 (it_fname it)), (it_fields it), (it_encoded it), 1, 0,
    (_calculate_crc32 self (it_data it) (it_encoded it)), (encoding_algorithm self).
  split_and!.
  - done.
  - rewrite ljust_length. pose proof (built_short _ _ H). lia.
  - rewrite before_nul_ljust by apply H. by apply (item_name_decodes self).
  - apply H.
Qed.

(** Appending to the archive file. *)
Definition append_blocks (output_filename : str) (items : list item) (w : world) : world :=
  foldl (fun w it => write_to output_filename (it_block it) w) w items.

Lemma write_to_other out data w p :
  p ≠ out → files (write_to out data w) !! p = files w !! p.
Proof.
  intros Hp. unfold write_to. case_decide; [done|]. cbn.
  by rewrite lookup_insert_ne.
Qed.

Lemma item_file_write_to w out data it :
  item_file w out it → item_file (write_to out data w) out it.
Proof.
  intros [H1 H2 H3]. split; [done..|]. by rewrite write_to_other.
Qed.

Lemma pack_loop_items self out stdin_filename items : ∀ w results,
  Forall (item_built self) items →
  Forall (item_file w out) items →
  pack_loop bz2_compress self out stdin_filename (map it_path items) w results
  = (append_blocks out items w, Ok (results ++ map (it_entry self) items)).
Proof.
  induction items as [|it items IH]; intros w results Hbuilt Hfile.
  - cbn. by rewrite app_nil_r.
  - apply Forall_cons in Hbuilt as [Hb Hbuilt].
    apply Forall_cons in Hfile as [Hf Hfile].
    cbn [map pack_loop]. unfold read_input_file.
    rewrite decide_False by apply Hf. rewrite (file_content _ _ _ Hf).
    rewrite decide_False by apply Hf.
    fold (it_name it). rewrite (built_fname _ _ Hb).
    rewrite (item_write_file_block self it Hb).
    rewrite IH; [|done|].
    + cbn. by rewrite <- app_assoc.
    + eapply Forall_impl; [exact Hfile|]. intros it'. apply item_file_write_to.
Qed.

Lemma append_blocks_files out items : ∀ w content,
  out ≠ dash →
  files w !! out = Some content →
  append_blocks out items w
  = {| files := <[out := content ++ concat (map it_block items)]> (files w);
       stdin := stdin w; stdout := stdout w |}.
Proof.
  induction items as [|it items IH]; intros w content Hout Hfile.
  - cbn. rewrite app_nil_r, insert_id by done. by destruct w.
  - cbn [append_blocks foldl].
    fold (append_blocks out items (write_to out (it_block it) w)).
    rewrite (IH _ (content ++ it_block it)); [|done|].
    + unfold write_to. rewrite decide_False by done. cbn.
      rewrite Hfile. cbn. rewrite insert_insert_eq. by rewrite <- app_assoc.
    + unfold write_to. rewrite decide_False by done. cbn.
      rewrite Hfile. cbn. by rewrite lookup_insert_eq.
Qed.

(** The archive [pack_rch] writes for files. *)
Definition packed_archive (items : list item) : bytes :=
  archive_bytes rch_header (map (fun it => (it_name it, it_block it)) items).

Lemma packed_archive_eq items :
  packed_archive items = rch_header ++ concat (map it_block items).
Proof.
  unfold packed_archive, archive_bytes. f_equal. f_equal.
  rewrite map_map. done.
Qed.

Lemma new_archive_world w out :
  out ≠ dash →
  write_to out rch_header (open_for_write out false w)
  = {| files := <[out := rch_header]> (files w); stdin := stdin w; stdout := stdout w |}.
Proof.
  intros Hout. unfold write_to, open_for_write. rewrite !decide_False by done.
  cbn [files stdin stdout]. rewrite lookup_insert_eq. cbn [default from_option id].
  by rewrite insert_insert_eq.
Qed.

Lemma pack_rch_items self w out stdin_filename items :
  out ≠ dash →
  Forall (item_built self) items →
  Forall (item_file w out) items →
  pack_rch bz2_compress self w out (map it_path items) false stdin_filename
  = ({| files := <[out := packed_archive items]> (files w);
        stdin := stdin w; stdout := stdout w |},
     Ok (map (it_entry self) items)).
Proof.
  intros Hout Hbuilt Hfile. unfold pack_rch. rewrite (new_archive_world w out Hout).
  rewrite pack_loop_items; [|done|].
  - rewrite (append_blocks_files out items _ rch_header Hout)
      by (cbn [files]; apply lookup_insert_eq).
    cbn [files stdin stdout]. rewrite insert_insert_eq.
    by rewrite packed_archive_eq.
  - eapply Forall_impl; [exact Hfile|]. intros it [H1 H2 H3].
    split; [done..|]. cbn [files]. by rewrite lookup_insert_ne.
Qed.

Lemma packed_blocks_wf self items :
  Forall (item_built self) items →
  Forall (fun nb => is_block nb.1 nb.2)
    (map (fun it => (it_name it, it_block it)) items).
Proof.
  intros H. apply Forall_fmap. eapply Forall_impl; [exact H|].
  intros it Hit. by apply (item_is_block self).
Qed.

End Archive.

End ArchiveFacts.

(** ** Scanning what [pack_rch] wrote *)

Module ScanFacts.
Import Utf8Facts PackFacts ArchiveFacts.

Section Scan.

Variable bz2_compress : Z → bytes → bytes.
Variable bz2_decompress : bytes → option bytes.

Abbreviation item_built := (item_built bz2_compress).

Definition item_decodes (self : handler) (it : item) : Prop :=
  decode_data bz2_decompress (it_encoded it) (encoding_algorithm self) = Ok (it_data it).

Lemma item_read self it rest :
  item_built self it →
  read_file_block_header (it_block it ++ rest)
  = Ok (it_name it, Z.of_nat (length (it_encoded it)),
        _calculate_crc32 self (it_data it) (it_encoded it),
        encoding_algorithm self, 0, it_encoded it ++ rest).
Proof.
  intros H. pose proof (built_fields _ _ _ H) as Hpack.
  apply pack_5u32_Ok in Hpack as [Hunpack _].
  pose proof (unpack_5u32_length _ _ Hunpack) as Hfields.
  assert (length (Py.ljust 40 (it_fname it)) = 40%nat) as Hfield.
  { rewrite ljust_length. pose proof (built_short _ _ _ H). lia. }
  unfold read_file_block_header, it_block. rewrite <- !app_assoc.
  rewrite (read_app_nat 2 BLOCK_MAGIC) by done.
  rewrite decide_True by done.
  rewrite (read_app_nat 40 (Py.ljust 40 (it_fname it))) by done.
  rewrite before_nul_ljust by apply H.
  rewrite (item_name_decodes _ self it H). cbn [mbind result_bind].
  change (4 * 5) with (Z.of_nat 20).
  rewrite (read_app_nat 20 (it_fields it)) by done.
  rewrite Hunpack. done.
Qed.

Lemma item_name_length self it : item_built self it → (length (it_name it) <= 40)%nat.
Proof.
  intros H. pose proof (item_name_decodes _ self it H) as Hdec.
  apply PyFacts.utf8_decode_length in Hdec. pose proof (built_short _ _ _ H). lia.
Qed.

Lemma basename_idem (p : str) : Py.basename (Py.basename p) = Py.basename p.
Proof.
  destruct (PyFacts.basename_spec (Py.basename p)) as [[_ ->]|(dir & last & Heq & _)];
    [done|].
  pose proof (PyFacts.basename_no_sep p) as Hno. rewrite Heq in Hno.
  destruct Hno. apply elem_of_app. right. by left.
Qed.

Lemma item_sanitize self it :
  item_built self it → _sanitize_filename (it_name it) = it_name it.
Proof.
  intros H. pose proof (item_name_length self it H) as Hlen.
  rewrite sanitize_short.
  - apply basename_idem.
  - unfold it_name in *. rewrite basename_idem. lia.
Qed.

Lemma item_crc_basis self it :
  _calculate_crc32 self (it_data it) (it_encoded it)
  = Z.land (Py.crc32 (crc_basis (encoding_algorithm self) (it_data it) (it_encoded it)))
      0xFFFFFFFF.
Proof. unfold _calculate_crc32, crc_basis. by case_decide. Qed.

(** The result record [unpack_rch] and [check_rch] give for an item. *)
Definition it_result (self : handler) (status : status_name) (it : item) : entry :=
  _create_result_entry (it_name it) (Z.of_nat (length (it_encoded it)))
    (_calculate_crc32 self (it_data it) (it_encoded it))
    (encoding_algorithm self) true 0 status.

Definition chosen (filenames : option (list str)) (items : list item) : list item :=
  filter (fun it => selected filenames (it_name it) = true) items.

Definition write_items (output_directory : str) (items : list item) (w : world) : world :=
  foldl (fun w it => _write_output output_directory (it_name it) (it_data it) w) w items.

Lemma unpack_loop_items self reader output_directory filenames items :
  ∀ fuel w results,
  (length items < fuel)%nat →
  Forall (item_built self) items →
  Forall (item_decodes self) items →
  unpack_loop bz2_decompress fuel reader output_directory filenames
    (concat (map it_block items)) w results
  = Some (write_items output_directory (chosen filenames items) w,
          Ok (results ++ map (it_result self Unpacked) (chosen filenames items))).
Proof.
  induction items as [|it items IH]; intros fuel w results Hfuel Hbuilt Hdec.
  - destruct fuel; [simpl in Hfuel; lia|]. cbn. by rewrite app_nil_r.
  - destruct fuel; [simpl in Hfuel; lia|].
    apply Forall_cons in Hbuilt as [Hb Hbuilt].
    apply Forall_cons in Hdec as [Hd Hdec].
    cbn [map concat]. unfold chosen. rewrite filter_cons.
    fold (chosen filenames items).
    pose proof (item_read self it (concat (map it_block items)) Hb) as Hhdr.
    destruct (decide (selected filenames (it_name it) = true)) as [Hsel|Hsel].
    + rewrite (unpack_loop_step bz2_decompress fuel reader output_directory filenames
                 _ w results _ _ _ _ _ _ Hhdr Hsel).
      cbn zeta. rewrite Nat2Z.id, take_app_length, drop_app_length.
      unfold item_decodes in Hd. rewrite Hd.
      rewrite decide_True by apply item_crc_basis.
      rewrite (item_sanitize self it Hb).
      rewrite IH by (done || simpl in Hfuel; lia).
      cbn [write_items foldl map]. by rewrite <- app_assoc.
    + apply not_true_is_false in Hsel.
      cbn [unpack_loop]. rewrite Hhdr. unfold Py.read.
      rewrite Nat2Z.id, take_app_length, drop_app_length. rewrite Hsel.
      by rewrite IH by (done || simpl in Hfuel; lia).
Qed.

Lemma item_verdict self it :
  item_built self it → item_decodes self it →
  crc_verdict bz2_decompress (it_encoded it) (encoding_algorithm self)
    (_calculate_crc32 self (it_data it) (it_encoded it)) = true.
Proof.
  intros Hb Hd. unfold crc_verdict. rewrite _verify_crc_spec.
  unfold item_decodes in Hd. rewrite Hd. rewrite item_crc_basis. unfold crc_basis.
  case_decide; by rewrite decide_True.
Qed.

Lemma check_loop_items self items : ∀ fuel results,
  (length items < fuel)%nat →
  Forall (item_built self) items →
  Forall (item_decodes self) items →
  check_loop bz2_decompress fuel (concat (map it_block items)) results
  = Some (Ok (results ++ map (it_result self Checked) items)).
Proof.
  induction items as [|it items IH]; intros fuel results Hfuel Hbuilt Hdec.
  - destruct fuel; [simpl in Hfuel; lia|]. cbn. by rewrite app_nil_r.
  - destruct fuel; [simpl in Hfuel; lia|].
    apply Forall_cons in Hbuilt as [Hb Hbuilt].
    apply Forall_cons in Hdec as [Hd Hdec].
    cbn [map concat].
    rewrite (check_loop_step bz2_decompress fuel _ results _ _ _ _ _ _
               (item_read self it (concat (map it_block items)) Hb)).
    rewrite Nat2Z.id, take_app_length, drop_app_length.
    rewrite (item_verdict self it Hb Hd), (item_sanitize self it Hb).
    rewrite IH by (done || simpl in Hfuel; lia).
    by rewrite <- app_assoc.
Qed.

Lemma items_fuel self items :
  Forall (item_built self) items →
  (length items < S (length (concat (map it_block items))))%nat.
Proof.
  intros H. pose proof (blocks_length _ (packed_blocks_wf _ self items H)) as Hlen.
  rewrite length_map in Hlen.
  replace (map snd (map (fun it => (it_name it, it_block it)) items))
    with (map it_block items) in Hlen by (by rewrite map_map).
  lia.
Qed.

Lemma read_rch_header_written rest : read_rch_header (rch_header ++ rest) = Ok rest.
Proof. reflexivity. Qed.

Lemma unpack_rch_items self reader w out output_directory filenames items :
  out ≠ dash →
  files w !! out = Some (packed_archive items) →
  Forall (item_built self) items →
  Forall (item_decodes self) items →
  unpack_rch bz2_decompress reader w out output_directory filenames
  = Some (write_items output_directory (chosen filenames items) w,
          Ok (map (it_result self Unpacked) (chosen filenames items))).
Proof.
  intros Hout Hfile Hbuilt Hdec. unfold unpack_rch, open_archive.
  rewrite decide_False by done. rewrite Hfile, packed_archive_eq.
  cbn [mbind result_bind]. rewrite read_rch_header_written.
  rewrite (unpack_loop_items self) by (done || by apply (items_fuel self)). done.
Qed.

Lemma check_rch_items self w out items :
  out ≠ dash →
  files w !! out = Some (packed_archive items) →
  Forall (item_built self) items →
  Forall (item_decodes self) items →
  check_rch bz2_decompress w out = Some (Ok (map (it_result self Checked) items)).
Proof.
  intros Hout Hfile Hbuilt Hdec. unfold check_rch, open_archive.
  rewrite decide_False by done. rewrite Hfile, packed_archive_eq.
  cbn [mbind result_bind]. rewrite read_rch_header_written.
  rewrite (check_loop_items self) by (done || by apply (items_fuel self)). done.
Qed.

End Scan.

End ScanFacts.

(** ** The inputs the format holds *)

Module InputFacts.
Import Utf8Facts PackFacts ArchiveFacts ScanFacts LZWSize.

(** A handler whose algorithm is one of the three, with a level the
    external compressor accepts when it is the one used. *)
Definition usable (self : handler) : Prop :=
  encoding_algorithm self = ENCODING_XOR255_LZW ∨
  encoding_algorithm self = ENCODING_XOR255 ∨
  (encoding_algorithm self = ENCODING_BZIP2 ∧ 1 <= compression_level self <= 9).

(** The dictionary coder does not give back an empty content. *)
Definition restorable (self : handler) (input : str * bytes) : Prop :=
  encoding_algorithm self = ENCODING_XOR255_LZW → input.2 ≠ [].

Section Inputs.

Variable bz2_compress : Z → bytes → bytes.
Variable bz2_decompress : bytes → option bytes.

(** An input of [pack_rch] that the format holds: a file of the world
    other than the archive, whose base name fits the name field and has no
    NUL character, and whose encoded content has a length that fits 32
    bits. *)
Definition storable (self : handler) (w : world) (output_filename : str)
    (input : str * bytes) : Prop :=
  input.1 ≠ dash ∧
  input.1 ≠ output_filename ∧
  files w !! input.1 = Some input.2 ∧
  (∃ fname, Py.utf8_encode (Py.basename input.1) = Ok fname ∧ (length fname <= 40)%nat) ∧
  (0 ∉ Py.basename input.1) ∧
  (∀ encoded, encode_file_data bz2_compress self input.2 = Ok encoded →
              Z.of_nat (length encoded) < 4294967296).

Lemma usable_encodes self data :
  usable self → ∃ encoded, encode_file_data bz2_compress self data = Ok encoded.
Proof.
  unfold encode_file_data. intros [Halg|[Halg|[Halg Hlevel]]]; rewrite Halg.
  - destruct (encode_total (xor255 data)) as (e & bs & _ & _ & _ & Henc & _). eauto.
  - cbn. eauto.
  - rewrite !decide_True by done. eauto.
Qed.

Lemma build_item_of self path data fname :
  usable self →
  Py.utf8_encode (Py.basename path) = Ok fname →
  (length fname <= 40)%nat →
  0 ∉ Py.basename path →
  (∀ encoded, encode_file_data bz2_compress self data = Ok encoded →
              Z.of_nat (length encoded) < 4294967296) →
  ∃ it, it_path it = path ∧ it_data it = data ∧ item_built bz2_compress self it.
Proof.
  intros Hself Hfname Hshort Hnul Hlen.
  destruct (usable_encodes self data Hself) as (encoded & Henc).
  destruct (pack_5u32_is_Ok (Z.of_nat (length encoded))
              (_calculate_crc32 self data encoded) (encoding_algorithm self))
    as [fields Hfields].
  - split; [lia|]. by apply Hlen.
  - unfold _calculate_crc32. case_decide; apply land_mask_range.
  - destruct Hself as [->|[->|[-> _]]]; done.
  - exists (mkItem path data fname encoded fields). split_and!; [done|done|split]; try done.
    by apply (utf8_encode_no_nul (Py.basename path)).
Qed.

Lemma build_item self w out input :
  usable self →
  storable self w out input →
  ∃ it, (it_path it, it_data it) = input ∧
        item_built bz2_compress self it ∧
        item_file w out it.
Proof.
  intros Hself (Hdash & Hout & Hfile & (fname & Hfname & Hshort) & Hnul & Hlen).
  destruct (build_item_of self input.1 input.2 fname Hself Hfname Hshort Hnul Hlen)
    as (it & Hp & Hd & Hbuilt).
  exists it. split_and!.
  - rewrite Hp, Hd. by destruct input.
  - done.
  - split; by rewrite ?Hp, ?Hd.
Qed.

Lemma build_items self w out inputs :
  usable self →
  Forall (storable self w out) inputs →
  ∃ items, map (fun it => (it_path it, it_data it)) items = inputs ∧
           Forall (item_built bz2_compress self) items ∧
           Forall (item_file w out) items.
Proof.
  intros Hself. induction 1 as [|input inputs Hin _ (items & <- & Hb & Hf)].
  - by exists [].
  - destruct (build_item self w out input Hself Hin) as (it & <- & Hb' & Hf').
    exists (it :: items). split_and!; [done|by constructor..].
Qed.

Hypothesis bz2_roundtrip : ∀ level data,
  1 <= level <= 9 → bz2_decompress (bz2_compress level data) = Some data.

Lemma usable_roundtrip self data :
  usable self →
  (encoding_algorithm self = ENCODING_XOR255_LZW → data ≠ []) →
  ∃ encoded, encode_file_data bz2_compress self data = Ok encoded ∧
             decode_data bz2_decompress encoded (encoding_algorithm self) = Ok data.
Proof.
  intros [Halg|[Halg|[Halg Hlevel]]] Hne; rewrite Halg.
  - by apply roundtrip_xor255_lzw; [|apply Hne].
  - by apply roundtrip_xor255.
  - by apply roundtrip_bzip2.
Qed.

Lemma items_decode self items :
  usable self →
  Forall (item_built bz2_compress self) items →
  Forall (restorable self) (map (fun it => (it_path it, it_data it)) items) →
  Forall (item_decodes bz2_decompress self) items.
Proof.
  intros Hself Hbuilt Hne. rewrite Forall_fmap in Hne.
  rewrite Forall_forall in Hbuilt, Hne. apply Forall_forall. intros it Hit.
  destruct (usable_roundtrip self (it_data it) Hself (Hne it Hit)) as (enc & Henc & Hdec).
  pose proof (built_encoded _ _ _ (Hbuilt it Hit)) as Henc'.
  rewrite Henc in Henc'. injection Henc' as ->. done.
Qed.

End Inputs.

Lemma items_paths items inputs :
  map (fun it => (it_path it, it_data it)) items = inputs →
  map it_path items = map fst inputs.
Proof. intros <-. by rewrite map_map. Qed.


End InputFacts.

(** ** Blocks followed by other bytes *)

Module TailFacts.

(** What a block gives to a scan is the same whatever follows it. *)
Lemma is_block_reads name bs :
  is_block name bs →
  ∃ fsize crc algo ts payload,
    fsize = Z.of_nat (length payload) ∧
    ∀ rest,
      read_file_block_header (bs ++ rest)
      = Ok (name, fsize, crc, algo, ts, payload ++ rest) ∧
      Py.read (2 + 40 + 4 * 5 + fsize) (bs ++ rest) = (bs, rest).
Proof.
  intros (field & fields & payload & version & reserved & crc & algo
          & -> & Hfield & Hname & Hpack).
  apply pack_5u32_Ok in Hpack as [Hunpack Hlen].
  pose proof (unpack_5u32_length _ _ Hunpack) as Hfields.
  exists (Z.of_nat (length payload)), crc, algo, reserved, payload.
  split; [done|]. intros rest. split.
  - unfold read_file_block_header.
    rewrite <- !app_assoc.
    rewrite (read_app_nat 2 BLOCK_MAGIC) by done.
    rewrite decide_True by done.
    rewrite (read_app_nat 40 field) by done.
    rewrite Hname. simpl. change (Z.to_nat 20) with 20%nat.
    rewrite take_app_length', drop_app_length' by done.
    rewrite Hunpack. done.
  - replace (2 + 40 + 4 * 5 + Z.of_nat (length payload))
      with (Z.of_nat (length (BLOCK_MAGIC ++ field ++ fields ++ payload))).
    + apply read_app.
    + rewrite !length_app, Hfield, Hfields. simpl. lia.
Qed.

Section Tails.

Variable bz2_decompress : bytes → option bytes.

Lemma unpack_loop_block name bs self output_directory filenames w results :
  is_block name bs →
  ∃ w1 results1,
    ∀ fuel rest,
      unpack_loop bz2_decompress (S fuel) self output_directory filenames
        (bs ++ rest) w results
      = unpack_loop bz2_decompress fuel self output_directory filenames rest w1 results1.
Proof.
  intros (fsize & crc & algo & ts & payload & -> & Hrd)%is_block_reads.
  destruct (selected filenames name) eqn:Hsel.
  - destruct (_process_file_data bz2_decompress payload algo crc)
      as [[out valid]|e] eqn:Hp.
    + destruct (negb valid && negb (force self)) eqn:Hv.
      * eexists _, _. intros fuel rest. destruct (Hrd rest) as [Hhdr _].
        cbn [unpack_loop]. rewrite Hhdr, read_app, Hsel, Hp, Hv. reflexivity.
      * eexists _, _. intros fuel rest. destruct (Hrd rest) as [Hhdr _].
        cbn [unpack_loop]. rewrite Hhdr, read_app, Hsel, Hp, Hv. reflexivity.
    + pose proof (_process_file_data_Err _ _ _ _ _ Hp) as ->.
      eexists _, _. intros fuel rest. destruct (Hrd rest) as [Hhdr _].
      cbn [unpack_loop]. rewrite Hhdr, read_app, Hsel, Hp. reflexivity.
  - exists w, results. intros fuel rest. destruct (Hrd rest) as [Hhdr _].
    cbn [unpack_loop]. rewrite Hhdr, read_app, Hsel. reflexivity.
Qed.

Lemma unpack_loop_prefix blocks self output_directory filenames :
  Forall (fun nb => is_block nb.1 nb.2) blocks →
  ∀ w results,
  ∃ w1 results1,
    ∀ fuel tail,
      (length blocks < fuel)%nat →
      unpack_loop bz2_decompress fuel self output_directory filenames
        (concat (map snd blocks) ++ tail) w results
      = unpack_loop bz2_decompress (fuel - length blocks) self output_directory
          filenames tail w1 results1.
Proof.
  induction 1 as [|[name bs] blocks Hb _ IH]; intros w results.
  - exists w, results. intros fuel tail _. cbn. by rewrite Nat.sub_0_r.
  - destruct (unpack_loop_block name bs self output_directory filenames w results Hb)
      as (w1 & results1 & Hstep).
    destruct (IH w1 results1) as (w2 & results2 & Hrest).
    exists w2, results2. intros fuel tail Hfuel.
    destruct fuel as [|fuel]; [simpl in Hfuel; lia|].
    cbn [map snd concat]. rewrite <- app_assoc, Hstep.
    rewrite Hrest by (simpl in Hfuel; lia). done.
Qed.

Lemma check_loop_prefix blocks :
  Forall (fun nb => is_block nb.1 nb.2) blocks →
  ∀ results,
  ∃ results1,
    ∀ fuel tail,
      (length blocks < fuel)%nat →
      check_loop bz2_decompress fuel (concat (map snd blocks) ++ tail) results
      = check_loop bz2_decompress (fuel - length blocks) tail results1.
Proof.
  induction 1 as [|[name bs] blocks Hb _ IH]; intros results.
  - exists results. intros fuel tail _. cbn. by rewrite Nat.sub_0_r.
  - simpl in Hb.
    apply is_block_reads in Hb as (fsize & crc & algo & ts & payload & -> & Hrd).
    destruct (IH (results ++ [_create_result_entry (_sanitize_filename name)
                                (Z.of_nat (length payload)) crc algo
                                (crc_verdict bz2_decompress payload algo crc) ts Checked]))
      as (results2 & Hrest).
    exists results2. intros fuel tail Hfuel.
    destruct fuel as [|fuel]; [simpl in Hfuel; lia|].
    cbn [map snd concat]. rewrite <- app_assoc.
    destruct (Hrd (concat (map snd blocks) ++ tail)) as [Hhdr _].
    rewrite (check_loop_step bz2_decompress fuel _ results _ _ _ _ _ _ Hhdr).
    rewrite Nat2Z.id, take_app_length, drop_app_length.
    rewrite Hrest by (simpl in Hfuel; lia). done.
Qed.

End Tails.

Lemma detract_loop_prefix file_to_remove blocks : ∀ fuel tail temp_file file_removed,
  Forall (fun nb => is_block nb.1 nb.2) blocks →
  (length blocks < fuel)%nat →
  detract_loop fuel file_to_remove (concat (map snd blocks) ++ tail) temp_file file_removed
  = detract_loop (fuel - length blocks) file_to_remove tail
      (temp_file ++ concat (map snd (keep file_to_remove blocks)))
      (file_removed || bool_decide (file_to_remove ∈ map fst blocks)).
Proof.
  induction blocks as [|[name bs] blocks IH]; intros fuel tail temp removed Hall Hfuel.
  - cbn. by rewrite Nat.sub_0_r, app_nil_r, orb_false_r.
  - destruct fuel; [simpl in Hfuel; lia|].
    apply Forall_cons in Hall as [Hblock Hall]. simpl in Hblock.
    apply is_block_reads in Hblock as (fsize & crc & algo & ts & payload & -> & Hrd).
    destruct (Hrd (concat (map snd blocks) ++ tail)) as [Hhdr Hread].
    cbn [map snd concat]. rewrite <- app_assoc.
    cbn [detract_loop]. rewrite Hhdr.
    rewrite read_app. unfold keep. rewrite filter_cons.
    change ((name, bs).1) with name.
    destruct (decide (name ≠ file_to_remove)) as [Hname|Hname].
    + rewrite Hread. cbn [map snd concat].
      rewrite IH by (done || simpl in Hfuel; lia).
      rewrite <- app_assoc. cbn [length Nat.sub]. do 2 f_equal. apply bool_decide_ext.
      rewrite elem_of_cons. split; [by right|]. by intros [->|?].
    + apply dec_stable in Hname. subst name.
      rewrite IH by (done || simpl in Hfuel; lia).
      cbn [length Nat.sub]. f_equal. rewrite orb_true_l.
      rewrite bool_decide_true by (apply elem_of_cons; by left).
      by rewrite orb_true_r.
Qed.

(** What ends a scan without an exception: bytes that do not start with the
    block magic, or a name field that is not UTF-8. *)
Definition ends_scan (tail : bytes) : Prop :=
  take 2 tail ≠ BLOCK_MAGIC ∨
  ∃ rest e, tail = BLOCK_MAGIC ++ rest ∧
            Py.utf8_decode (Py.before_nul (take 40 rest)) = Err e.

Lemma utf8_decode_Err_le n : ∀ bs e,
  (length bs <= n)%nat → Py.utf8_decode bs = Err e → e = UnicodeDecodeError.
Proof.
  induction n as [|n IH]; intros bs e Hlen H.
  - destruct bs; [done|simpl in Hlen; lia].
  - destruct bs as [|b0 r0]; [done|]. cbn [Py.utf8_decode] in H. cbn zeta in H.
    repeat match type of H with
    | (_ ← Py.utf8_decode ?r; _) = _ =>
        let E := fresh "E" in
        destruct (Py.utf8_decode r) as [?|?] eqn:E; cbn in H;
        [discriminate|injection H as <-; apply (IH r); [simpl in *; lia|exact E]]
    | Err _ = Err _ => by injection H as <-
    | (if ?c then _ else _) = _ => destruct c
    | match ?r with _ => _ end = _ => destruct r
    end.
Qed.

Lemma utf8_decode_Err bs e : Py.utf8_decode bs = Err e → e = UnicodeDecodeError.
Proof. by apply (utf8_decode_Err_le (length bs)). Qed.

Lemma ends_scan_header tail :
  ends_scan tail → ∃ e, read_file_block_header tail = Err e ∧ is_ValueError e = true.
Proof.
  intros [Hmagic|(rest & e & -> & Hname)]; unfold read_file_block_header.
  - unfold Py.read. change (Z.to_nat 2) with 2%nat.
    rewrite decide_False by done. by exists ValueError.
  - rewrite (read_app_nat 2 BLOCK_MAGIC) by done. rewrite decide_True by done.
    unfold Py.read at 1. change (Z.to_nat 40) with 40%nat. rewrite Hname.
    apply utf8_decode_Err in Hname as ->. by exists UnicodeDecodeError.
Qed.

Lemma unpack_5u32_Err raw e : Py.unpack_5u32 raw = Err e → e = StructError.
Proof.
  unfold Py.unpack_5u32.
  do 21 (destruct raw as [|? raw]; try by intros [= <-]).
Qed.

(** A block header cut short: the magic, a name field that decodes, and
    fewer bytes than the five fields take. *)
Definition cut_header (tail : bytes) : Prop :=
  ∃ rest name, tail = BLOCK_MAGIC ++ rest ∧ (length rest < 60)%nat ∧
               Py.utf8_decode (Py.before_nul (take 40 rest)) = Ok name.

Lemma cut_header_header tail :
  cut_header tail → read_file_block_header tail = Err StructError.
Proof.
  intros (rest & name & -> & Hlen & Hname). unfold read_file_block_header.
  rewrite (read_app_nat 2 BLOCK_MAGIC) by done. rewrite decide_True by done.
  unfold Py.read. change (Z.to_nat 40) with 40%nat. rewrite Hname.
  cbn [mbind result_bind]. change (Z.to_nat (4 * 5)) with 20%nat.
  assert (length (take 20 (drop 40 rest)) < 20)%nat as Hshort
    by (rewrite length_take, length_drop; lia).
  destruct (Py.unpack_5u32 (take 20 (drop 40 rest))) as [t|e] eqn:Hu.
  - apply unpack_5u32_length in Hu. lia.
  - by apply unpack_5u32_Err in Hu as ->.
Qed.

End TailFacts.

(** ** The loop of [pack_rch] on any inputs *)

Module PackLoopFacts.

Section PackLoop.

Variable bz2_compress : Z → bytes → bytes.
Variable self : handler.
Variable output_filename stdin_filename : str.

Abbreviation pack_loop := (pack_loop bz2_compress self output_filename stdin_filename).

(** What one input does to the world and to the results. *)
Lemma pack_loop_cons input_file rest w results :
  pack_loop (input_file :: rest) w results
  = match pack_loop [input_file] w results with
    | (w1, Ok results1) => pack_loop rest w1 results1
    | (w1, Err e) => (w1, Err e)
    end.
Proof.
  cbn [RCH.pack_loop].
  destruct (read_input_file w input_file) as [w0 [file_data|e]]; [|done].
  destruct (Py.utf8_encode _) as [filename|e]; [|done].
  destruct (_write_file_block _ _ _ _) as [written [result|e]]; done.
Qed.

Lemma pack_loop_app l1 : ∀ l2 w results,
  pack_loop (l1 ++ l2) w results
  = match pack_loop l1 w results with
    | (w1, Ok results1) => pack_loop l2 w1 results1
    | (w1, Err e) => (w1, Err e)
    end.
Proof.
  induction l1 as [|input_file l1 IH]; intros l2 w results; [done|].
  rewrite <- app_comm_cons, pack_loop_cons, (pack_loop_cons input_file l1).
  destruct (pack_loop [input_file] w results) as [w1 [results1|e]]; [|done].
  apply IH.
Qed.


(** The files other than the archive are left as they are, the archive is
    only ever extended, and the standard output is only written when it is
    the archive. *)
Lemma read_input_file_files w input_file :
  files (read_input_file w input_file).1 = files w ∧
  stdout (read_input_file w input_file).1 = stdout w ∧
  (input_file ≠ dash → stdin (read_input_file w input_file).1 = stdin w).
Proof.
  unfold read_input_file. case_decide; [done|].
  by destruct (files w !! input_file).
Qed.

Lemma write_to_frame data w :
  (∀ p, p ≠ output_filename →
        files (write_to output_filename data w) !! p = files w !! p) ∧
  stdin (write_to output_filename data w) = stdin w ∧
  (output_filename ≠ dash → stdout (write_to output_filename data w) = stdout w) ∧
  (output_filename = dash → files (write_to output_filename data w) = files w) ∧
  (output_filename ≠ dash → ∀ content,
     files w !! output_filename = Some content →
     files (write_to output_filename data w) !! output_filename = Some (content ++ data)).
Proof.
  unfold write_to. case_decide; cbn [files stdin stdout]; split_and!; try done.
  - intros p Hp. by rewrite lookup_insert_ne.
  - intros _ content ->. by rewrite lookup_insert_eq.
Qed.

Lemma pack_loop_frame l : ∀ w results,
  (∀ p, p ≠ output_filename → files (pack_loop l w results).1 !! p = files w !! p) ∧
  (output_filename ≠ dash → stdout (pack_loop l w results).1 = stdout w) ∧
  (output_filename = dash → files (pack_loop l w results).1 = files w) ∧
  (dash ∉ l → stdin (pack_loop l w results).1 = stdin w) ∧
  (output_filename ≠ dash → ∀ content,
     files w !! output_filename = Some content →
     ∃ written, files (pack_loop l w results).1 !! output_filename
                = Some (content ++ written)).
Proof.
  induction l as [|input_file l IH]; intros w results.
  - cbn. split_and!; try done. intros _ content ->. exists []. by rewrite app_nil_r.
  - cbn [RCH.pack_loop].
    destruct (read_input_file_files w input_file) as (Hf & Ho & Hi).
    destruct (read_input_file w input_file) as [w0 [file_data|e]]; cbn [fst] in *.
    2:{ cbn [fst]. rewrite Hf, Ho. split_and!; try done.
        - intros Hnot. apply Hi. intros ->. apply Hnot. by left.
        - intros _ content ->. exists []. by rewrite app_nil_r. }
    assert (dash ∉ input_file :: l → stdin w0 = stdin w ∧ dash ∉ l) as Hin.
    { intros [Hne Hnot]%not_elem_of_cons. split; [by apply Hi|done]. }
    destruct (Py.utf8_encode _) as [filename|e]; cbn [fst].
    2:{ rewrite Hf, Ho. split_and!; try done.
        - by intros [? _]%Hin.
        - intros _ content ->. exists []. by rewrite app_nil_r. }
    destruct (_write_file_block _ _ _ _) as [written r].
    destruct (write_to_frame written w0) as (Wf & Wi & Wo & Wd & Wa).
    destruct r as [result|e]; cbn [fst].
    2:{ split_and!.
        - intros p Hp. by rewrite Wf, Hf.
        - intros Hne. by rewrite Wo, Ho.
        - intros Heq. by rewrite Wd, Hf.
        - intros [? _]%Hin. by rewrite Wi.
        - intros Hne content Hc. exists written. apply Wa; [done|]. by rewrite Hf. }
    destruct (IH (write_to output_filename written w0) (results ++ [result]))
      as (If & Io & Id & Ii & Ia).
    split_and!.
    + intros p Hp. by rewrite If, Wf, Hf.
    + intros Hne. by rewrite Io, Wo, Ho.
    + intros Heq. by rewrite Id, Wd, Hf.
    + intros [? ?]%Hin. by rewrite Ii, Wi.
    + intros Hne content Hc.
      destruct (Ia Hne (content ++ written)) as [more Hmore].
      { apply Wa; [done|]. by rewrite Hf. }
      exists (written ++ more). by rewrite app_assoc.
Qed.

End PackLoop.

End PackLoopFacts.

(** ** The files an extraction writes *)

Module RestoreFacts.
Import Utf8Facts PackFacts ArchiveFacts ScanFacts InputFacts.








Lemma chosen_None items : chosen None items = items.
Proof.
  unfold chosen. induction items as [|it items IH]; [done|].
  rewrite filter_cons, decide_True by done. by rewrite IH.
Qed.

End RestoreFacts.

(** ** Packing, then unpacking or checking *)

(** Two files to pack, for the runs below. *)
Module SampleFiles.

Definition path_a : str := [100; 47; 97].      (* 'd/a' *)
Definition path_b : str := [98].               (* 'b' *)
Definition data_a : bytes := [x01; x02; x03].
Definition data_b : bytes := [x61; x61; x61].

Definition two_files : list (str * bytes) := [(path_a, data_a); (path_b, data_b)].

Definition start : world :=
  {| files := {[ path_a := data_a; path_b := data_b ]}; stdin := []; stdout := [] |}.

End SampleFiles.

Import Utf8Facts PackFacts ArchiveFacts ScanFacts InputFacts TailFacts PackLoopFacts
  RestoreFacts.

(** X4. Packing files that the format holds writes the 28-byte archive header
    followed by one block for each input, in the order given: the block
    magic, the UTF-8 base name padded to forty bytes, the five fields
    (1, 0, length, checksum, algorithm) and the encoded content, 62 bytes
    and the content in all. The other files and the standard streams are
    left as they were, and every entry is reported as packed. *)
Theorem pack_writes_header_then_blocks
    (bz2_compress : Z → bytes → bytes) (self : handler) (w : world)
    (output_filename stdin_filename : str) (inputs : list (str * bytes)) :
  usable self →
  output_filename ≠ dash →
  Forall (storable bz2_compress self w output_filename) inputs →
  ∃ packed : list (bytes * entry),
    pack_rch bz2_compress self w output_filename (map fst inputs) false stdin_filename
    = ({| files := <[output_filename := rch_header ++ concat (map fst packed)]> (files w);
          stdin := stdin w; stdout := stdout w |},
       Ok (map snd packed)) ∧
    Forall2 (fun input be =>
      ∃ fname encoded fields,
        Py.utf8_encode (Py.basename input.1) = Ok fname ∧
        encode_file_data bz2_compress self input.2 = Ok encoded ∧
        Py.pack_5u32 1 0 (Z.of_nat (length encoded))
          (_calculate_crc32 self input.2 encoded) (encoding_algorithm self)
        = Ok fields ∧
        be.1 = BLOCK_MAGIC ++ Py.ljust 40 fname ++ fields ++ encoded ∧
        length be.1 = (62 + length encoded)%nat ∧
        be.2 = {| filename := Py.strip (Py.basename input.1);
                  size := Z.of_nat (length encoded);
                  crc32 := _calculate_crc32 self input.2 encoded;
                  encoding := get_encoding_name (encoding_algorithm self);
                  crc_passed := true;
                  timestamp := 0;
                  status := Packed |}) inputs packed.
Proof.
  intros Hself Hout Hinputs.
  destruct (build_items bz2_compress self w output_filename inputs Hself Hinputs)
    as (items & <- & Hbuilt & Hfile).
  exists (map (fun it => (it_block it, it_entry self it)) items). split.
  - rewrite <- (items_paths items _ eq_refl).
    rewrite (pack_rch_items bz2_compress self w output_filename stdin_filename items)
      by done.
    rewrite packed_archive_eq, !map_map. done.
  - apply Forall2_fmap. apply Forall_Forall2_diag.
    eapply Forall_impl; [exact Hbuilt|]. intros it Hit. cbn [fst snd].
    exists (it_fname it), (it_encoded it), (it_fields it).
    split_and!; try apply Hit; try done.
    pose proof (built_fields _ _ _ Hit) as Hpack.
    apply pack_5u32_Ok in Hpack as [Hunpack _]. apply unpack_5u32_length in Hunpack.
    pose proof (built_short _ _ _ Hit).
    unfold it_block. rewrite !length_app, ljust_length, Hunpack. simpl. lia.
Qed.

Lemma sample_files_storable self :
  encoding_algorithm self = ENCODING_XOR255 →
  Forall (storable Sample.store self SampleFiles.start Sample.archive_path)
    SampleFiles.two_files.
Proof.
  intros Halg.
  assert (∀ data encoded,
            encode_file_data Sample.store self data = Ok encoded →
            encoded = xor255 data) as Henc.
  { intros data encoded. unfold encode_file_data. rewrite Halg. cbn.
    by intros [= <-]. }
  repeat apply Forall_cons_2; [| |apply Forall_nil_2].
  - split_and!; try done.
    + exists [x61]. split; [reflexivity|simpl; lia].
    + vm_compute. intros Hin. repeat (apply elem_of_cons in Hin as [Hin|Hin]; [discriminate|]).
      by apply elem_of_nil in Hin.
    + intros encoded ->%Henc. vm_compute. reflexivity.
  - split_and!; try done.
    + exists [x62]. split; [reflexivity|simpl; lia].
    + vm_compute. intros Hin. repeat (apply elem_of_cons in Hin as [Hin|Hin]; [discriminate|]).
      by apply elem_of_nil in Hin.
    + intros encoded ->%Henc. vm_compute. reflexivity.
Qed.

Lemma pack_writes_header_then_blocks_witness :
  ∃ packed : list (bytes * entry),
    (pack_rch Sample.store (Sample.xor_handler false) SampleFiles.start
       Sample.archive_path (map fst SampleFiles.two_files) false [115]).2
    = Ok (map snd packed) ∧
    length packed = 2%nat.
Proof.
  destruct (pack_writes_header_then_blocks Sample.store (Sample.xor_handler false)
              SampleFiles.start Sample.archive_path [115] SampleFiles.two_files)
    as (packed & Hrun & Hall).
  - right. by left.
  - done.
  - by apply sample_files_storable.
  - exists packed. split; [by rewrite Hrun|].
    apply Forall2_length in Hall. by rewrite <- Hall.
Defined.





(** X7. Checking what was packed. On the archive [pack_rch] wrote for such
    files, [check_rch] returns one entry for each input, in order, with the
    base name, a passing checksum and the status [Checked], and with the
    size, checksum and encoding that [pack_rch] reported. *)
Theorem pack_then_check_passes
    (bz2_compress : Z → bytes → bytes) (bz2_decompress : bytes → option bytes)
    (self : handler) (w : world) (output_filename stdin_filename : str)
    (inputs : list (str * bytes)) :
  (∀ level data,
     1 <= level <= 9 → bz2_decompress (bz2_compress level data) = Some data) →
  usable self →
  output_filename ≠ dash →
  Forall (storable bz2_compress self w output_filename) inputs →
  Forall (restorable self) inputs →
  ∃ w1 entries results,
    pack_rch bz2_compress self w output_filename (map fst inputs) false stdin_filename
    = (w1, Ok entries) ∧
    check_rch bz2_decompress w1 output_filename = Some (Ok results) ∧
    map (fun e => (filename e, crc_passed e, status e)) results
    = map (fun input => (Py.basename input.1, true, Checked)) inputs ∧
    map (fun e => (size e, crc32 e, encoding e)) results
    = map (fun e => (size e, crc32 e, encoding e)) entries.
Proof.
  intros Hbz2 Hself Hout Hinputs Hne.
  destruct (build_items bz2_compress self w output_filename inputs Hself Hinputs)
    as (items & <- & Hbuilt & Hfile).
  pose proof (items_decode bz2_compress bz2_decompress Hbz2 self items Hself Hbuilt Hne)
    as Hdec.
  eexists _, _, _. split.
  { rewrite <- (items_paths items _ eq_refl).
    apply (pack_rch_items bz2_compress self w output_filename stdin_filename items);
      done. }
  split.
  { apply (check_rch_items bz2_compress bz2_decompress self _ output_filename items);
      try done.
    cbn [files]. by rewrite lookup_insert_eq. }
  rewrite !map_map. done.
Qed.

Lemma pack_then_check_passes_witness :
  ∃ w1 entries results,
    pack_rch Sample.store (Sample.xor_handler false) SampleFiles.start
      Sample.archive_path (map fst SampleFiles.two_files) false [115]
    = (w1, Ok entries) ∧
    check_rch Sample.unstore w1 Sample.archive_path = Some (Ok results) ∧
    map (fun e => (filename e, crc_passed e, status e)) results
    = [([97], true, Checked); ([98], true, Checked)] ∧
    map (fun e => (size e, crc32 e, encoding e)) results
    = map (fun e => (size e, crc32 e, encoding e)) entries.
Proof.
  apply (pack_then_check_passes Sample.store Sample.unstore (Sample.xor_handler false)
           SampleFiles.start Sample.archive_path [115] SampleFiles.two_files).
  - done.
  - right. by left.
  - done.
  - by apply sample_files_storable.
  - repeat apply Forall_cons_2; [done..|apply Forall_nil_2].
Defined.

(** ** Packing in several calls, and packing that fails *)



(** X9. [pack_rch] does not undo what it wrote: when an input that is not a
    file of the world comes after inputs that were packed, the exception of
    the failed [open] leaves [pack_rch], and the world is the one that
    packing the inputs before it gives, with the archive created and
    holding the header and their blocks. *)
Theorem pack_stops_at_missing_input
    (bz2_compress : Z → bytes → bytes) (self : handler) (w : world)
    (output_filename stdin_filename : str) (first : list str) (missing : str)
    (more : list str) (w1 : world) (results1 : list entry) :
  missing ≠ dash →
  missing ≠ output_filename →
  files w !! missing = None →
  pack_rch bz2_compress self w output_filename first false stdin_filename
  = (w1, Ok results1) →
  pack_rch bz2_compress self w output_filename (first ++ missing :: more) false
    stdin_filename
  = (w1, Err OSError) ∧
  (output_filename ≠ dash →
   ∃ blocks, files w1 !! output_filename = Some (rch_header ++ blocks)).
Proof.
  intros Hdash Hout Hmissing. unfold pack_rch. cbn match.
  set (w0 := write_to output_filename rch_header (open_for_write output_filename false w)).
  intros Hfirst. rewrite pack_loop_app, Hfirst.
  destruct (pack_loop_frame bz2_compress self output_filename stdin_filename first w0 [])
    as (Hother & _ & _ & _ & Hgrow).
  rewrite Hfirst in Hother, Hgrow. cbn [fst] in Hother, Hgrow. split.
  - cbn [RCH.pack_loop]. unfold read_input_file. rewrite decide_False by done.
    rewrite Hother by done.
    assert (files w0 !! missing = None) as ->; [|done].
    unfold w0, write_to, open_for_write. case_decide; [done|].
    cbn [files]. by rewrite !lookup_insert_ne.
  - intros Hne. apply Hgrow; [done|].
    unfold w0, write_to, open_for_write. rewrite !decide_False by done.
    cbn [files]. rewrite lookup_insert_eq. cbn [default from_option id].
    by rewrite lookup_insert_eq.
Qed.

Lemma pack_stops_at_missing_input_witness :
  ∃ w1,
    pack_rch Sample.store (Sample.xor_handler false) SampleFiles.start
      Sample.archive_path ([SampleFiles.path_a] ++ [99] :: [SampleFiles.path_b]) false [115]
    = (w1, Err OSError) ∧
    ∃ blocks, files w1 !! Sample.archive_path = Some (rch_header ++ blocks).
Proof.
  destruct (pack_rch Sample.store (Sample.xor_handler false) SampleFiles.start
              Sample.archive_path [SampleFiles.path_a] false [115])
    as [w1 [results1|e]] eqn:Hfirst.
  - exists w1.
    destruct (pack_stops_at_missing_input Sample.store (Sample.xor_handler false)
                SampleFiles.start Sample.archive_path [115] [SampleFiles.path_a] [99]
                [SampleFiles.path_b] w1 results1)
      as [Hrun Hfile].
    + discriminate.
    + discriminate.
    + vm_compute. reflexivity.
    + exact Hfirst.
    + split; [exact Hrun|]. apply Hfile. discriminate.
  - vm_compute in Hfirst. discriminate.
Defined.

(** X10. [pack_rch] writes to the archive and to nothing else: whatever the
    inputs and whether it returns or raises, every file other than the
    archive is as it was; the standard output is untouched unless the
    archive is ['-'], in which case no file changes at all; and the
    standard input is as it was when ['-'] is not among the inputs. *)
Theorem pack_touches_only_the_archive
    (bz2_compress : Z → bytes → bytes) (self : handler) (w : world)
    (output_filename stdin_filename : str) (input_files : list str) (append : bool) :
  let w1 := (pack_rch bz2_compress self w output_filename input_files append
               stdin_filename).1 in
  (∀ p, p ≠ output_filename → files w1 !! p = files w !! p) ∧
  (output_filename ≠ dash → stdout w1 = stdout w) ∧
  (output_filename = dash → files w1 = files w) ∧
  (dash ∉ input_files → stdin w1 = stdin w).
Proof.
  unfold pack_rch. cbn zeta.
  set (w0 := if append then open_for_write output_filename append w
             else write_to output_filename rch_header
                    (open_for_write output_filename append w)).
  destruct (pack_loop_frame bz2_compress self output_filename stdin_filename
              input_files w0 [])
    as (Hother & Hstdout & Hfiles & Hstdin & _).
  assert ((∀ p, p ≠ output_filename → files w0 !! p = files w !! p) ∧
          (output_filename ≠ dash → stdout w0 = stdout w) ∧
          (output_filename = dash → files w0 = files w) ∧
          stdin w0 = stdin w) as (Hother0 & Hstdout0 & Hfiles0 & Hstdin0).
  { unfold w0, write_to, open_for_write.
    destruct append; case_decide; cbn [files stdin stdout]; split_and!; try done.
    - intros p Hp. by rewrite lookup_insert_ne.
    - intros p Hp. by rewrite !lookup_insert_ne. }
  split_and!.
  - intros p Hp. by rewrite Hother, Hother0.
  - intros Hne. by rewrite Hstdout, Hstdout0.
  - intros Heq. by rewrite Hfiles, Hfiles0.
  - intros Hnot. by rewrite Hstdin, Hstdin0.
Qed.

(** ** Where a scan starts and where it ends *)

Module FilterFacts.

Lemma unpack_loop_no_names bz2_decompress fuel :
  ∀ self output_directory rch_file w results,
  unpack_loop bz2_decompress fuel self output_directory (Some []) rch_file w results
  = unpack_loop bz2_decompress fuel self output_directory None rch_file w results.
Proof.
  induction fuel as [|fuel IH]; intros self dir s w results; [done|].
  cbn [unpack_loop selected].
  destruct (read_file_block_header s) as [[[[[[name fsize] crc] algo] ts] rest]|e]; [|done].
  destruct (Py.read fsize rest) as [file_data rest'].
  destruct (_process_file_data _ _ _ _) as [[out valid]|e].
  - destruct (negb valid && negb (force self)); apply IH.
  - destruct (is_ValueError e); [apply IH|done].
Qed.

End FilterFacts.

(** X11. An empty list of names selects everything: [unpack_rch] called with
    [filenames=[]] does what it does with [filenames=None], on any archive
    and in any world. *)
Theorem unpack_empty_filter_is_no_filter
    (bz2_decompress : bytes → option bytes) (self : handler) (w : world)
    (rch_filename output_directory : str) :
  unpack_rch bz2_decompress self w rch_filename output_directory (Some [])
  = unpack_rch bz2_decompress self w rch_filename output_directory None.
Proof.
  unfold unpack_rch. destruct (_ ≫= _) as [rch_file|e]; [|done].
  apply FilterFacts.unpack_loop_no_names.
Qed.

(** X12. Of the archive header only the magic is looked at. A file that does
    not start with [FR01] is refused by [unpack_rch] and [check_rch] with a
    [ValueError], nothing being written; a file that starts with it and has
    no more than the 28 bytes of a header, even fewer, is an archive of no
    entry. *)
Theorem only_the_magic_of_the_header_is_checked
    (bz2_decompress : bytes → option bytes) (self : handler) (w : world)
    (rch_filename output_directory : str) (filenames : option (list str))
    (content : bytes) :
  rch_filename ≠ dash →
  files w !! rch_filename = Some content →
  (take 4 content ≠ RCH_MAGIC →
   unpack_rch bz2_decompress self w rch_filename output_directory filenames
   = Some (w, Err ValueError) ∧
   check_rch bz2_decompress w rch_filename = Some (Err ValueError)) ∧
  (take 4 content = RCH_MAGIC → (length content <= 28)%nat →
   unpack_rch bz2_decompress self w rch_filename output_directory filenames
   = Some (w, Ok []) ∧
   check_rch bz2_decompress w rch_filename = Some (Ok [])).
Proof.
  intros Hdash Hfile.
  unfold unpack_rch, check_rch, open_archive. rewrite decide_False by done.
  rewrite Hfile. cbn [mbind result_bind]. unfold read_rch_header, Py.read.
  change (Z.to_nat 4) with 4%nat. split.
  - intros Hmagic. by rewrite decide_False by done.
  - intros Hmagic Hlen. rewrite decide_True by done. cbn [snd].
    change (Z.to_nat (4 + 4 + 16)) with 24%nat.
    assert (drop 24 (drop 4 content) = []) as ->.
    { apply drop_ge. rewrite length_drop. lia. }
    done.
Qed.

Lemma only_the_magic_of_the_header_is_checked_witness :
  unpack_rch Sample.unstore (Sample.xor_handler false)
    (Sample.world_of (RCH_MAGIC ++ [x01])) Sample.archive_path Sample.out_dir None
  = Some (Sample.world_of (RCH_MAGIC ++ [x01]), Ok []) ∧
  check_rch Sample.unstore (Sample.world_of (RCH_MAGIC ++ [x01])) Sample.archive_path
  = Some (Ok []).
Proof.
  apply (proj2 (only_the_magic_of_the_header_is_checked Sample.unstore
                  (Sample.xor_handler false) (Sample.world_of (RCH_MAGIC ++ [x01]))
                  Sample.archive_path Sample.out_dir None (RCH_MAGIC ++ [x01])
                  ltac:(done) eq_refl)).
  - reflexivity.
  - simpl. lia.
Defined.

(** X13. A scan ends without complaint at the first thing that is not a block.
    After any number of well-formed blocks, bytes that do not start with
    the block magic [FZ], or a block whose name field is not UTF-8, end the
    loops of [unpack_rch] and [check_rch] as the end of the file does: the
    result is that of the same archive without them, and what follows is
    never looked at. *)
Theorem scan_ends_at_first_non_block
    (bz2_decompress : bytes → option bytes) (blocks : list (str * bytes))
    (tail : bytes) :
  Forall (fun nb => is_block nb.1 nb.2) blocks →
  ends_scan tail →
  (∀ fuel self output_directory filenames w results,
     (length blocks < fuel)%nat →
     unpack_loop bz2_decompress fuel self output_directory filenames
       (concat (map snd blocks) ++ tail) w results
     = unpack_loop bz2_decompress fuel self output_directory filenames
         (concat (map snd blocks)) w results) ∧
  (∀ fuel results,
     (length blocks < fuel)%nat →
     check_loop bz2_decompress fuel (concat (map snd blocks) ++ tail) results
     = check_loop bz2_decompress fuel (concat (map snd blocks)) results) ∧
  (∀ w w0 rch_filename header,
     rch_filename ≠ dash →
     take 4 header = RCH_MAGIC → length header = 28%nat →
     files w !! rch_filename = Some (archive_bytes header blocks ++ tail) →
     files w0 !! rch_filename = Some (archive_bytes header blocks) →
     check_rch bz2_decompress w rch_filename = check_rch bz2_decompress w0 rch_filename).
Proof.
  intros Hblocks (e & Hhdr & He)%ends_scan_header.
  assert (∀ fuel results,
            (length blocks < fuel)%nat →
            check_loop bz2_decompress fuel (concat (map snd blocks) ++ tail) results
            = check_loop bz2_decompress fuel (concat (map snd blocks)) results) as Hcheck.
  { intros fuel results Hfuel.
    destruct (check_loop_prefix bz2_decompress blocks Hblocks results) as (results1 & Hrun).
    pose proof (Hrun fuel [] Hfuel) as Hrun0. rewrite app_nil_r in Hrun0.
    rewrite Hrun0, Hrun by done.
    destruct (fuel - length blocks)%nat as [|fuel'] eqn:Hf; [lia|].
    cbn [check_loop]. rewrite Hhdr, He. done. }
  split_and!.
  - intros fuel self dir names w results Hfuel.
    destruct (unpack_loop_prefix bz2_decompress blocks self dir names Hblocks w results)
      as (w1 & results1 & Hrun).
    pose proof (Hrun fuel [] Hfuel) as Hrun0. rewrite app_nil_r in Hrun0.
    rewrite Hrun0, Hrun by done.
    destruct (fuel - length blocks)%nat as [|fuel'] eqn:Hf; [lia|].
    cbn [unpack_loop]. rewrite Hhdr, He. done.
  - done.
  - intros w w0 path header Hdash Hmagic Hheader Hfile Hfile0.
    unfold check_rch, open_archive. rewrite !decide_False by done.
    rewrite Hfile, Hfile0. cbn [mbind result_bind]. unfold archive_bytes.
    assert (∀ s, read_rch_header (header ++ s) = Ok s) as Hread.
    { intros s. unfold read_rch_header, Py.read. change (Z.to_nat 4) with 4%nat.
      rewrite take_app_le by lia. rewrite decide_True by done. cbn [snd].
      change (Z.to_nat (4 + 4 + 16)) with 24%nat. rewrite drop_drop.
      by rewrite drop_app_length' by done. }
    rewrite <- app_assoc, !Hread.
    pose proof (blocks_length _ Hblocks) as Hlen.
    rewrite Hcheck by (rewrite length_app; lia).
    destruct (check_loop_prefix bz2_decompress blocks Hblocks []) as (results1 & Hrun).
    pose proof (Hrun (S (length (concat (map snd blocks) ++ tail))) []) as Hrun1.
    pose proof (Hrun (S (length (concat (map snd blocks)))) []) as Hrun2.
    rewrite app_nil_r in Hrun1, Hrun2.
    rewrite Hrun1, Hrun2 by (rewrite ?length_app; lia).
    destruct (S (length (concat (map snd blocks) ++ tail)) - length blocks)%nat
      as [|fuel1] eqn:Hf1; [rewrite length_app in Hf1; lia|].
    destruct (S (length (concat (map snd blocks))) - length blocks)%nat
      as [|fuel2] eqn:Hf2; [lia|].
    done.
Qed.

Module SampleBlocks.

Lemma two_blocks_wf : Forall (fun nb => is_block nb.1 nb.2) Sample.two_blocks.
Proof.
  repeat apply Forall_cons_2; [| |apply Forall_nil_2].
  - apply (written_block_is_block (Sample.xor_handler false) [x61] [xfe; xfd] 0).
    + reflexivity.
    + vm_compute. lia.
    + reflexivity.
  - apply (written_block_is_block Sample.lzw_handler [x62] [x00; x9e] 0).
    + reflexivity.
    + vm_compute. lia.
    + reflexivity.
Qed.

(** The start of a block, cut after the name field. *)
Definition cut_block : bytes := BLOCK_MAGIC ++ Py.ljust 40 [x63].

Lemma cut_block_cut : cut_header cut_block.
Proof.
  exists (Py.ljust 40 [x63]), [99]. split_and!; [done|vm_compute; lia|reflexivity].
Qed.

End SampleBlocks.

Lemma scan_ends_at_first_non_block_witness :
  check_rch Sample.unstore
    (Sample.world_of (archive_bytes rch_header Sample.two_blocks ++ [x00]))
    Sample.archive_path
  = check_rch Sample.unstore Sample.two_blocks_world Sample.archive_path.
Proof.
  refine (proj2 (proj2 (scan_ends_at_first_non_block Sample.unstore Sample.two_blocks
                          [x00] SampleBlocks.two_blocks_wf _))
            _ _ Sample.archive_path rch_header _ _ _ _ _).
  - left. discriminate.
  - discriminate.
  - reflexivity.
  - reflexivity.
  - reflexivity.
  - reflexivity.
Defined.



(** ** What [detract_file] touches *)

Module DetractFrame.

Lemma detract_file_frame
    (w : world) (rch_filename file_to_remove : str) (output_filename : option str) :
  let target := or_else output_filename rch_filename in
  ∃ w' r,
    detract_file w rch_filename file_to_remove output_filename = Some (w', r) ∧
    stdin w' = stdin w ∧ stdout w' = stdout w ∧
    (∀ p, p ≠ target → p ≠ target ++ dot_tmp → files w' !! p = files w !! p) ∧
    (r ≠ Ok true → files w' !! target = files w !! target) ∧
    (∀ file_removed, r = Ok file_removed → files w' !! (target ++ dot_tmp) = None).
Proof.
  intros target. unfold detract_file. fold target.
  pose proof (tmp_name_differs target) as Htmp.
  destruct (files w !! rch_filename) as [content|].
  2:{ exists w, (Err OSError). split_and!; done. }
  destruct (Py.read _ _) as [header rch_file].
  destruct (detract_loop_total (S (length rch_file)) file_to_remove rch_file header false)
    as [[temp_file [[]|e]] ->]; [lia|..];
    eexists _, _; (split; [reflexivity|]); cbn [set_file remove_file files stdin stdout];
    (split; [done|]); (split; [done|]); split_and!.
  - intros p Hp1 Hp2.
    by rewrite lookup_insert_ne, lookup_delete_ne, lookup_insert_ne by done.
  - intros H. by destruct H.
  - intros _ _. rewrite lookup_insert_ne by done. by rewrite lookup_delete_eq.
  - intros p Hp1 Hp2. by rewrite lookup_delete_ne, lookup_insert_ne by done.
  - intros _. by rewrite lookup_delete_ne, lookup_insert_ne by done.
  - intros _ _. by rewrite lookup_delete_eq.
  - intros p Hp1 Hp2. by rewrite !lookup_insert_ne by done.
  - intros _. by rewrite !lookup_insert_ne by done.
  - intros file_removed [=].
Qed.


End DetractFrame.

(** X15. [detract_file] returns or raises on any archive, and touches two paths
    at most: the file it writes (the archive, or [output_filename] when one
    is given) and that name with [.tmp] appended. Every other file and the
    standard streams are as they were. When it does not return [True], the
    file it would have written is as it was; and whenever it returns, no
    file is left at the [.tmp] name, whatever was there before. *)
Theorem detract_file_touches_two_paths
    (w : world) (rch_filename file_to_remove : str) (output_filename : option str) :
  let target := or_else output_filename rch_filename in
  ∃ w' r,
    detract_file w rch_filename file_to_remove output_filename = Some (w', r) ∧
    stdin w' = stdin w ∧ stdout w' = stdout w ∧
    (∀ p, p ≠ target → p ≠ target ++ dot_tmp → files w' !! p = files w !! p) ∧
    (r ≠ Ok true → files w' !! target = files w !! target) ∧
    (∀ file_removed, r = Ok file_removed → files w' !! (target ++ dot_tmp) = None).
Proof. apply DetractFrame.detract_file_frame. Qed.

Module DetractTailFacts.

Lemma detract_file_tail w path header blocks tail file_to_remove :
  length header = 28%nat →
  Forall (fun nb => is_block nb.1 nb.2) blocks →
  files w !! path = Some (archive_bytes header blocks ++ tail) →
  ∃ fuel,
    detract_file w path file_to_remove None
    = match detract_loop (S fuel) file_to_remove tail
              (header ++ concat (map snd (keep file_to_remove blocks)))
              (bool_decide (file_to_remove ∈ map fst blocks)) with
      | None => None
      | Some (temp_file, Err e) =>
          Some (set_file (path ++ dot_tmp) temp_file (set_file (path ++ dot_tmp) [] w),
                Err e)
      | Some (temp_file, Ok file_removed) =>
          if file_removed then
            Some (set_file path temp_file
                    (remove_file (path ++ dot_tmp) (set_file (path ++ dot_tmp) [] w)),
                  Ok true)
          else Some (remove_file (path ++ dot_tmp) (set_file (path ++ dot_tmp) [] w),
                     Ok false)
      end.
Proof.
  intros Hheader Hblocks Hfile. unfold detract_file. simpl or_else.
  rewrite Hfile. cbn [set_file files].
  rewrite lookup_insert_ne by apply tmp_name_differs.
  rewrite Hfile. cbn [default from_option id]. unfold archive_bytes at 1.
  rewrite <- app_assoc.
  change (4 + 4 + 4 + 16) with (Z.of_nat 28). rewrite read_app_nat by done.
  pose proof (blocks_length _ Hblocks) as Hlen.
  rewrite detract_loop_prefix by (done || rewrite length_app; lia).
  cbn [orb].
  destruct (S (length (concat (map snd blocks) ++ tail)) - length blocks)%nat
    as [|fuel] eqn:Hf; [rewrite length_app in Hf; lia|].
  by exists fuel.
Qed.

End DetractTailFacts.

(** X16. [detract_file] drops what follows the blocks. When the archive is a
    28-byte header, well-formed blocks and then bytes at which the scan
    ends (they do not start with [FZ], or carry a name that is not UTF-8),
    removing a name that a block bears rewrites the archive as the header
    and the other blocks: the bytes after the blocks are not copied. *)
Theorem detract_drops_what_follows_the_blocks
    (w : world) (path : str) (header : bytes) (blocks : list (str * bytes))
    (tail : bytes) (file_to_remove : str) :
  length header = 28%nat →
  Forall (fun nb => is_block nb.1 nb.2) blocks →
  ends_scan tail →
  files w !! path = Some (archive_bytes header blocks ++ tail) →
  file_to_remove ∈ map fst blocks →
  ∃ w',
    detract_file w path file_to_remove None = Some (w', Ok true) ∧
    files w' !! path = Some (archive_bytes header (keep file_to_remove blocks)).
Proof.
  intros Hheader Hblocks (e & Hhdr & He)%ends_scan_header Hfile Hin.
  destruct (DetractTailFacts.detract_file_tail w path header blocks tail file_to_remove
              Hheader Hblocks Hfile) as [fuel ->].
  cbn [detract_loop]. rewrite Hhdr, He. rewrite bool_decide_true by done.
  eexists. split; [reflexivity|]. cbn [set_file files]. by rewrite lookup_insert_eq.
Qed.

Lemma detract_drops_what_follows_the_blocks_witness :
  ∃ w',
    detract_file
      (Sample.world_of (archive_bytes rch_header Sample.two_blocks ++ [x00]))
      Sample.archive_path Sample.name_a None = Some (w', Ok true) ∧
    files w' !! Sample.archive_path
    = Some (archive_bytes rch_header (keep Sample.name_a Sample.two_blocks)).
Proof.
  apply (detract_drops_what_follows_the_blocks
           (Sample.world_of (archive_bytes rch_header Sample.two_blocks ++ [x00]))
           Sample.archive_path rch_header Sample.two_blocks [x00] Sample.name_a).
  - reflexivity.
  - exact SampleBlocks.two_blocks_wf.
  - left. discriminate.
  - reflexivity.
  - by left.
Defined.

(** X17. [detract_file] on an archive whose last block header is cut short:
    the [struct.error] leaves [detract_file], the archive is as it was, and
    the temporary file stays behind, holding the header and the blocks that
    were to be kept. *)
Theorem detract_of_cut_archive_leaves_tmp
    (w : world) (path : str) (header : bytes) (blocks : list (str * bytes))
    (tail : bytes) (file_to_remove : str) :
  length header = 28%nat →
  Forall (fun nb => is_block nb.1 nb.2) blocks →
  cut_header tail →
  files w !! path = Some (archive_bytes header blocks ++ tail) →
  ∃ w',
    detract_file w path file_to_remove None = Some (w', Err StructError) ∧
    files w' !! path = files w !! path ∧
    files w' !! (path ++ dot_tmp)
    = Some (archive_bytes header (keep file_to_remove blocks)).
Proof.
  intros Hheader Hblocks Hhdr%cut_header_header Hfile.
  destruct (DetractTailFacts.detract_file_tail w path header blocks tail file_to_remove
              Hheader Hblocks Hfile) as [fuel ->].
  cbn [detract_loop]. rewrite Hhdr. cbn [is_ValueError].
  eexists. split; [reflexivity|]. cbn [set_file files]. split.
  - by rewrite !lookup_insert_ne by apply tmp_name_differs.
  - by rewrite lookup_insert_eq.
Qed.

Lemma detract_of_cut_archive_leaves_tmp_witness :
  ∃ w',
    detract_file
      (Sample.world_of (archive_bytes rch_header Sample.two_blocks
                        ++ SampleBlocks.cut_block))
      Sample.archive_path Sample.name_a None = Some (w', Err StructError) ∧
    files w' !! (Sample.archive_path ++ dot_tmp)
    = Some (archive_bytes rch_header (keep Sample.name_a Sample.two_blocks)).
Proof.
  destruct (detract_of_cut_archive_leaves_tmp
              (Sample.world_of (archive_bytes rch_header Sample.two_blocks
                                ++ SampleBlocks.cut_block))
              Sample.archive_path rch_header Sample.two_blocks SampleBlocks.cut_block
              Sample.name_a)
    as (w' & Hrun & _ & Htmp).
  - reflexivity.
  - exact SampleBlocks.two_blocks_wf.
  - exact SampleBlocks.cut_block_cut.
  - reflexivity.
  - by exists w'.
Defined.

(** ** What [unpack_rch] touches, and what it lists *)

Module UnpackFrame.

(** The second world differs from the first by extracted files only:
    files directly under the output directory, or bytes added to the
    standard output. *)
Definition only_under (output_directory : str) (w w' : world) : Prop :=
  (output_directory = dash → files w' = files w) ∧
  (output_directory ≠ dash →
   stdout w' = stdout w ∧
   ∀ p, (∀ name, Py.sep ∉ name → p ≠ Py.join output_directory name) →
        files w' !! p = files w !! p).

Lemma only_under_refl output_directory w : only_under output_directory w w.
Proof. by split. Qed.

Lemma only_under_trans output_directory w1 w2 w3 :
  only_under output_directory w1 w2 → only_under output_directory w2 w3 →
  only_under output_directory w1 w3.
Proof.
  intros [H1 H2] [H3 H4]. split.
  - intros Hd. by rewrite H3, H1.
  - intros Hd. destruct (H2 Hd) as [Ho Hf]. destruct (H4 Hd) as [Ho' Hf'].
    split; [congruence|]. intros p Hp. by rewrite Hf', Hf.
Qed.

Lemma only_under_write output_directory filename output_data w :
  only_under output_directory w
    (_write_output output_directory (_sanitize_filename filename) output_data w).
Proof.
  unfold _write_output. split; intros Hd.
  - by rewrite decide_True.
  - rewrite decide_False by done. cbn [files stdout]. split; [done|].
    intros p Hp. rewrite lookup_insert_ne; [done|].
    intros Heq. by apply (Hp (_sanitize_filename filename) (sanitize_no_sep filename)).
Qed.

Lemma unpack_loop_only_under bz2_decompress fuel :
  ∀ self output_directory filenames rch_file w results w' r,
  unpack_loop bz2_decompress fuel self output_directory filenames rch_file w results
  = Some (w', r) →
  only_under output_directory w w'.
Proof.
  induction fuel as [|fuel IH]; intros self dir names s w results w' r; [done|].
  cbn [unpack_loop].
  destruct (read_file_block_header s) as [[[[[[name fsize] crc] algo] ts] rest]|e].
  2:{ destruct (is_ValueError e); intros [= <- <-]; apply only_under_refl. }
  destruct (Py.read fsize rest) as [file_data rest'].
  destruct (selected names name); [|apply IH].
  destruct (_process_file_data _ _ _ _) as [[out valid]|e].
  - destruct (negb valid && negb (force self)); [apply IH|].
    intros Hrun%IH. eapply only_under_trans; [|exact Hrun]. apply only_under_write.
  - destruct (is_ValueError e); [apply IH|].
    intros [= <- <-]. apply only_under_refl.
Qed.

End UnpackFrame.

(** X18. [unpack_rch] writes under the output directory and nowhere else.
    Whatever the archive holds, it returns or raises, and a file that has
    changed is one that [os.path.join] makes of the output directory and a
    name without separator; the standard output is untouched. When the
    output directory is ['-'] no file changes at all. *)
Theorem unpack_writes_only_under_output_directory
    (bz2_decompress : bytes → option bytes) (self : handler) (w : world)
    (rch_filename output_directory : str) (filenames : option (list str)) :
  ∃ w' r,
    unpack_rch bz2_decompress self w rch_filename output_directory filenames
    = Some (w', r) ∧
    (output_directory = dash → files w' = files w) ∧
    (output_directory ≠ dash →
     stdout w' = stdout w ∧
     ∀ p, (∀ name, Py.sep ∉ name → p ≠ Py.join output_directory name) →
          files w' !! p = files w !! p).
Proof.
  destruct (unpack_rch_total bz2_decompress self w rch_filename output_directory
              filenames) as [[w' r] Hrun].
  exists w', r. split; [done|].
  revert Hrun. unfold unpack_rch. destruct (_ ≫= _) as [rch_file|e].
  - apply UnpackFrame.unpack_loop_only_under.
  - intros [= <- <-]. apply UnpackFrame.only_under_refl.
Qed.

Module ListingFacts.

(** An entry of [check_rch] and the entry of [unpack_rch] for the same
    block. *)
Definition same_block (c u : entry) : Prop :=
  filename u = filename c ∧ size u = size c ∧ crc32 u = crc32 c ∧
  encoding u = encoding c ∧ timestamp u = timestamp c ∧
  status c = Checked ∧
  ((status u = Unpacked ∧ crc_passed u = true ∧ crc_passed c = true) ∨
   (status u = Failed ∧ crc_passed u = false)).

Section Listing.

Variable bz2_decompress : bytes → option bytes.

Lemma block_verdicts self payload algo crc w output_directory safe fsize ts :
  ∃ w1 u,
    (∀ fuel filenames rest results,
       match _process_file_data bz2_decompress payload algo crc with
       | Ok (output_data, crc_valid) =>
           if negb crc_valid && negb (force self) then
             unpack_loop bz2_decompress fuel self output_directory filenames rest w
               (results ++ [_create_result_entry safe fsize crc algo false ts Failed])
           else
             unpack_loop bz2_decompress fuel self output_directory filenames rest
               (_write_output output_directory safe output_data w)
               (results ++ [_create_result_entry safe fsize crc algo crc_valid ts
                              (if crc_valid || force self then Unpacked else Failed)])
       | Err e =>
           if is_ValueError e then
             unpack_loop bz2_decompress fuel self output_directory filenames rest w
               (results ++ [_create_result_entry safe fsize crc algo false ts Failed])
           else Some (w, Err e)
       end
       = unpack_loop bz2_decompress fuel self output_directory filenames rest w1
           (results ++ [u])) ∧
    same_block (_create_result_entry safe fsize crc algo
                  (crc_verdict bz2_decompress payload algo crc) ts Checked) u.
Proof.
  pose proof (_process_file_data_spec bz2_decompress payload algo crc) as Hp.
  unfold crc_verdict. rewrite _verify_crc_spec. unfold crc_basis in Hp.
  destruct (decode_data bz2_decompress payload algo) as [out|e] eqn:Hd.
  - destruct (decide (algo = ENCODING_BZIP2)) as [Halg|Halg].
    + destruct (decide (crc = Z.land (Py.crc32 out) 0xFFFFFFFF)) as [Hcrc|Hcrc];
        rewrite Hp; eexists _, _; (split; [intros; reflexivity|]);
        unfold same_block; cbn; split_and!; try done; first [by left|by right].
    + destruct (decide (crc = Z.land (Py.crc32 payload) 0xFFFFFFFF)) as [Hcrc|Hcrc];
        rewrite Hp; eexists _, _; (split; [intros; reflexivity|]);
        unfold same_block; cbn; split_and!; try done; first [by left|by right].
  - rewrite Hp. eexists _, _. split; [intros; reflexivity|].
    unfold same_block; cbn; split_and!; try done. by right.
Qed.

Lemma loops_agree self output_directory fuel : ∀ rch_file w checked unpacked,
  match check_loop bz2_decompress fuel rch_file checked,
        unpack_loop bz2_decompress fuel self output_directory None rch_file w unpacked
  with
  | Some (Ok checked'), Some (_, Ok unpacked') =>
      ∃ cs us, checked' = checked ++ cs ∧ unpacked' = unpacked ++ us ∧
               Forall2 same_block cs us
  | Some (Err e), Some (_, Err e') => e = e'
  | None, None => True
  | _, _ => False
  end.
Proof.
  induction fuel as [|fuel IH]; intros s w checked unpacked; [done|].
  destruct (read_file_block_header s) as [[[[[[name fsize] crc] algo] ts] rest]|e] eqn:Hhdr.
  - rewrite (check_loop_step bz2_decompress fuel s checked _ _ _ _ _ _ Hhdr).
    cbn [unpack_loop selected]. rewrite Hhdr. unfold Py.read.
    destruct (block_verdicts self (take (Z.to_nat fsize) rest) algo crc w
                output_directory (_sanitize_filename name) fsize ts)
      as (w1 & u & -> & Hsame).
    specialize (IH (drop (Z.to_nat fsize) rest) w1
                  (checked ++ [_create_result_entry (_sanitize_filename name) fsize crc
                                 algo (crc_verdict bz2_decompress
                                         (take (Z.to_nat fsize) rest) algo crc)
                                 ts Checked])
                  (unpacked ++ [u])).
    destruct (check_loop _ _ _ _) as [[checked'|e]|];
      destruct (unpack_loop _ _ _ _ _ _ _ _) as [[w' [unpacked'|e']]|]; try done.
    destruct IH as (cs & us & -> & -> & Hall).
    eexists (_ :: cs), (u :: us). rewrite <- !app_assoc. split_and!; [done..|].
    by constructor.
  - cbn [check_loop unpack_loop]. rewrite Hhdr. destruct (is_ValueError e); [|done].
    exists [], []. by rewrite !app_nil_r.
Qed.

End Listing.

End ListingFacts.

(** X19. [check_rch] and [unpack_rch] list the same blocks. On any archive,
    the files extracted being written without error, one raises when the
    other does, with the same exception; otherwise
    [unpack_rch] without a list of names returns as many entries as
    [check_rch], in the same order, with the same name, size, checksum,
    encoding and timestamp; an entry of [unpack_rch] is [Unpacked] with a
    passing checksum or [Failed] with a failing one, whether [force] is set
    or not; and what [unpack_rch] extracted, [check_rch] reports as
    passing. *)
Theorem check_lists_what_unpack_lists
    (bz2_decompress : bytes → option bytes) (self : handler) (w : world)
    (rch_filename output_directory : str) :
  match check_rch bz2_decompress w rch_filename,
        unpack_rch bz2_decompress self w rch_filename output_directory None
  with
  | Some (Ok checked), Some (_, Ok unpacked) =>
      Forall2 (fun c u =>
        filename u = filename c ∧ size u = size c ∧ crc32 u = crc32 c ∧
        encoding u = encoding c ∧ timestamp u = timestamp c ∧
        status c = Checked ∧
        ((status u = Unpacked ∧ crc_passed u = true ∧ crc_passed c = true) ∨
         (status u = Failed ∧ crc_passed u = false))) checked unpacked
  | Some (Err e), Some (_, Err e') => e = e'
  | _, _ => False
  end.
Proof.
  unfold check_rch, unpack_rch. destruct (_ ≫= _) as [rch_file|e]; [|done].
  pose proof (ListingFacts.loops_agree bz2_decompress self output_directory
                (S (length rch_file)) rch_file w [] []) as H.
  destruct (check_loop_total bz2_decompress (S (length rch_file)) rch_file [])
    as [c Hc]; [lia|].
  rewrite Hc in *.
  destruct c as [checked|e];
    destruct (unpack_loop _ _ _ _ _ _ _ _) as [[w' [unpacked|e']]|]; try done.
  by destruct H as (cs & us & -> & -> & Hall).
Qed.

(** ** Empty files, and undoing an injection *)

(** X20. An empty file and the dictionary coder. With algorithm 0, [pack_rch]
    stores an empty file as a block of no payload and reports it packed;
    [check_rch] reports that block as passing, the checksum of no byte
    being the one stored; and [unpack_rch] reports it [Failed] and writes
    nothing, the decoder refusing an input of no code. *)
Theorem empty_file_is_packed_but_not_unpacked
    (bz2_compress : Z → bytes → bytes) (bz2_decompress : bytes → option bytes)
    (self reader : handler) (w : world)
    (output_filename stdin_filename output_directory path : str) (fname : bytes) :
  encoding_algorithm self = ENCODING_XOR255_LZW →
  output_filename ≠ dash →
  path ≠ dash →
  path ≠ output_filename →
  files w !! path = Some [] →
  Py.utf8_encode (Py.basename path) = Ok fname →
  (length fname <= 40)%nat →
  0 ∉ Py.basename path →
  ∃ w1 e c u,
    pack_rch bz2_compress self w output_filename [path] false stdin_filename
    = (w1, Ok [e]) ∧
    size e = 0 ∧ status e = Packed ∧
    check_rch bz2_decompress w1 output_filename = Some (Ok [c]) ∧
    crc_passed c = true ∧
    unpack_rch bz2_decompress reader w1 output_filename output_directory None
    = Some (w1, Ok [u]) ∧
    status u = Failed ∧ crc_passed u = false.
Proof.
  intros Halg Hout Hdash Hpath Hfile Hfname Hshort Hnul.
  destruct (roundtrip_xor255_lzw_empty bz2_compress bz2_decompress self Halg)
    as [Henc Hdec].
  assert (usable self) as Hself by by left.
  destruct (build_item bz2_compress self w output_filename (path, []) Hself)
    as (it & Hit & Hbuilt & Hitfile).
  { split_and!; try done.
    - by exists fname.
    - intros encoded. cbn [snd]. rewrite Henc. intros [= <-]. done. }
  assert (it_path it = path ∧ it_data it = []) as [Hp Hd] by by injection Hit.
  assert (it_encoded it = []) as Hempty.
  { pose proof (built_encoded _ _ _ Hbuilt) as Henc'. rewrite Hd, Henc in Henc'.
    by injection Henc'. }
  pose proof (pack_rch_items bz2_compress self w output_filename stdin_filename [it]
                Hout ltac:(by apply Forall_singleton) ltac:(by apply Forall_singleton))
    as Hpack.
  cbn [map] in Hpack. rewrite Hp in Hpack.
  pose proof (item_read bz2_compress self it [] Hbuilt) as Hhdr.
  rewrite Hempty, Hd, !app_nil_r in Hhdr. cbn [length] in Hhdr.
  change (Z.of_nat 0) with 0 in Hhdr.
  assert (_calculate_crc32 self [] [] = Z.land (Py.crc32 []) 0xFFFFFFFF) as Hcrc.
  { unfold _calculate_crc32. by case_decide. }
  rewrite Hcrc, Halg in Hhdr.
  eexists _, _, _, _. split; [exact Hpack|].
  split; [by cbn; rewrite Hempty|]. split; [done|].
  unfold check_rch, unpack_rch, open_archive. rewrite !decide_False by done.
  cbn [files]. rewrite lookup_insert_eq, packed_archive_eq.
  cbn [mbind result_bind]. rewrite read_rch_header_written.
  cbn [map concat]. rewrite app_nil_r.
  set (fuel := length (it_block it)).
  rewrite (check_loop_step bz2_decompress fuel _ [] _ _ _ _ _ _ Hhdr).
  rewrite (unpack_loop_step bz2_decompress fuel reader output_directory None _ _ []
             _ _ _ _ _ _ Hhdr eq_refl).
  cbn zeta. change (take (Z.to_nat 0) []) with (@nil byte).
  change (drop (Z.to_nat 0) []) with (@nil byte). rewrite Hdec.
  assert (fuel ≠ 0%nat) as Hfuel.
  { unfold fuel. pose proof (is_block_length _ _ (item_is_block _ self it Hbuilt)). lia. }
  destruct fuel as [|fuel']; [done|]. cbn [check_loop unpack_loop].
  change (read_file_block_header []) with
    (@Err (str * Z * Z * Z * Z * bytes) ValueError).
  cbn [is_ValueError app]. split; [reflexivity|]. split; [|done].
  cbn [crc_passed _create_result_entry]. unfold crc_verdict.
  rewrite _verify_crc_spec. rewrite decide_False by done. by rewrite decide_True.
Qed.

Lemma empty_file_is_packed_but_not_unpacked_witness :
  ∃ w1 e c u,
    pack_rch Sample.store Sample.lzw_handler
      {| files := {[ SampleFiles.path_b := [] ]}; stdin := []; stdout := [] |}
      Sample.archive_path [SampleFiles.path_b] false [115]
    = (w1, Ok [e]) ∧
    size e = 0 ∧ status e = Packed ∧
    check_rch Sample.unstore w1 Sample.archive_path = Some (Ok [c]) ∧
    crc_passed c = true ∧
    unpack_rch Sample.unstore Sample.lzw_handler w1 Sample.archive_path
      Sample.out_dir None
    = Some (w1, Ok [u]) ∧
    status u = Failed ∧ crc_passed u = false.
Proof.
  apply (empty_file_is_packed_but_not_unpacked Sample.store Sample.unstore
           Sample.lzw_handler Sample.lzw_handler _ Sample.archive_path [115]
           Sample.out_dir SampleFiles.path_b [x62]).
  - reflexivity.
  - discriminate.
  - discriminate.
  - discriminate.
  - reflexivity.
  - reflexivity.
  - simpl. lia.
  - vm_compute. intros Hin.
    repeat (apply elem_of_cons in Hin as [Hin|Hin]; [discriminate|]).
    by apply elem_of_nil in Hin.
Defined.

Module UndoFacts.

Lemma keep_all_app names (l1 l2 : list (str * bytes)) :
  keep_all names (l1 ++ l2) = keep_all names l1 ++ keep_all names l2.
Proof. apply filter_app. Qed.

Lemma keep_all_none names (blocks : list (str * bytes)) :
  (∀ n, n ∈ map fst blocks → n ∈ names) → keep_all names blocks = [].
Proof.
  intros H. unfold keep_all. induction blocks as [|[name bs] blocks IH]; [done|].
  rewrite filter_cons. cbn [fst]. rewrite decide_False.
  - apply IH. intros n Hn. apply H. by right.
  - intros Hnot. apply Hnot, H. by left.
Qed.

Lemma keep_all_every names (blocks : list (str * bytes)) :
  (∀ n, n ∈ map fst blocks → n ∉ names) → keep_all names blocks = blocks.
Proof.
  intros H. unfold keep_all. induction blocks as [|[name bs] blocks IH]; [done|].
  rewrite filter_cons. cbn [fst]. rewrite decide_True.
  - f_equal. apply IH. intros n Hn. apply H. by right.
  - apply H. by left.
Qed.

End UndoFacts.

(** X21. Removing what was injected gives the archive back. On an archive that
    is a 28-byte header followed by well-formed blocks, [inject_files] of
    files that the format holds, under base names that no block of the
    archive bears, followed by [detract_files] of those base names, leaves
    the archive byte for byte as it was before the injection. *)
Theorem detract_undoes_inject
    (bz2_compress : Z → bytes → bytes) (self : handler) (w : world)
    (path stdin_filename : str) (header : bytes) (blocks : list (str * bytes))
    (inputs : list (str * bytes)) :
  length header = 28%nat →
  Forall (fun nb => is_block nb.1 nb.2) blocks →
  files w !! path = Some (archive_bytes header blocks) →
  usable self →
  path ≠ dash →
  Forall (storable bz2_compress self w path) inputs →
  Forall (fun input => Py.basename input.1 ∉ map fst blocks) inputs →
  ∃ w1 entries w2 removed not_removed,
    inject_files bz2_compress self w path (map fst inputs) stdin_filename
    = (w1, Ok entries) ∧
    length entries = length inputs ∧
    detract_files w1 path (map (fun input => Py.basename input.1) inputs) None
    = Some (w2, Ok (removed, not_removed)) ∧
    files w2 !! path = files w !! path.
Proof.
  intros Hheader Hblocks Hfile Hself Hdash Hinputs Hfresh.
  destruct (build_items bz2_compress self w path inputs Hself Hinputs)
    as (items & <- & Hbuilt & Hitfile).
  set (added := map (fun it => (it_name it, it_block it)) items).
  assert (inject_files bz2_compress self w path
            (map fst (map (fun it => (it_path it, it_data it)) items)) stdin_filename
          = ({| files := <[path := archive_bytes header (blocks ++ added)]> (files w);
                stdin := stdin w; stdout := stdout w |},
             Ok (map (it_entry self) items))) as Hinject.
  { unfold inject_files, pack_rch. cbn match.
    assert (open_for_write path true w = w) as ->.
    { unfold open_for_write. rewrite decide_False by done. rewrite Hfile.
      cbn [default from_option id]. rewrite insert_id by done. by destruct w. }
    rewrite <- (items_paths items _ eq_refl).
    rewrite (pack_loop_items bz2_compress self path stdin_filename items w [])
      by done.
    rewrite (append_blocks_files path items w _ Hdash Hfile).
    unfold archive_bytes, added. rewrite map_app, concat_app, !map_map, <- app_assoc.
    done. }
  destruct (detract_files_loop_archive path header
              (map (fun input => Py.basename input.1)
                 (map (fun it => (it_path it, it_data it)) items))
              {| files := <[path := archive_bytes header (blocks ++ added)]> (files w);
                 stdin := stdin w; stdout := stdout w |}
              (blocks ++ added) [] [] Hheader)
    as (w2 & removed & not_removed & Hrun & Hfile2 & _).
  { apply Forall_app. split; [done|]. by apply (packed_blocks_wf bz2_compress self). }
  { cbn [files]. by rewrite lookup_insert_eq. }
  eexists _, _, w2, removed, not_removed. split; [exact Hinject|].
  split; [by rewrite !length_map|]. split; [exact Hrun|].
  rewrite Hfile2, Hfile. do 2 f_equal.
  rewrite UndoFacts.keep_all_app, UndoFacts.keep_all_every, UndoFacts.keep_all_none.
  - apply app_nil_r.
  - intros n. unfold added. rewrite !map_map. cbn [fst]. done.
  - intros n Hn Hin. rewrite map_map in Hin. cbn [fst] in Hin.
    apply list_elem_of_fmap in Hin as (it & -> & Hit).
    rewrite Forall_fmap, Forall_forall in Hfresh. by apply (Hfresh it Hit).
Qed.

(** ** The handler, and [detract_files] with an output *)

Module SampleInject.

Definition path_c : str := [99].               (* 'c' *)
Definition data_c : bytes := [x07].

(** The archive of [Sample.two_blocks] and a file to inject. *)
Definition start : world :=
  {| files := {[ Sample.archive_path := archive_bytes rch_header Sample.two_blocks;
                 path_c := data_c ]};
     stdin := []; stdout := [] |}.

Lemma file_c_storable :
  Forall (storable Sample.store (Sample.xor_handler false) start Sample.archive_path)
    [(path_c, data_c)].
Proof.
  apply Forall_singleton. split_and!; try done.
  - exists [x63]. split; [reflexivity|simpl; lia].
  - vm_compute. intros Hin.
    repeat (apply elem_of_cons in Hin as [Hin|Hin]; [discriminate|]).
    by apply elem_of_nil in Hin.
  - intros encoded [= <-]. vm_compute. reflexivity.
Qed.

End SampleInject.

Lemma detract_undoes_inject_witness :
  ∃ w1 entries w2 removed not_removed,
    inject_files Sample.store (Sample.xor_handler false) SampleInject.start
      Sample.archive_path [SampleInject.path_c] [115] = (w1, Ok entries) ∧
    length entries = 1%nat ∧
    detract_files w1 Sample.archive_path [SampleInject.path_c] None
    = Some (w2, Ok (removed, not_removed)) ∧
    files w2 !! Sample.archive_path = files SampleInject.start !! Sample.archive_path.
Proof.
  apply (detract_undoes_inject Sample.store (Sample.xor_handler false)
           SampleInject.start Sample.archive_path [115] rch_header Sample.two_blocks
           [(SampleInject.path_c, SampleInject.data_c)]).
  - reflexivity.
  - exact SampleBlocks.two_blocks_wf.
  - reflexivity.
  - right. by left.
  - discriminate.
  - exact SampleInject.file_c_storable.
  - apply Forall_singleton. vm_compute. intros Hin.
    repeat (apply elem_of_cons in Hin as [Hin|Hin]; [discriminate|]).
    by apply elem_of_nil in Hin.
Defined.

Module HandlerFacts.

Lemma unpack_loop_any_handler bz2_decompress fuel :
  ∀ self other output_directory filenames rch_file w results,
  unpack_loop bz2_decompress fuel self output_directory filenames rch_file w results
  = unpack_loop bz2_decompress fuel other output_directory filenames rch_file w results.
Proof.
  induction fuel as [|fuel IH]; intros self other dir names s w results; [done|].
  cbn [unpack_loop].
  destruct (read_file_block_header s) as [[[[[[name fsize] crc] algo] ts] rest]|e]; [|done].
  destruct (Py.read fsize rest) as [file_data rest'].
  destruct (selected names name); [|apply IH].
  pose proof (_process_file_data_spec bz2_decompress file_data algo crc) as Hp.
  destruct (decode_data bz2_decompress file_data algo) as [out|e].
  - case_decide; rewrite Hp; cbn; apply IH.
  - rewrite Hp. cbn. apply IH.
Qed.

End HandlerFacts.

(** X22. [unpack_rch] does not depend on the handler it is called on: neither
    the algorithm and the level it was made with, the algorithm being read
    from each block, nor [force]. On any archive and in any world, two
    handlers give the same files and the same results. *)
Theorem unpack_ignores_the_handler
    (bz2_decompress : bytes → option bytes) (self other : handler) (w : world)
    (rch_filename output_directory : str) (filenames : option (list str)) :
  unpack_rch bz2_decompress self w rch_filename output_directory filenames
  = unpack_rch bz2_decompress other w rch_filename output_directory filenames.
Proof.
  unfold unpack_rch. destruct (_ ≫= _) as [rch_file|e]; [|done].
  apply HandlerFacts.unpack_loop_any_handler.
Qed.

Module DetractOutputFacts.

Lemma detract_files_loop_frame files_to_remove :
  ∀ w path removed_files not_removed_files w' r,
  detract_files_loop w path files_to_remove removed_files not_removed_files
  = Some (w', r) →
  ∀ p, p ≠ path → p ≠ path ++ dot_tmp → files w' !! p = files w !! p.
Proof.
  induction files_to_remove as [|name rest IH];
    intros w path removed not_removed w' r; cbn [detract_files_loop].
  - by intros [= <- <-].
  - destruct (DetractFrame.detract_file_frame w path name None)
      as (w1 & r1 & -> & _ & _ & Hframe & _).
    cbn [or_else] in Hframe.
    destruct r1 as [[]|e].
    + intros Hrun p Hp1 Hp2. rewrite (IH _ _ _ _ _ _ Hrun) by done. by apply Hframe.
    + intros Hrun p Hp1 Hp2. rewrite (IH _ _ _ _ _ _ Hrun) by done. by apply Hframe.
    + intros [= <- <-]. done.
Qed.

Lemma detract_file_of_empty w path file_to_remove :
  files w !! path = Some [] →
  ∃ w', detract_file w path file_to_remove None = Some (w', Ok false) ∧
        files w' !! path = Some [].
Proof.
  intros Hfile. unfold detract_file. cbn [or_else]. rewrite Hfile.
  cbn [set_file files]. rewrite lookup_insert_ne by apply tmp_name_differs.
  rewrite Hfile. cbn. eexists. split; [done|]. cbn.
  rewrite lookup_delete_ne, lookup_insert_ne by apply tmp_name_differs. done.
Qed.

Lemma detract_files_loop_of_empty files_to_remove :
  ∀ w path removed_files not_removed_files,
  files w !! path = Some [] →
  ∃ w', detract_files_loop w path files_to_remove removed_files not_removed_files
        = Some (w', Ok (removed_files, not_removed_files ++ files_to_remove)) ∧
        files w' !! path = Some [].
Proof.
  induction files_to_remove as [|name rest IH]; intros w path removed not_removed Hfile.
  - exists w. cbn. by rewrite app_nil_r.
  - cbn [detract_files_loop].
    destruct (detract_file_of_empty w path name Hfile) as (w1 & -> & Hfile1).
    destruct (IH w1 path removed (not_removed ++ [name]) Hfile1) as (w' & -> & Hfile').
    exists w'. by rewrite <- app_assoc.
Qed.

End DetractOutputFacts.

(** X23. [detract_files] with the archive itself as [output_filename] empties
    it. The copy that comes first opens the output for writing before the
    archive is read, so when both are one file nothing is left to copy: no
    name is found, all are returned as not removed, and the archive is an
    empty file afterwards. *)
Theorem detract_files_onto_itself_empties_the_archive
    (w : world) (path : str) (files_to_remove : list str) (content : bytes) :
  path ≠ [] →
  files w !! path = Some content →
  ∃ w',
    detract_files w path files_to_remove (Some path)
    = Some (w', Ok ([], files_to_remove)) ∧
    files w' !! path = Some [].
Proof.
  intros Hpath Hfile. unfold detract_files.
  destruct path as [|c o]; [done|]. rewrite Hfile.
  apply (DetractOutputFacts.detract_files_loop_of_empty files_to_remove _ (c :: o) [] []).
  cbn [set_file files]. by rewrite !lookup_insert_eq.
Qed.

Lemma detract_files_onto_itself_empties_the_archive_witness :
  ∃ w',
    detract_files Sample.two_blocks_world Sample.archive_path [Sample.name_a]
      (Some Sample.archive_path)
    = Some (w', Ok ([], [Sample.name_a])) ∧
    files w' !! Sample.archive_path = Some [].
Proof.
  apply (detract_files_onto_itself_empties_the_archive Sample.two_blocks_world
           Sample.archive_path [Sample.name_a]
           (rch_header ++ Sample.block_a ++ Sample.block_b)).
  - discriminate.
  - reflexivity.
Defined.

(** X24. [detract_files] with another file as [output_filename] works on a
    copy. On an archive that is a 28-byte header followed by well-formed
    blocks, and an output that is neither the archive nor the archive less
    a final [.tmp], the archive is left as it was and the output holds the
    header and the blocks whose name was not asked for; a name is returned
    as removed when a block bears it. *)
Theorem detract_files_to_output_keeps_the_archive
    (w : world) (path output : str) (header : bytes) (blocks : list (str * bytes))
    (files_to_remove : list str) :
  length header = 28%nat →
  Forall (fun nb => is_block nb.1 nb.2) blocks →
  files w !! path = Some (archive_bytes header blocks) →
  output ≠ [] →
  output ≠ path →
  output ++ dot_tmp ≠ path →
  ∃ w' removed not_removed,
    detract_files w path files_to_remove (Some output)
    = Some (w', Ok (removed, not_removed)) ∧
    files w' !! path = files w !! path ∧
    files w' !! output
    = Some (archive_bytes header (filter (fun nb => nb.1 ∉ files_to_remove) blocks)) ∧
    (∀ n, n ∈ removed ↔ n ∈ files_to_remove ∧ n ∈ map fst blocks).
Proof.
  intros Hheader Hblocks Hfile Hne Hout Htmp. unfold detract_files.
  destruct output as [|c o]; [done|]. rewrite Hfile.
  set (w1 := set_file (c :: o)
               (default [] (files (set_file (c :: o) [] w) !! path))
               (set_file (c :: o) [] w)).
  assert (files w1 !! (c :: o) = Some (archive_bytes header blocks)) as Hcopy.
  { unfold w1. cbn [set_file files]. rewrite lookup_insert_eq.
    rewrite lookup_insert_ne by done. by rewrite Hfile. }
  assert (files w1 !! path = files w !! path) as Hkept.
  { unfold w1. cbn [set_file files]. by rewrite !lookup_insert_ne by done. }
  destruct (detract_files_loop_archive (c :: o) header files_to_remove w1 blocks [] []
              Hheader Hblocks Hcopy)
    as (w' & removed & not_removed & Hrun & Hfile' & Hrem & _).
  exists w', removed, not_removed. split_and!.
  - exact Hrun.
  - rewrite (DetractOutputFacts.detract_files_loop_frame _ _ _ _ _ _ _ Hrun path).
    + by rewrite Hkept.
    + congruence.
    + congruence.
  - exact Hfile'.
  - exact Hrem.
Qed.

Lemma detract_files_to_output_keeps_the_archive_witness :
  ∃ w' removed not_removed,
    detract_files Sample.two_blocks_world Sample.archive_path [Sample.name_a]
      (Some [121])
    = Some (w', Ok (removed, not_removed)) ∧
    files w' !! Sample.archive_path = files Sample.two_blocks_world !! Sample.archive_path ∧
    files w' !! [121]
    = Some (archive_bytes rch_header
              (filter (fun nb => nb.1 ∉ [Sample.name_a]) Sample.two_blocks)).
Proof.
  destruct (detract_files_to_output_keeps_the_archive Sample.two_blocks_world
              Sample.archive_path [121] rch_header Sample.two_blocks [Sample.name_a])
    as (w' & removed & not_removed & Hrun & Hpath & Hout & _).
  - reflexivity.
  - exact SampleBlocks.two_blocks_wf.
  - reflexivity.
  - discriminate.
  - discriminate.
  - discriminate.
  - by exists w', removed, not_removed.
Defined.

(** ** The standard streams *)

(** X25. From the standard input to the standard output. [pack_rch] with ['-']
    as its only input stores what the standard input holds, which it reads
    to the end, under [stdin_filename]; [unpack_rch] of that archive with
    ['-'] as output directory then appends those bytes to the standard
    output, writes no file, and reports the entry [Unpacked] under that
    name. The name is one without separator that fits the name field. *)
Theorem stdin_to_stdout_roundtrip
    (bz2_compress : Z → bytes → bytes) (bz2_decompress : bytes → option bytes)
    (self reader : handler) (w : world) (output_filename stdin_filename : str)
    (fname : bytes) :
  (∀ level data,
     1 <= level <= 9 → bz2_decompress (bz2_compress level data) = Some data) →
  usable self →
  output_filename ≠ dash →
  Py.sep ∉ stdin_filename →
  Py.utf8_encode stdin_filename = Ok fname →
  (length fname <= 40)%nat →
  0 ∉ stdin_filename →
  (encoding_algorithm self = ENCODING_XOR255_LZW → stdin w ≠ []) →
  (∀ encoded, encode_file_data bz2_compress self (stdin w) = Ok encoded →
              Z.of_nat (length encoded) < 4294967296) →
  ∃ w1 e w2 u,
    pack_rch bz2_compress self w output_filename [dash] false stdin_filename
    = (w1, Ok [e]) ∧
    stdin w1 = [] ∧
    unpack_rch bz2_decompress reader w1 output_filename dash None
    = Some (w2, Ok [u]) ∧
    stdout w2 = stdout w ++ stdin w ∧
    files w2 = files w1 ∧
    filename u = stdin_filename ∧ status u = Unpacked ∧ crc_passed u = true.
Proof.
  intros Hbz2 Hself Hout Hsep Hfname Hshort Hnul Hne Hlen.
  assert (Py.basename stdin_filename = stdin_filename) as Hbase.
  { destruct (PyFacts.basename_spec stdin_filename) as [[_ ->]|(dir & last & -> & _)];
      [done|].
    destruct Hsep. apply elem_of_app. right. by left. }
  destruct (build_item_of bz2_compress self stdin_filename (stdin w) fname Hself)
    as (it & Hp & Hd & Hbuilt); rewrite ?Hbase; try done.
  assert (it_name it = stdin_filename) as Hname by (unfold it_name; by rewrite Hp).
  assert (it_fname it = fname) as Hf.
  { pose proof (built_fname _ _ _ Hbuilt) as H. rewrite Hname, Hfname in H.
    by injection H. }
  assert (Forall (item_decodes bz2_decompress self) [it]) as Hdec.
  { apply (items_decode bz2_compress bz2_decompress Hbz2 self [it] Hself).
    - by apply Forall_singleton.
    - apply Forall_singleton. unfold restorable. cbn [snd]. by rewrite Hd. }
  set (w1 := {| files := <[output_filename := packed_archive [it]]> (files w);
                stdin := []; stdout := stdout w |}).
  assert (pack_rch bz2_compress self w output_filename [dash] false stdin_filename
          = (w1, Ok [it_entry self it])) as Hpack.
  { unfold pack_rch. rewrite (new_archive_world w output_filename Hout).
    cbn [RCH.pack_loop]. unfold read_input_file. rewrite !decide_True by done.
    cbn [stdin files stdout]. rewrite Hfname, <- Hf, <- Hd.
    rewrite (item_write_file_block bz2_compress self it Hbuilt).
    unfold write_to. rewrite decide_False by done. cbn [files stdin stdout].
    rewrite lookup_insert_eq. cbn [default from_option id app].
    unfold w1. rewrite insert_insert_eq, packed_archive_eq. cbn [map concat].
    by rewrite app_nil_r. }
  pose proof (unpack_rch_items bz2_compress bz2_decompress self reader w1
                output_filename dash None [it] Hout) as Hunpack.
  rewrite chosen_None in Hunpack.
  exists w1, (it_entry self it), (write_items dash [it] w1),
    (it_result self Unpacked it).
  split; [exact Hpack|]. split; [reflexivity|]. split.
  { apply Hunpack; [|by apply Forall_singleton|exact Hdec].
    cbn [w1 files]. by rewrite lookup_insert_eq. }
  cbn. rewrite Hd. split_and!; try done.
Qed.

Lemma stdin_to_stdout_roundtrip_witness :
  ∃ w1 e w2 u,
    pack_rch Sample.store (Sample.xor_handler false)
      {| files := ∅; stdin := [x01; x02]; stdout := [] |}
      Sample.archive_path [dash] false [115] = (w1, Ok [e]) ∧
    stdin w1 = [] ∧
    unpack_rch Sample.unstore (Sample.xor_handler false) w1 Sample.archive_path dash None
    = Some (w2, Ok [u]) ∧
    stdout w2 = [] ++ [x01; x02] ∧
    files w2 = files w1 ∧
    filename u = [115] ∧ status u = Unpacked ∧ crc_passed u = true.
Proof.
  apply (stdin_to_stdout_roundtrip Sample.store Sample.unstore
           (Sample.xor_handler false) (Sample.xor_handler false)
           {| files := ∅; stdin := [x01; x02]; stdout := [] |}
           Sample.archive_path [115] [x73]).
  - intros level data _. reflexivity.
  - right. left. reflexivity.
  - discriminate.
  - intros Hin. repeat (apply elem_of_cons in Hin as [Hin|Hin]; [discriminate|]).
    by apply elem_of_nil in Hin.
  - reflexivity.
  - simpl. lia.
  - intros Hin. repeat (apply elem_of_cons in Hin as [Hin|Hin]; [discriminate|]).
    by apply elem_of_nil in Hin.
  - discriminate.
  - intros encoded [= <-]. vm_compute. reflexivity.
Defined.

(** ** Listing every block, and a handler that cannot encode *)

Module EveryBlockFacts.





End EveryBlockFacts.




